(** * Green Model Advisor: the client's candidate selection and dashboard statistics

    A shallow embedding of the two React components of the client,
    [client/src/ChatCarbon.jsx] (the single-estimate handler, which queries every
    available model and keeps the best one) and [client/src/Dashboard.jsx]
    (the statistics recomputed from the history of accepted estimates), together
    with the properties the specification states about them. Further
    properties follow: of the handler's outcomes, of the list of chats, of the
    loading of the models and of the breakdown by model.

    JavaScript numbers are IEEE 754 binary64 values and are modelled as Rocq's
    primitive [float]s, whose operations are exactly the binary64 ones; counters
    that only ever hold array lengths or are incremented by one are [nat].
    JavaScript strings are sequences of UTF-16 code units. *)

From Stdlib Require Import String Ascii.
From Stdlib Require Import Floats ZArith NArith List Bool Lia Permutation Sorted.
Import ListNotations.

(* Decimal literals denote the nearest binary64 value, as in JavaScript. *)
Set Warnings "-inexact-float".

(** ** JavaScript numbers *)

Module JSNumber.

Local Open Scope float_scope.

(** [ToBoolean] on a number: [0], [-0] and [NaN] are falsy. *)
Definition truthy (x : float) : bool := negb ((x =? 0) || is_nan x).

(** A counter (an array length, or a field only ever incremented by one) read
    as a number; exact for every value below [2^53]. *)
Definition of_nat (n : nat) : float := PrimFloat.of_uint63 (Uint63.of_Z (Z.of_nat n)).

(** What [Array.prototype.reduce((sum, x) => sum + x, 0)] computes. *)
Definition sum (l : list float) : float := fold_left PrimFloat.add l 0.

End JSNumber.

(** ** JavaScript strings *)

Module JSString.

(** A string is its sequence of UTF-16 code units. *)
Definition t : Type := list N.

(** The code units of an ASCII literal. *)
Definition of_string (s : string) : t := map N_of_ascii (list_ascii_of_string s).

Fixpoint eqb (a b : t) : bool :=
  match a, b with
  | [], [] => true
  | x :: a', y :: b' => N.eqb x y && eqb a' b'
  | _, _ => false
  end.

(** [ToBoolean] on a string: only the empty string is falsy. *)
Definition truthy (s : t) : bool :=
  match s with [] => false | _ :: _ => true end.

(** ECMAScript's [WhiteSpace] and [LineTerminator] code points, the
    characters [String.prototype.trim] strips. *)
Definition isWhiteSpace (c : N) : bool :=
  ((9 <=? c) && (c <=? 13) || (c =? 32) || (c =? 160) || (c =? 5760)
   || (8192 <=? c) && (c <=? 8202) || (c =? 8232) || (c =? 8233)
   || (c =? 8239) || (c =? 8287) || (c =? 12288) || (c =? 65279))%N.

Fixpoint trimStart (s : t) : t :=
  match s with
  | [] => []
  | c :: s' => if isWhiteSpace c then trimStart s' else s
  end.

Definition trimEnd (s : t) : t := rev (trimStart (rev s)).

Definition trim (s : t) : t := trimEnd (trimStart s).

Fixpoint startsWith (s k : t) : bool :=
  match k, s with
  | [], _ => true
  | _ :: _, [] => false
  | y :: k', x :: s' => N.eqb x y && startsWith s' k'
  end.

(** [s.includes(k)]: [k] occurs in [s] as a contiguous run. *)
Fixpoint includes (s k : t) : bool :=
  startsWith s k ||
  match s with
  | [] => false
  | _ :: s' => includes s' k
  end.

(** [s.slice(0, n)]. *)
Definition slice0 (n : nat) (s : t) : t := firstn n s.

End JSString.

Abbreviation jsstring := JSString.t.
Abbreviation str := JSString.of_string.

(** ** The estimate objects of the API

    The body of a successful [POST /estimate] response, restricted to the
    properties the client reads. A property is [None] when it is absent,
    [undefined] or [null]; the numeric ones otherwise hold a number and the
    textual ones a string. *)

Record AccuracyScores : Type := {
  scores_overall_accuracy : option float
}.

Record EstimateResult : Type := {
  model_name : option jsstring;
  model : option jsstring;
  carbon_emitted_kgco2 : option float;
  carbon_emitted_grams : option float;
  energy_consumed_kwh : option float;
  total_tokens : option float;
  overall_accuracy : option float;
  accuracy_scores : option AccuracyScores;
  response_text : option jsstring
}.

(** [a || b] on possibly absent numbers. *)
Definition num_or (a b : option float) : option float :=
  match a with
  | Some x => if JSNumber.truthy x then a else b
  | None => b
  end.

(** [a || 0]. *)
Definition num_or0 (a : option float) : float :=
  match a with
  | Some x => if JSNumber.truthy x then x else 0%float
  | None => 0%float
  end.

(** [a || b] on possibly absent strings. *)
Definition str_or (a b : option jsstring) : option jsstring :=
  match a with
  | Some s => if JSString.truthy s then a else b
  | None => b
  end.

(** [a || d] with a literal default [d]. *)
Definition str_or_default (a : option jsstring) (d : jsstring) : jsstring :=
  match a with
  | Some s => if JSString.truthy s then s else d
  | None => d
  end.

(** [result.accuracy_scores?.overall_accuracy]. *)
Definition nested_overall_accuracy (r : EstimateResult) : option float :=
  match accuracy_scores r with
  | Some s => scores_overall_accuracy s
  | None => None
  end.

(** ** Dashboard.jsx: statistics over the history of estimates *)

Module Breakdown.

(** One value of the [modelBreakdown] object. *)
Record t : Type := {
  count : nat;
  totalCarbon : float;
  totalEnergy : float;
  totalAccuracy : float;
  accuracyCount : nat
}.

Definition empty : t :=
  {| count := 0; totalCarbon := 0; totalEnergy := 0; totalAccuracy := 0; accuracyCount := 0 |}.

End Breakdown.

Module TopModel.

(** One element of the [topModels] array. *)
Record t : Type := {
  name : jsstring;
  count : nat;
  carbonPerRequest : float;
  accuracyAvg : float
}.

End TopModel.

Module Dashboard.

Local Open Scope float_scope.

(** The names [Object.prototype] has properties for (ECMAScript, Annex B
    included). Each of them holds a function or, for [__proto__], the
    prototype itself: a truthy value that a plain object such as
    [modelBreakdown] inherits under that name. *)
Definition Object_prototype : list jsstring :=
  [str "constructor"; str "__defineGetter__"; str "__defineSetter__";
   str "hasOwnProperty"; str "__lookupGetter__"; str "__lookupSetter__";
   str "isPrototypeOf"; str "propertyIsEnumerable"; str "toString"; str "valueOf";
   str "__proto__"; str "toLocaleString"].

Definition inherited (k : jsstring) : bool := existsb (JSString.eqb k) Object_prototype.

(** The value of a decimal digit. *)
Definition digit (c : N) : option N :=
  if ((48 <=? c) && (c <=? 57))%N then Some (c - 48)%N else None.

Fixpoint decimal (s : jsstring) (acc : N) : option N :=
  match s with
  | [] => Some acc
  | c :: s' =>
      match digit c with
      | Some d => decimal s' (10 * acc + d)%N
      | None => None
      end
  end.

(** The array index a property name denotes, if it denotes one: the name is
    the canonical decimal form (no sign, no leading zero) of an integer below
    [2^32 - 1]. *)
Definition arrayIndex (k : jsstring) : option N :=
  match k with
  | [] => None
  | c :: rest =>
      if (c =? 48)%N && JSString.truthy rest then None
      else
        match decimal k 0%N with
        | Some n => if (n <? 4294967295)%N then Some n else None
        | None => None
        end
  end.

(** The [modelBreakdown] object: its own properties in the order in which
    [Object.entries] and [Object.keys] list them, which is that of
    [OrdinaryOwnPropertyKeys]: the properties named by an array index first,
    by increasing index, then the others in the order of their creation. *)
Definition breakdown : Type := list (jsstring * Breakdown.t).

Record Stats : Type := {
  totalRequests : nat;
  totalCarbon : float;
  averageAccuracy : float;
  totalEnergy : float;
  modelBreakdown : breakdown;
  topModels : list TopModel.t
}.

(** The state [useState] starts from. *)
Definition initialStats : Stats :=
  {| totalRequests := 0; totalCarbon := 0; averageAccuracy := 0; totalEnergy := 0;
     modelBreakdown := []; topModels := [] |}.

(** [e.overall_accuracy], and when that is [undefined] or [null],
    [e.accuracy_scores?.overall_accuracy]. *)
Definition entryAccuracy (e : EstimateResult) : option float :=
  match overall_accuracy e with
  | Some a => Some a
  | None => nested_overall_accuracy e
  end.

(** [accuracy && accuracy >= 0 && accuracy <= 100], as a condition. *)
Definition accuracyValid (accuracy : option float) : bool :=
  match accuracy with
  | Some a => JSNumber.truthy a && (0 <=? a) && (a <=? 100)
  | None => false
  end.

(** The callback of [estimates.map]: the accuracy when valid, else [null]. *)
Definition accuracyOrNull (e : EstimateResult) : option float :=
  if accuracyValid (entryAccuracy e) then entryAccuracy e else None.

(** [.filter(acc => acc !== null)]. *)
Fixpoint dropNull (l : list (option float)) : list float :=
  match l with
  | [] => []
  | Some a :: l' => a :: dropNull l'
  | None :: l' => dropNull l'
  end.

Definition validAccuracies (estimates : list EstimateResult) : list float :=
  dropNull (map accuracyOrNull estimates).

(** [e.model_name || e.model || "unknown"]. *)
Definition modelNameOf (e : EstimateResult) : jsstring :=
  str_or_default (str_or (model_name e) (model e)) (str "unknown").

Fixpoint lookup (k : jsstring) (mb : breakdown) : option Breakdown.t :=
  match mb with
  | [] => None
  | (k', d) :: mb' => if JSString.eqb k k' then Some d else lookup k mb'
  end.

(** In-place update of the value stored under [k]. *)
Fixpoint adjust (k : jsstring) (f : Breakdown.t -> Breakdown.t) (mb : breakdown) : breakdown :=
  match mb with
  | [] => []
  | (k', d) :: mb' =>
      if JSString.eqb k k' then (k', f d) :: mb' else (k', d) :: adjust k f mb'
  end.

(** What one estimate adds to the value of its model. *)
Definition accumulate (e : EstimateResult) (d : Breakdown.t) : Breakdown.t :=
  let d1 :=
    {| Breakdown.count := Breakdown.count d + 1;
       Breakdown.totalCarbon := Breakdown.totalCarbon d + num_or0 (carbon_emitted_kgco2 e);
       Breakdown.totalEnergy := Breakdown.totalEnergy d + num_or0 (energy_consumed_kwh e);
       Breakdown.totalAccuracy := Breakdown.totalAccuracy d;
       Breakdown.accuracyCount := Breakdown.accuracyCount d |} in
  match entryAccuracy e with
  | Some accuracy =>
      if accuracyValid (Some accuracy) then
        {| Breakdown.count := Breakdown.count d1;
           Breakdown.totalCarbon := Breakdown.totalCarbon d1;
           Breakdown.totalEnergy := Breakdown.totalEnergy d1;
           Breakdown.totalAccuracy := Breakdown.totalAccuracy d1 + accuracy;
           Breakdown.accuracyCount := Breakdown.accuracyCount d1 + 1 |}
      else d1
  | None => d1
  end.

(** The place of a new property named by the array index [i]: before the
    first property that is not named by a smaller index. *)
Fixpoint defineIndex (i : N) (k : jsstring) (d : Breakdown.t) (mb : breakdown) : breakdown :=
  match mb with
  | [] => [(k, d)]
  | (k', d') :: rest =>
      match arrayIndex k' with
      | Some j => if (i <? j)%N then (k, d) :: mb else (k', d') :: defineIndex i k d rest
      | None => (k, d) :: mb
      end
  end.

(** [modelBreakdown[k] = d] for a name [k] that is not yet an own property:
    the property is created, at the place the enumeration order gives it. *)
Definition define (k : jsstring) (d : Breakdown.t) (mb : breakdown) : breakdown :=
  match arrayIndex k with
  | Some i => defineIndex i k d mb
  | None => mb ++ [(k, d)]
  end.

(** The body of [estimates.forEach]. For a name inherited from
    [Object.prototype] the test [!modelBreakdown[modelName]] reads the
    inherited value, which is truthy: no own property is created, and the
    additions that follow are made to properties of that inherited value (a
    function, or [Object.prototype] itself for [__proto__]), which is not
    part of the breakdown. What they leave there is [undefined] plus a
    number, that is [NaN], which is falsy: a later estimate whose model is
    named [count] or [totalCarbon] still finds no truthy value and gets an
    own property like any other. For a name that is not inherited the test
    reads the own property, if there is one. *)
Definition addEstimate (mb : breakdown) (e : EstimateResult) : breakdown :=
  let modelName := modelNameOf e in
  if inherited modelName then mb
  else
    let mb1 :=
      match lookup modelName mb with
      | Some _ => mb
      | None => define modelName Breakdown.empty mb
      end in
    adjust modelName (accumulate e) mb1.

(** The callback of [Object.entries(modelBreakdown).map]. *)
Definition toTopModel (entry : jsstring * Breakdown.t) : TopModel.t :=
  let (name, data) := entry in
  {| TopModel.name := name;
     TopModel.count := Breakdown.count data;
     TopModel.carbonPerRequest :=
       Breakdown.totalCarbon data / JSNumber.of_nat (Breakdown.count data);
     TopModel.accuracyAvg :=
       if (0 <? Breakdown.accuracyCount data)%nat
       then Breakdown.totalAccuracy data / JSNumber.of_nat (Breakdown.accuracyCount data)
       else 0 |}.

(** [.sort((a, b) => b.count - a.count)]: [Array.prototype.sort] is stable, so
    the result is the one arrangement by decreasing [count] that keeps
    entries of equal count in their original order. It is built here by
    inserting each entry, last first, in front of the entries that are not
    larger. *)
Fixpoint insertByCount (x : TopModel.t) (l : list TopModel.t) : list TopModel.t :=
  match l with
  | [] => [x]
  | y :: l' =>
      if (TopModel.count x <? TopModel.count y)%nat
      then y :: insertByCount x l'
      else x :: y :: l'
  end.

Definition sortByCount (l : list TopModel.t) : list TopModel.t :=
  fold_right insertByCount [] l.

Definition calculateStats (estimates : list EstimateResult) : Stats :=
  let totalRequests := length estimates in
  let totalCarbon :=
    fold_left (fun sum e => sum + num_or0 (carbon_emitted_kgco2 e)) estimates 0 in
  let totalEnergy :=
    fold_left (fun sum e => sum + num_or0 (energy_consumed_kwh e)) estimates 0 in
  let validAccuracies := validAccuracies estimates in
  let totalAccuracy := fold_left (fun sum acc => sum + acc) validAccuracies 0 in
  let averageAccuracy :=
    if (0 <? length validAccuracies)%nat
    then totalAccuracy / JSNumber.of_nat (length validAccuracies)
    else 0 in
  let modelBreakdown := fold_left addEstimate estimates [] in
  let topModels := sortByCount (map toTopModel modelBreakdown) in
  {| totalRequests := totalRequests;
     totalCarbon := totalCarbon;
     averageAccuracy := averageAccuracy;
     totalEnergy := totalEnergy;
     modelBreakdown := modelBreakdown;
     topModels := topModels |}.

(** The effect run when [estimates] changes: the statistics are recomputed
    only for a non-empty history, and otherwise left as they were. *)
Definition onEstimates (stats : Stats) (estimates : list EstimateResult) : Stats :=
  if (0 <? length estimates)%nat then calculateStats estimates else stats.

(** The statistics shown for a history passed to a freshly mounted dashboard. *)
Definition Dashboard (estimates : list EstimateResult) : Stats :=
  onEstimates initialStats estimates.

(** [formatPercentage], given the platform's [Number.prototype.toFixed]. *)
Definition formatPercentage (toFixed : float -> nat -> jsstring) (val : float) : jsstring :=
  if 1 <? val then toFixed val 1%nat else toFixed (val * 100) 1%nat.

End Dashboard.

(** ** ChatCarbon.jsx: the single-estimate handler *)

(** The body of a [POST /estimate] request. *)
Module Payload.
Record t : Type := {
  prompt : jsstring;
  model_name : jsstring;
  evaluate_accuracy : bool;
  auto_select_model : bool;
  simulate : bool
}.
End Payload.

(** What the [Response] of a settled [fetch] offers the handler: [text] and
    [json] are [None] when the corresponding promise rejects. A body that
    parses is taken to be an object, as the API sends. *)
Module Response.
Record t : Type := {
  status : Z;
  ok : bool;
  text : option jsstring;
  json : option EstimateResult
}.
End Response.

(** One row of the local [comparisonResults] array. *)
Module Comparison.
Record t : Type := {
  model : jsstring;
  carbon : float;
  accuracy : float
}.
End Comparison.

Module Message.

(** [bestResult.accuracy_scores || bestResult.overall_accuracy || {}]. *)
Inductive accuracy_value : Type :=
| Scores (s : AccuracyScores)
| Overall (a : float)
| EmptyObject.

(** A chat message; those of type ["comparison"] are written by another
    handler and their contents are not needed here. *)
Inductive t : Type :=
| estimate (id : Z) (prompt model : jsstring) (carbon energy tokens : float)
    (accuracy : accuracy_value) (response_text timestamp : jsstring)
| comparison (id : Z).

End Message.

Module Chat.
Record t : Type := {
  id : Z;
  title : jsstring;
  messages : list Message.t
}.
End Chat.

Module ChatCarbon.

Local Open Scope float_scope.

Inductive promptType : Type := image | text.

(** The [comparisonResults] state: [null], the rows of a single estimate, or
    the server's answer to a comparison request (stored by another handler). *)
Inductive comparisonState : Type :=
| NoComparison
| Rows (rows : list Comparison.t)
| ServerComparison.

(** The state variables the handler reads or sets. *)
Record State : Type := {
  input : jsstring;
  chats : list Chat.t;
  activeChatId : option Z;
  loading : bool;
  availableModels : list jsstring;
  showComparison : bool;
  comparisonResults : comparisonState;
  allEstimates : list EstimateResult;
  error : jsstring
}.

(** What the handler gets from its host: the network, the clock and the
    string functions of the platform. [fetchEstimate] is [None] when [fetch]
    itself rejects. *)
Record Env : Type := {
  fetchEstimate : Payload.t -> option Response.t;
  toLowerCase : jsstring -> jsstring;
  Date_now_chat : Z;
  Date_now_message : Z;
  toLocaleTimeString : jsstring
}.

Inductive logged : Type :=
| AvailableModels (models : list jsstring)
| RequestingEstimate (modelName : jsstring) (payload : Payload.t)
| ResponseFrom (modelName : jsstring) (status : Z)
| ResultFrom (modelName : jsstring) (result : EstimateResult)
| Scored (modelName : jsstring) (carbon accuracy score : float)
| BestModelSelected (bestModel : jsstring) (bestResult : EstimateResult)
| AddingToAllEstimates (bestResult : EstimateResult).

Inductive reported : Type :=
| ErrorFrom (modelName : jsstring) (errorText : jsstring)
| ErrorCalling (modelName : jsstring).

(** The effects of the handler on the outside, in the order they happen. *)
Inductive event : Type :=
| ConsoleLog (l : logged)
| ConsoleError (r : reported)
| Fetch (payload : Payload.t).

Definition setInput (v : jsstring) (st : State) : State :=
  {| input := v; chats := chats st; activeChatId := activeChatId st; loading := loading st;
     availableModels := availableModels st; showComparison := showComparison st;
     comparisonResults := comparisonResults st; allEstimates := allEstimates st;
     error := error st |}.

Definition setChats (v : list Chat.t) (st : State) : State :=
  {| input := input st; chats := v; activeChatId := activeChatId st; loading := loading st;
     availableModels := availableModels st; showComparison := showComparison st;
     comparisonResults := comparisonResults st; allEstimates := allEstimates st;
     error := error st |}.

Definition setActiveChatId (v : option Z) (st : State) : State :=
  {| input := input st; chats := chats st; activeChatId := v; loading := loading st;
     availableModels := availableModels st; showComparison := showComparison st;
     comparisonResults := comparisonResults st; allEstimates := allEstimates st;
     error := error st |}.

Definition setLoading (v : bool) (st : State) : State :=
  {| input := input st; chats := chats st; activeChatId := activeChatId st; loading := v;
     availableModels := availableModels st; showComparison := showComparison st;
     comparisonResults := comparisonResults st; allEstimates := allEstimates st;
     error := error st |}.

Definition setShowComparison (v : bool) (st : State) : State :=
  {| input := input st; chats := chats st; activeChatId := activeChatId st; loading := loading st;
     availableModels := availableModels st; showComparison := v;
     comparisonResults := comparisonResults st; allEstimates := allEstimates st;
     error := error st |}.

Definition setComparisonResults (v : comparisonState) (st : State) : State :=
  {| input := input st; chats := chats st; activeChatId := activeChatId st; loading := loading st;
     availableModels := availableModels st; showComparison := showComparison st;
     comparisonResults := v; allEstimates := allEstimates st;
     error := error st |}.

Definition setAllEstimates (v : list EstimateResult) (st : State) : State :=
  {| input := input st; chats := chats st; activeChatId := activeChatId st; loading := loading st;
     availableModels := availableModels st; showComparison := showComparison st;
     comparisonResults := comparisonResults st; allEstimates := v;
     error := error st |}.

Definition setError (v : jsstring) (st : State) : State :=
  {| input := input st; chats := chats st; activeChatId := activeChatId st; loading := loading st;
     availableModels := availableModels st; showComparison := showComparison st;
     comparisonResults := comparisonResults st; allEstimates := allEstimates st;
     error := v |}.

Definition imageKeywords : list jsstring :=
  [str "image"; str "picture"; str "photo"; str "draw"; str "generate an image";
   str "show me"; str "visualize"; str "create a picture"; str "generate a photo";
   str "generate a drawing"].

Definition detectPromptType (env : Env) (prompt : jsstring) : promptType :=
  let lowerPrompt := toLowerCase env prompt in
  if existsb (fun k => JSString.includes lowerPrompt k) imageKeywords then image else text.

(** *** The comparison loop *)

(** [result.carbon_emitted_kgco2 || result.carbon_emitted_grams || 0]. *)
Definition carbonOf (result : EstimateResult) : float :=
  num_or0 (num_or (carbon_emitted_kgco2 result) (carbon_emitted_grams result)).

(** [result.accuracy_scores?.overall_accuracy || result.overall_accuracy || 0]. *)
Definition accuracyOf (result : EstimateResult) : float :=
  num_or0 (num_or (nested_overall_accuracy result) (overall_accuracy result)).

Definition accuracyNormalized (accuracy : float) : float :=
  if 1 <? accuracy then accuracy / 100 else accuracy.

Definition accuracyDisplay (accuracy : float) : float :=
  if 1 <? accuracy then accuracy else accuracy * 100.

(** [carbon + (1 - accuracyNormalized)]: the lower, the better. *)
Definition score (result : EstimateResult) : float :=
  carbonOf result + (1 - accuracyNormalized (accuracyOf result)).

(** The variables the loop updates; [rows] is the local [comparisonResults]
    array. *)
Record Best : Type := {
  bestModel : jsstring;
  bestResult : option EstimateResult;
  bestScore : float;
  rows : list Comparison.t
}.

Definition mkPayload (prompt modelName : jsstring) : Payload.t :=
  {| Payload.prompt := prompt; Payload.model_name := modelName;
     Payload.evaluate_accuracy := true; Payload.auto_select_model := true;
     Payload.simulate := false |}.

(** How the request for one model ends: with the parsed body of an [ok]
    response, or in one of the ways that make the loop [continue]. *)
Definition candidate (env : Env) (prompt modelName : jsstring) : option EstimateResult :=
  match fetchEstimate env (mkPayload prompt modelName) with
  | Some response => if Response.ok response then Response.json response else None
  | None => None
  end.

(** One turn of [for (const modelName of filteredModels)]: the request is
    sent and awaited, and what follows depends on how it settled. *)
Definition iteration (env : Env) (prompt : jsstring) (b : Best) (modelName : jsstring)
  : Best * list event :=
  let payload := mkPayload prompt modelName in
  let sent := [ConsoleLog (RequestingEstimate modelName payload); Fetch payload] in
  match fetchEstimate env payload with
  | None => (b, sent ++ [ConsoleError (ErrorCalling modelName)])
  | Some response =>
      let answered := sent ++ [ConsoleLog (ResponseFrom modelName (Response.status response))] in
      if negb (Response.ok response) then
        match Response.text response with
        | Some errorText => (b, answered ++ [ConsoleError (ErrorFrom modelName errorText)])
        | None => (b, answered ++ [ConsoleError (ErrorCalling modelName)])
        end
      else
        match Response.json response with
        | None => (b, answered ++ [ConsoleError (ErrorCalling modelName)])
        | Some result =>
            let carbon := carbonOf result in
            let accuracy := accuracyOf result in
            let score := carbon + (1 - accuracyNormalized accuracy) in
            let row := {| Comparison.model := modelName; Comparison.carbon := carbon;
                          Comparison.accuracy := accuracyDisplay accuracy |} in
            let out := answered ++ [ConsoleLog (ResultFrom modelName result);
                                    ConsoleLog (Scored modelName carbon accuracy score)] in
            if score <? bestScore b then
              ({| bestModel := modelName; bestResult := Some result; bestScore := score;
                  rows := rows b ++ [row] |}, out)
            else
              ({| bestModel := bestModel b; bestResult := bestResult b;
                  bestScore := bestScore b; rows := rows b ++ [row] |}, out)
        end
  end.

Fixpoint forOf (env : Env) (prompt : jsstring) (models : list jsstring) (b : Best)
  : Best * list event :=
  match models with
  | [] => (b, [])
  | modelName :: rest =>
      let (b1, t1) := iteration env prompt b modelName in
      let (b2, t2) := forOf env prompt rest b1 in
      (b2, t1 ++ t2)
  end.

(** The loop from its initial variables: [filteredModels[0]], [null],
    [Number.POSITIVE_INFINITY] and the empty array. *)
Definition selectionLoop (env : Env) (prompt : jsstring) (filteredModels : list jsstring)
  : Best * list event :=
  forOf env prompt filteredModels
    {| bestModel := hd [] filteredModels; bestResult := None; bestScore := infinity;
       rows := [] |}.

(** *** The handler *)

Definition imageMessage : jsstring := str "Image generation will be available soon.".

Definition noModelsMessage : jsstring :=
  str "No supported text generation models are available.".

Definition noResultsMessage : jsstring :=
  str "No successful results from any model. Please check your API keys and ensure models are available.".

(** [bestResult.accuracy_scores || bestResult.overall_accuracy || {}]. *)
Definition messageAccuracy (bestResult : EstimateResult) : Message.accuracy_value :=
  match accuracy_scores bestResult with
  | Some s => Message.Scores s
  | None =>
      match overall_accuracy bestResult with
      | Some a => if JSNumber.truthy a then Message.Overall a else Message.EmptyObject
      | None => Message.EmptyObject
      end
  end.

(** [!chatId]: no identifier, or the falsy identifier [0]. *)
Definition noChat (chatId : option Z) : bool :=
  match chatId with
  | Some id => Z.eqb id 0
  | None => true
  end.

(** The updater of the last [setChats]. *)
Definition appendMessage (chatId : Z) (message : Message.t) (prev : list Chat.t) : list Chat.t :=
  map (fun c =>
         if Z.eqb (Chat.id c) chatId
         then {| Chat.id := Chat.id c; Chat.title := Chat.title c;
                 Chat.messages := Chat.messages c ++ [message] |}
         else c) prev.

(** One run of [handleSingleEstimate] from the state [st]: the state it
    leaves and the effects it had on the outside. Under the types above
    nothing outside the loop's own [try] can throw, so the outer [catch] is
    never entered and the function always completes. *)
Definition handleSingleEstimate (env : Env) (st : State) : State * list event :=
  if negb (JSString.truthy (JSString.trim (input st))) then (st, [])
  else
    let st1 := setError [] (setLoading true st) in
    match detectPromptType env (input st) with
    | image => (setLoading false (setLoading false (setError imageMessage st1)), [])
    | text =>
        let filteredModels := availableModels st in
        if (length filteredModels =? 0)%nat then
          (setLoading false (setLoading false (setError noModelsMessage st1)), [])
        else
          let (b, requests) := selectionLoop env (input st) filteredModels in
          let trace := ConsoleLog (AvailableModels filteredModels) :: requests in
          match bestResult b with
          | None => (setLoading false (setLoading false (setError noResultsMessage st1)), trace)
          | Some best =>
              let st2 := setShowComparison true (setComparisonResults (Rows (rows b)) st1) in
              let newChat := {| Chat.id := Date_now_chat env;
                                Chat.title := JSString.slice0 30 (input st) ++ str "...";
                                Chat.messages := [] |} in
              let chatId :=
                if noChat (activeChatId st) then Chat.id newChat
                else match activeChatId st with Some id => id | None => 0%Z end in
              let st3 :=
                if noChat (activeChatId st)
                then setActiveChatId (Some chatId) (setChats (chats st ++ [newChat]) st2)
                else st2 in
              let message :=
                Message.estimate (Date_now_message env) (input st) (bestModel b)
                  (carbonOf best) (num_or0 (energy_consumed_kwh best))
                  (num_or0 (total_tokens best)) (messageAccuracy best)
                  (str_or_default (response_text best) []) (toLocaleTimeString env) in
              let st4 := setChats (appendMessage chatId message (chats st3)) st3 in
              let st5 := setAllEstimates (allEstimates st4 ++ [best]) st4 in
              let st6 := setInput [] st5 in
              (setLoading false st6,
               trace ++ [ConsoleLog (BestModelSelected (bestModel b) best);
                         ConsoleLog (AddingToAllEstimates best)])
          end
    end.


(** *** The list of chats *)

(** [chats.find(c => c.id === activeChatId)]: the first chat that carries the
    active identifier. *)
Definition activeChat (st : State) : option Chat.t :=
  match activeChatId st with
  | Some id => find (fun c => Z.eqb (Chat.id c) id) (chats st)
  | None => None
  end.

(** [handleNewChat], at the time [now] that [Date.now()] returns. *)
Definition handleNewChat (now : Z) (st : State) : State :=
  let newChat := {| Chat.id := now; Chat.title := str "New Chat"; Chat.messages := [] |} in
  setShowComparison false
    (setActiveChatId (Some (Chat.id newChat)) (setChats (chats st ++ [newChat]) st)).

(** [id === activeChatId]. *)
Definition isActive (id : Z) (st : State) : bool :=
  match activeChatId st with
  | Some a => Z.eqb id a
  | None => false
  end.

Definition deleteChat (id : Z) (st : State) : State :=
  let st1 := setChats (filter (fun c => negb (Z.eqb (Chat.id c) id)) (chats st)) st in
  if isActive id st then setActiveChatId None st1 else st1.

(** [renameChat], given what the dialog opened by [prompt] returns: the text
    typed, or [None] for [null] when the dialog is dismissed. *)
Definition renameChat (answer : option jsstring) (id : Z) (st : State) : State :=
  match answer with
  | None => st
  | Some name =>
      if negb (JSString.truthy (JSString.trim name)) then st
      else
        setChats
          (map (fun c =>
                  if Z.eqb (Chat.id c) id
                  then {| Chat.id := Chat.id c; Chat.title := name;
                          Chat.messages := Chat.messages c |}
                  else c) (chats st)) st
  end.

(** The click on a chat of the side bar: [setActiveChatId(chat.id)]. *)
Definition selectChat (chat : Chat.t) (st : State) : State :=
  setActiveChatId (Some (Chat.id chat)) st.

(** *** The models offered by the server *)

Definition setAvailableModels (v : list jsstring) (st : State) : State :=
  {| input := input st; chats := chats st; activeChatId := activeChatId st; loading := loading st;
     availableModels := v; showComparison := showComparison st;
     comparisonResults := comparisonResults st; allEstimates := allEstimates st;
     error := error st |}.

Definition MODEL_WHITELIST : list jsstring :=
  [str "gemini-2.0-flash"; str "mistral-7b-openrouter"; str "nvidia-qwen-coder"].

(** A value of the [models] object of [GET /models]: [null], on which reading
    a property throws, or any other value, of which only the truthiness of
    its [api_available] property is read. *)
Inductive modelConfig : Type :=
| NullConfig
| Config (api_available : bool).

(** The parsed body of [GET /models]: the properties of [data.models] in the
    order [Object.keys] lists them ([None] when [data.models] is [undefined]
    or [null], on which [Object.keys] throws) and [data.api_status], a value
    of some type [J] that is stored as it comes. *)
Record ModelsData (J : Type) : Type := {
  models : option (list (jsstring * modelConfig));
  api_status : J
}.

Arguments models {J} _.
Arguments api_status {J} _.

(** The state variables [fetchAvailableModels] sets besides those of
    [State]. *)
Record ModelChoice (J : Type) : Type := {
  selectedModels : list jsstring;
  apiStatus : J
}.

Arguments selectedModels {J} _.
Arguments apiStatus {J} _.

(** [modelNames.filter(m => MODEL_WHITELIST.includes(m) &&
    data.models[m].api_available)]; [None] when the callback throws. *)
Fixpoint filterModels (entries : list (jsstring * modelConfig)) : option (list jsstring) :=
  match entries with
  | [] => Some []
  | (m, config) :: rest =>
      if existsb (JSString.eqb m) MODEL_WHITELIST then
        match config with
        | NullConfig => None
        | Config api_available =>
            match filterModels rest with
            | Some kept => Some (if api_available then m :: kept else kept)
            | None => None
            end
        end
      else filterModels rest
  end.

Definition loadFailedMessage : jsstring := str "Failed to load available models".

(** What [fetchAvailableModels] does with the outcome of its request:
    [response] is the parsed body, or [None] when [fetch] or
    [response.json()] rejects. The boolean tells whether the failure was
    reported with [console.error]. *)
Definition fetchAvailableModels {J : Type} (response : option (ModelsData J))
  (st : State) (choice : ModelChoice J) : State * ModelChoice J * bool :=
  let failed :=
    (setAvailableModels [] (setError loadFailedMessage st), choice, true) in
  match response with
  | None => failed
  | Some data =>
      match models data with
      | None => failed
      | Some entries =>
          match filterModels entries with
          | None => failed
          | Some filteredModels =>
              (setAvailableModels filteredModels st,
               {| selectedModels := firstn 3 filteredModels;
                  apiStatus := api_status data |},
               false)
          end
      end
  end.

(** *** Colours *)

Definition getCarbonColor (kg : float) : jsstring :=
  if kg <? 0.000001 then str "#4CAF50"
  else if kg <? 0.00001 then str "#8BC34A"
  else if kg <? 0.0001 then str "#CDDC39"
  else if kg <? 0.001 then str "#FBC02D"
  else str "#FF6F00".

End ChatCarbon.

(** ** Sample data *)

Module Sample.

Import ChatCarbon.

Definition gemini : jsstring := str "gemini-2.0-flash".
Definition mistral : jsstring := str "mistral-7b-openrouter".
Definition qwen : jsstring := str "nvidia-qwen-coder".

(** An estimate as the API returns it for [name], with the given carbon (kg)
    and overall accuracy (0-100). *)
Definition estimateOf (name : jsstring) (carbon accuracy : float) : EstimateResult :=
  {| model_name := Some name; model := None;
     carbon_emitted_kgco2 := Some carbon; carbon_emitted_grams := None;
     energy_consumed_kwh := Some 0.00015%float; total_tokens := Some 120%float;
     overall_accuracy := Some accuracy;
     accuracy_scores := Some {| scores_overall_accuracy := Some accuracy |};
     response_text := Some (str "def binary_search(arr, target): ...") |}.

Definition okResponse (r : EstimateResult) : Response.t :=
  {| Response.status := 200; Response.ok := true; Response.text := None;
     Response.json := Some r |}.

Definition errorResponse : Response.t :=
  {| Response.status := 500; Response.ok := false;
     Response.text := Some (str "Internal Server Error"); Response.json := None |}.

(** Lower case for the letters of ASCII, other code units unchanged. *)
Definition asciiLowerCase (s : jsstring) : jsstring :=
  map (fun c => if ((65 <=? c) && (c <=? 90))%N then (c + 32)%N else c) s.

(** A host whose network answers by model name, as [answers] says. *)
Definition host (answers : jsstring -> option Response.t) : Env :=
  {| fetchEstimate := fun payload => answers (Payload.model_name payload);
     toLowerCase := asciiLowerCase;
     Date_now_chat := 1700000000000;
     Date_now_message := 1700000000001;
     toLocaleTimeString := str "10:15:00 AM" |}.

(** The three models of the white list answer with carbon 0.000067, 0.000062
    and 0.000067 kg and accuracy 77, 76 and 72. *)
Definition threeAnswers (name : jsstring) : option Response.t :=
  if JSString.eqb name gemini then Some (okResponse (estimateOf gemini 0.000067 77))
  else if JSString.eqb name mistral then Some (okResponse (estimateOf mistral 0.000062 76))
  else if JSString.eqb name qwen then Some (okResponse (estimateOf qwen 0.000067 72))
  else None.

(** The first model's request is rejected, the other two answer with the same
    carbon and accuracy. *)
Definition tiedAnswers (name : jsstring) : option Response.t :=
  if JSString.eqb name gemini then None
  else if JSString.eqb name mistral then Some (okResponse (estimateOf mistral 0.000067 77))
  else if JSString.eqb name qwen then Some (okResponse (estimateOf qwen 0.000067 77))
  else None.

(** Every request fails: rejected, answered with an error status, or answered
    with a body that is not JSON. *)
Definition failingAnswers (name : jsstring) : option Response.t :=
  if JSString.eqb name gemini then None
  else if JSString.eqb name mistral then Some errorResponse
  else Some {| Response.status := 200; Response.ok := true;
               Response.text := Some (str "<html>"); Response.json := None |}.

Definition whitelist : list jsstring := [gemini; mistral; qwen].

Definition question : jsstring := str "Write a binary search in Python".

(** A history of three estimates of one model, emitting 0.1, 0.2 and 0.3 kg,
    and the same history in the opposite order. *)
Definition history : list EstimateResult :=
  [estimateOf gemini 0.1 77; estimateOf gemini 0.2 76; estimateOf gemini 0.3 72].

Definition historyReversed : list EstimateResult :=
  [estimateOf gemini 0.3 72; estimateOf gemini 0.2 76; estimateOf gemini 0.1 77].

(** A prompt made of white space only: two spaces, a tab and a line feed. *)
Definition blank : jsstring := [32; 32; 9; 10]%N.

Definition idle : State :=
  {| input := question; chats := []; activeChatId := None; loading := false;
     availableModels := whitelist; showComparison := false;
     comparisonResults := NoComparison; allEstimates := []; error := [] |}.






(** A history of one estimate each for models named "b", "10", "2" and
    "constructor", in that order. *)
Definition mixedNames : list EstimateResult :=
  [estimateOf (str "b") 0.1 77; estimateOf (str "10") 0.1 77; estimateOf (str "2") 0.1 77;
   estimateOf (str "constructor") 0.1 77].

(** A prompt that asks for a picture. *)
Definition drawing : jsstring := str "Please DRAW a cat".

(** Two chats, the first of which is active. *)
Definition firstChat : Chat.t :=
  {| Chat.id := 1690000000000; Chat.title := str "Sorting"; Chat.messages := [] |}.

Definition secondChat : Chat.t :=
  {| Chat.id := 1690000000500; Chat.title := str "New Chat"; Chat.messages := [] |}.

Definition chatting : State :=
  {| input := question; chats := [firstChat; secondChat];
     activeChatId := Some 1690000000000%Z; loading := false;
     availableModels := whitelist; showComparison := false;
     comparisonResults := NoComparison; allEstimates := []; error := [] |}.

(** A body of [GET /models]: four models are configured, one of them is
    outside the white list and one has no usable key. The status is kept as
    the list of the providers with a key. *)
Definition configured : ModelsData (list jsstring) :=
  {| models := Some [(gemini, Config true); (str "gpt-4o", Config true);
                     (mistral, Config false); (qwen, Config true)];
     api_status := [str "google"; str "openai"; str "nvidia"] |}.

(** What the component starts from: one model selected and no status. *)
Definition initialChoice : ModelChoice (list jsstring) :=
  {| selectedModels := [gemini]; apiStatus := [] |}.

(** The state at mount, before the models are known. *)
Definition mounting : State :=
  {| input := []; chats := []; activeChatId := None; loading := false;
     availableModels := []; showComparison := false;
     comparisonResults := NoComparison; allEstimates := []; error := [] |}.

End Sample.

(** ** Vocabulary of the properties *)

(** The specification values that stand for finite numbers. *)
Definition SFfinite (x : spec_float) : Prop :=
  match x with
  | S754_zero _ | S754_finite _ _ _ => True
  | _ => False
  end.

(** The mantissa of the binary64 number [100], whose exponent is [-46]. *)
Definition hundred_m : positive := 7036874417766400.

(** The events of a trace that send a request. *)
Definition isFetch (ev : ChatCarbon.event) : bool :=
  match ev with
  | ChatCarbon.Fetch _ => true
  | _ => false
  end.

Definition isConsoleError (ev : ChatCarbon.event) : bool :=
  match ev with
  | ChatCarbon.ConsoleError _ => true
  | _ => false
  end.

(** The events the handler can only produce once a request has settled: they
    report its status, its body or its failure. *)
Definition isOutcome (ev : ChatCarbon.event) : bool :=
  match ev with
  | ChatCarbon.ConsoleLog (ChatCarbon.ResponseFrom _ _)
  | ChatCarbon.ConsoleLog (ChatCarbon.ResultFrom _ _)
  | ChatCarbon.ConsoleLog (ChatCarbon.Scored _ _ _ _)
  | ChatCarbon.ConsoleError _ => true
  | _ => false
  end.

(** The first event that follows the settling of the request for [modelName]:
    the log of the response's status, or the report of the rejection. *)
Definition settles (modelName : jsstring) (ev : ChatCarbon.event) : bool :=
  match ev with
  | ChatCarbon.ConsoleLog (ChatCarbon.ResponseFrom m _) => JSString.eqb m modelName
  | ChatCarbon.ConsoleError (ChatCarbon.ErrorCalling m) => JSString.eqb m modelName
  | _ => false
  end.

(** A trace in which every request is sent before the outcome of any request
    is acted upon, as a concurrent dispatch joined at a single point would
    give: no [Fetch] comes after an outcome event. *)
Fixpoint dispatchedTogether (trace : list ChatCarbon.event) : bool :=
  match trace with
  | [] => true
  | ev :: rest =>
      if isOutcome ev then forallb (fun e => negb (isFetch e)) rest
      else dispatchedTogether rest
  end.

(** The events of one turn of the loop for [modelName]: the request is
    announced and sent, its settling is then reported, and no further request
    is sent in the same turn. *)
Definition turn (prompt modelName : jsstring) (block : list ChatCarbon.event) : Prop :=
  exists settled rest,
    block = ChatCarbon.ConsoleLog (ChatCarbon.RequestingEstimate modelName
                                     (ChatCarbon.mkPayload prompt modelName))
            :: ChatCarbon.Fetch (ChatCarbon.mkPayload prompt modelName)
            :: settled :: rest /\
    settles modelName settled = true /\
    forallb (fun e => negb (isFetch e)) (settled :: rest) = true.

(** The estimates of a history that count for the model [name]. *)
Definition entriesOf (name : jsstring) (estimates : list EstimateResult)
  : list EstimateResult :=
  filter (fun e => JSString.eqb (Dashboard.modelNameOf e) name) estimates.

(** The breakdown value a run of estimates of one model adds up to. *)
Definition tally (es : list EstimateResult) : Breakdown.t :=
  fold_left (fun d e => Dashboard.accumulate e d) es Breakdown.empty.

(** A model of the breakdown with its request count. *)
Definition nameCount (entry : jsstring * Breakdown.t) : jsstring * nat :=
  (fst entry, Breakdown.count (snd entry)).

(** Decreasing request counts. *)
Definition count_ge (a b : TopModel.t) : Prop := TopModel.count b <= TopModel.count a.

(** What holds of the loop's variables once the models [seen] have been
    tried: with no result kept yet, no candidate so far had a score below
    [Infinity]; otherwise the kept result is the candidate of [bestModel],
    no candidate tried before it has a score at or below its score, and no
    candidate tried after it has a score below. *)
Definition best_so_far (env : ChatCarbon.Env) (prompt : jsstring)
  (seen : list jsstring) (b : ChatCarbon.Best) : Prop :=
  match ChatCarbon.bestResult b with
  | None =>
      ChatCarbon.bestScore b = infinity /\
      forall m r, In m seen -> ChatCarbon.candidate env prompt m = Some r ->
                  (ChatCarbon.score r <? infinity)%float = false
  | Some w =>
      ChatCarbon.bestScore b = ChatCarbon.score w /\
      (ChatCarbon.score w <? infinity)%float = true /\
      exists before after,
        seen = before ++ ChatCarbon.bestModel b :: after /\
        ChatCarbon.candidate env prompt (ChatCarbon.bestModel b) = Some w /\
        (forall m r, In m before -> ChatCarbon.candidate env prompt m = Some r ->
                     (ChatCarbon.score r <=? ChatCarbon.score w)%float = false) /\
        (forall m r, In m after -> ChatCarbon.candidate env prompt m = Some r ->
                     (ChatCarbon.score r <? ChatCarbon.score w)%float = false)
  end.

(** The specification values of magnitude below [2^k]: the zeros, and the
    numbers [m * 2^e] whose mantissa [m] has at most [k - e] binary digits. *)
Definition SFmag (k : Z) (x : spec_float) : Prop :=
  match x with
  | S754_zero _ => True
  | S754_finite _ m e => (Zdigits2 (Zpos m) + e <= k)%Z
  | _ => False
  end.




(** The readings of an estimate that the score is computed from, within the
    ranges they are meant to have: a carbon figure that is a finite,
    non-negative number and an accuracy between 0 and 100. *)
Definition readingsInRange (r : EstimateResult) : Prop :=
  (0 <=? ChatCarbon.carbonOf r)%float = true /\
  (ChatCarbon.carbonOf r <? infinity)%float = true /\
  (0 <=? ChatCarbon.accuracyOf r)%float = true /\
  (ChatCarbon.accuracyOf r <=? 100)%float = true.

(** The row the loop pushes for the successful candidate of [modelName]. *)
Definition rowOf (modelName : jsstring) (result : EstimateResult) : Comparison.t :=
  {| Comparison.model := modelName;
     Comparison.carbon := ChatCarbon.carbonOf result;
     Comparison.accuracy := ChatCarbon.accuracyDisplay (ChatCarbon.accuracyOf result) |}.

(** The rows of the models whose request succeeded, in the order of the list. *)
Definition successfulRows (env : ChatCarbon.Env) (prompt : jsstring) (models : list jsstring)
  : list Comparison.t :=
  flat_map (fun m => match ChatCarbon.candidate env prompt m with
                     | Some r => [rowOf m r]
                     | None => []
                     end) models.

(** The message the handler writes for the winner [best] of [bestModel]. *)
Definition estimateMessage (env : ChatCarbon.Env) (prompt bestModel : jsstring)
  (best : EstimateResult) : Message.t :=
  Message.estimate (ChatCarbon.Date_now_message env) prompt bestModel
    (ChatCarbon.carbonOf best) (num_or0 (energy_consumed_kwh best))
    (num_or0 (total_tokens best)) (ChatCarbon.messageAccuracy best)
    (str_or_default (response_text best) []) (ChatCarbon.toLocaleTimeString env).

(** The active identifier, when there is one, is carried by a chat of the
    list. *)
Definition activeChatExists (st : ChatCarbon.State) : Prop :=
  match ChatCarbon.activeChatId st with
  | Some id => exists c, In c (ChatCarbon.chats st) /\ Chat.id c = id
  | None => True
  end.

(** A chat with one more message at its end. *)
Definition withMessage (message : Message.t) (c : Chat.t) : Chat.t :=
  {| Chat.id := Chat.id c; Chat.title := Chat.title c;
     Chat.messages := Chat.messages c ++ [message] |}.

(** The sum of a counter over the models of a breakdown. *)
Definition sumOver (g : Breakdown.t -> nat) (mb : Dashboard.breakdown) : nat :=
  fold_right (fun entry n => g (snd entry) + n) 0 mb.

(** The estimates that the breakdown counts: those whose model name is not
    a name that a plain object inherits. *)
Definition ownNamed (estimates : list EstimateResult) : list EstimateResult :=
  filter (fun e => negb (Dashboard.inherited (Dashboard.modelNameOf e))) estimates.

(** The names that denote an array index, and the index they denote. *)
Definition isIndex (k : jsstring) : bool :=
  match Dashboard.arrayIndex k with Some _ => true | None => false end.

Definition indexOf (k : jsstring) : N :=
  match Dashboard.arrayIndex k with Some i => i | None => 0%N end.

Definition index_le (a b : jsstring) : Prop := (indexOf a <= indexOf b)%N.

(** The order in which the property names of an object are enumerated: the
    names that denote an array index first, by increasing index, then the
    other names. *)
Definition enumerationOrder (names : list jsstring) : Prop :=
  names = filter isIndex names ++ filter (fun k => negb (isIndex k)) names /\
  StronglySorted index_le (filter isIndex names).

(** The distinct names of a list, each at the place of its first
    occurrence. *)
Definition firstSeen (names : list jsstring) : list jsstring :=
  fold_left (fun seen n => if existsb (JSString.eqb n) seen then seen else seen ++ [n])
    names [].

(** The top models with the request count [c]. *)
Definition hasCount (c : nat) (t : TopModel.t) : bool := Nat.eqb (TopModel.count t) c.

(** The colours of [getCarbonColor], from the lowest carbon figure to the
    highest. *)
Definition palette : list jsstring :=
  [str "#4CAF50"; str "#8BC34A"; str "#CDDC39"; str "#FBC02D"; str "#FF6F00"].

(** The image keywords that are not made redundant by a shorter one. *)
Definition decisiveKeywords : list jsstring :=
  [str "image"; str "picture"; str "photo"; str "draw"; str "show me"; str "visualize"].

(** * Properties *)

(** *** The order on binary64 values

    [<], [<=] and [==] on numbers are the IEEE comparisons: every comparison
    with [NaN] is false. The facts below are derived from the specification of
    the primitive comparisons in [SpecFloat]. *)

Section SFcompare_facts.

Local Ltac cmp_cases :=
  repeat match goal with
    | |- context [Z.compare ?a ?b] => destruct (Z.compare_spec a b)
    | H : context [Z.compare ?a ?b] |- _ => destruct (Z.compare_spec a b)
    | |- context [Pos.compare_cont Eq ?a ?b] =>
        change (Pos.compare_cont Eq a b) with (Pos.compare a b);
        destruct (Pos.compare_spec a b)
    | H : context [Pos.compare_cont Eq ?a ?b] |- _ =>
        change (Pos.compare_cont Eq a b) with (Pos.compare a b) in H;
        destruct (Pos.compare_spec a b)
    end;
  simpl in *; try congruence; try lia.

Lemma SFcompare_antisym (x y : spec_float) :
  SFcompare y x = option_map CompOpp (SFcompare x y).
Proof.
  destruct x as [[]|[]| |[] m1 e1], y as [[]|[]| |[] m2 e2]; simpl; try reflexivity;
    f_equal; cmp_cases.
Qed.

Lemma SFcompare_Lt_trans (x y z : spec_float) :
  SFcompare x y = Some Lt -> SFcompare y z = Some Lt -> SFcompare x z = Some Lt.
Proof.
  destruct x as [[]|[]| |[] m1 e1], y as [[]|[]| |[] m2 e2], z as [[]|[]| |[] m3 e3];
    simpl; try congruence; intros H1 H2; f_equal;
    injection H1 as H1; injection H2 as H2; cmp_cases.
Qed.

Lemma SFcompare_Eq_Lt_trans (x y z : spec_float) :
  SFcompare x y = Some Eq -> SFcompare y z = Some Lt -> SFcompare x z = Some Lt.
Proof.
  destruct x as [[]|[]| |[] m1 e1], y as [[]|[]| |[] m2 e2], z as [[]|[]| |[] m3 e3];
    simpl; try congruence; intros H1 H2; f_equal;
    injection H1 as H1; injection H2 as H2; cmp_cases.
Qed.

Lemma SFcompare_defined (x y : spec_float) :
  x <> S754_nan -> y <> S754_nan -> exists c, SFcompare x y = Some c.
Proof.
  destruct x as [[]|[]| |[] m1 e1], y as [[]|[]| |[] m2 e2]; simpl; intros Hx Hy;
    try congruence; eexists; reflexivity.
Qed.

Lemma SFcompare_some_not_nan (x y : spec_float) (c : comparison) :
  SFcompare x y = Some c -> x <> S754_nan /\ y <> S754_nan.
Proof.
  destruct x as [[]|[]| |[] m1 e1], y as [[]|[]| |[] m2 e2]; simpl; intros H;
    split; congruence.
Qed.

End SFcompare_facts.

Section Number_order.

Local Open Scope float_scope.

Lemma num_ltb_trans (a b c : float) :
  (a <? b) = true -> (b <? c) = true -> (a <? c) = true.
Proof.
  rewrite !FloatAxioms.ltb_spec. unfold SFltb.
  destruct (SFcompare (Prim2SF a) (Prim2SF b)) as [[]|] eqn:Hab; try discriminate.
  destruct (SFcompare (Prim2SF b) (Prim2SF c)) as [[]|] eqn:Hbc; try discriminate.
  now rewrite (SFcompare_Lt_trans _ _ _ Hab Hbc).
Qed.

Lemma num_ltb_leb (a b : float) : (a <? b) = true -> (a <=? b) = true.
Proof.
  rewrite FloatAxioms.ltb_spec, FloatAxioms.leb_spec. unfold SFltb, SFleb.
  now destruct (SFcompare _ _) as [[]|].
Qed.

Lemma num_eqb_leb (a b : float) : (a =? b) = true -> (a <=? b) = true.
Proof.
  rewrite FloatAxioms.eqb_spec, FloatAxioms.leb_spec. unfold SFeqb, SFleb.
  now destruct (SFcompare _ _) as [[]|].
Qed.

(** [a <= b] and [b < c] give [a < c]. *)
Lemma num_leb_ltb_trans (a b c : float) :
  (a <=? b) = true -> (b <? c) = true -> (a <? c) = true.
Proof.
  rewrite FloatAxioms.leb_spec, !FloatAxioms.ltb_spec. unfold SFleb, SFltb.
  destruct (SFcompare (Prim2SF a) (Prim2SF b)) as [[]|] eqn:Hab; try discriminate;
    destruct (SFcompare (Prim2SF b) (Prim2SF c)) as [[]|] eqn:Hbc; try discriminate; intros _ _.
  - now rewrite (SFcompare_Eq_Lt_trans _ _ _ Hab Hbc).
  - now rewrite (SFcompare_Lt_trans _ _ _ Hab Hbc).
Qed.

(** A strict comparison excludes the converse large one. *)
Lemma num_ltb_not_leb (a b : float) : (a <? b) = true -> (b <=? a) = false.
Proof.
  rewrite FloatAxioms.ltb_spec, FloatAxioms.leb_spec. unfold SFltb, SFleb.
  rewrite (SFcompare_antisym (Prim2SF a) (Prim2SF b)).
  now destruct (SFcompare (Prim2SF a) (Prim2SF b)) as [[]|].
Qed.

Lemma num_is_nan_false (a : float) : Prim2SF a <> S754_nan -> is_nan a = false.
Proof.
  unfold is_nan. rewrite FloatAxioms.eqb_spec. unfold SFeqb. intros Ha.
  destruct (Prim2SF a) as [[]|[]| |[] m e]; simpl; try congruence;
    rewrite Z.compare_refl, Pos.compare_cont_refl; reflexivity.
Qed.

Lemma num_ltb_not_nan_l (a b : float) : (a <? b) = true -> is_nan a = false.
Proof.
  rewrite FloatAxioms.ltb_spec. unfold SFltb.
  destruct (SFcompare (Prim2SF a) (Prim2SF b)) as [c|] eqn:Hab; try discriminate.
  intros _. apply num_is_nan_false. now destruct (SFcompare_some_not_nan _ _ _ Hab).
Qed.

Lemma num_leb_not_nan (a b : float) :
  (a <=? b) = true -> is_nan a = false /\ is_nan b = false.
Proof.
  rewrite FloatAxioms.leb_spec. unfold SFleb.
  destruct (SFcompare (Prim2SF a) (Prim2SF b)) as [c|] eqn:Hab; try discriminate.
  intros _. destruct (SFcompare_some_not_nan _ _ _ Hab).
  split; now apply num_is_nan_false.
Qed.

Lemma num_not_nan_spec (a : float) : is_nan a = false -> Prim2SF a <> S754_nan.
Proof.
  unfold is_nan. rewrite FloatAxioms.eqb_spec. unfold SFeqb.
  intros H Hn. rewrite Hn in H. simpl in H. discriminate.
Qed.

(** On numbers other than [NaN] the order is total: when [a < b] fails,
    [b <= a] holds. *)
Lemma num_not_ltb_leb (a b : float) :
  is_nan a = false -> is_nan b = false -> (a <? b) = false -> (b <=? a) = true.
Proof.
  intros Ha%num_not_nan_spec Hb%num_not_nan_spec.
  rewrite FloatAxioms.ltb_spec, FloatAxioms.leb_spec. unfold SFltb, SFleb.
  rewrite (SFcompare_antisym (Prim2SF a) (Prim2SF b)).
  destruct (SFcompare_defined _ _ Ha Hb) as [c ->]. now destruct c.
Qed.

Lemma num_leb_refl (a : float) : is_nan a = false -> (a <=? a) = true.
Proof.
  unfold is_nan. intros H. apply num_eqb_leb. now destruct (a =? a).
Qed.

End Number_order.

(** *** Rounding

    The product of two binary64 numbers is the exact product rounded to
    nearest, ties to even, as [SpecFloat] defines it: the mantissas are
    multiplied, the product is shifted right until it fits the precision, and
    the result is rounded on the bits shifted out. The lemmas below follow
    that definition: a rounded result is never [NaN], and a number at most
    [1] times [100] is at most [100]. *)

Section Rounding.

Local Open Scope Z_scope.

(** The mantissas of two numbers of equal sign and exponent are compared as
    positive integers. *)
Lemma compare_cont_le (p q : positive) :
  match Pos.compare_cont Eq p q with Gt => false | _ => true end = true <->
  Zpos p <= Zpos q.
Proof.
  change (Pos.compare_cont Eq p q) with (Pos.compare p q).
  destruct (Pos.compare_spec p q); split; intros; try reflexivity; try discriminate; lia.
Qed.

Lemma digits2_pos_bounds (p : positive) :
  2 ^ (Zpos (digits2_pos p) - 1) <= Zpos p < 2 ^ Zpos (digits2_pos p).
Proof.
  induction p as [p IH|p IH|]; cbn [digits2_pos].
  - rewrite Pos2Z.inj_succ. replace (Z.succ (Zpos (digits2_pos p)) - 1) with (Z.succ (Zpos (digits2_pos p) - 1)) by lia.
    rewrite !Z.pow_succ_r by lia. lia.
  - rewrite Pos2Z.inj_succ. replace (Z.succ (Zpos (digits2_pos p)) - 1) with (Z.succ (Zpos (digits2_pos p) - 1)) by lia.
    rewrite !Z.pow_succ_r by lia. lia.
  - simpl. lia.
Qed.

Lemma shr_1_m (mrs : shr_record) :
  0 <= shr_m mrs -> shr_m (shr_1 mrs) = shr_m mrs / 2.
Proof.
  destruct mrs as [m r s]. simpl. intros Hm. rewrite <- Z.div2_div.
  destruct m as [|[p|p|]|p]; try reflexivity; lia.
Qed.

Lemma iter_shr_m (p : positive) (mrs : shr_record) :
  0 <= shr_m mrs -> shr_m (SpecFloat.iter_pos shr_1 p mrs) = shr_m mrs / 2 ^ Zpos p.
Proof.
  revert mrs. induction p as [p IH|p IH|]; intros mrs Hm; cbn [SpecFloat.iter_pos].
  - assert (Hpow : 2 ^ Zpos p~1 = 2 * (2 ^ Zpos p * 2 ^ Zpos p)).
    { rewrite Pos2Z.inj_xI, <- Z.pow_add_r, <- Z.pow_succ_r by lia. f_equal. lia. }
    assert (H1 : 0 <= shr_m (shr_1 mrs)) by (rewrite shr_1_m by trivial; apply Z.div_pos; lia).
    assert (H2 : 0 <= shr_m (SpecFloat.iter_pos shr_1 p (shr_1 mrs)))
      by (rewrite IH by trivial; apply Z.div_pos; lia).
    rewrite IH, IH, shr_1_m, Hpow by trivial.
    rewrite !Z.div_div by lia. reflexivity.
  - assert (Hpow : 2 ^ Zpos p~0 = 2 ^ Zpos p * 2 ^ Zpos p).
    { rewrite Pos2Z.inj_xO, <- Z.pow_add_r by lia. f_equal. lia. }
    assert (H2 : 0 <= shr_m (SpecFloat.iter_pos shr_1 p mrs))
      by (rewrite IH by trivial; apply Z.div_pos; lia).
    rewrite IH, IH, Hpow by trivial.
    rewrite !Z.div_div by lia. reflexivity.
  - rewrite shr_1_m by trivial. reflexivity.
Qed.

Lemma shr_record_of_loc_m (m : Z) (l : location) : shr_m (shr_record_of_loc m l) = m.
Proof. destruct l as [|[]]; reflexivity. Qed.

Lemma shr_fexp_m (m e : Z) (l : location) :
  0 <= m ->
  let k := Z.max (fexp prec emax (Zdigits2 m + e) - e) 0 in
  shr_m (fst (shr_fexp prec emax m e l)) = m / 2 ^ k /\
  snd (shr_fexp prec emax m e l) = e + k.
Proof.
  intros Hm. cbv zeta. unfold shr_fexp, shr.
  destruct (fexp prec emax (Zdigits2 m + e) - e) as [|p|p] eqn:Hn; cbn [fst snd].
  - rewrite shr_record_of_loc_m. simpl. rewrite Z.div_1_r. split; lia.
  - rewrite iter_shr_m by (rewrite shr_record_of_loc_m; exact Hm).
    rewrite shr_record_of_loc_m. replace (Z.max (Zpos p) 0) with (Zpos p) by lia.
    split; reflexivity.
  - rewrite shr_record_of_loc_m. replace (Z.max (Zneg p) 0) with 0 by lia.
    simpl. rewrite Z.div_1_r. split; lia.
Qed.

Lemma round_nearest_even_bounds (m : Z) (l : location) :
  m <= round_nearest_even m l <= m + 1.
Proof.
  destruct l as [|[]]; simpl; try lia. destruct (Z.even m); lia.
Qed.

Lemma Zdigits2_le (z k : Z) : 0 <= z -> 0 <= k -> z < 2 ^ k -> Zdigits2 z <= k.
Proof.
  intros Hz Hk Hlt. destruct z as [|p|p]; simpl; try lia.
  destruct (digits2_pos_bounds p) as [Hlo _].
  destruct (Z_le_gt_dec (Zpos (digits2_pos p)) k) as [|Hgt]; [assumption|exfalso].
  assert (2 ^ k <= 2 ^ (Zpos (digits2_pos p) - 1)) by (apply Z.pow_le_mono_r; lia).
  lia.
Qed.

Lemma Zdigits2_gt (z k : Z) : 0 <= k -> 2 ^ k <= z -> k < Zdigits2 z.
Proof.
  intros Hk Hle. assert (0 < 2 ^ k) by (apply Z.pow_pos_nonneg; lia).
  destruct z as [|p|p]; simpl; try lia.
  destruct (digits2_pos_bounds p) as [_ Hhi].
  destruct (Z_lt_le_dec k (Zpos (digits2_pos p))) as [|Hge]; [assumption|exfalso].
  assert (2 ^ Zpos (digits2_pos p) <= 2 ^ k) by (apply Z.pow_le_mono_r; lia).
  lia.
Qed.

Lemma Zdigits2_bound (z : Z) : 0 <= z -> z < 2 ^ Zdigits2 z.
Proof.
  destruct z as [|p|p]; simpl; try lia. intros _. apply digits2_pos_bounds.
Qed.

Lemma bounded_mantissa (m : positive) (e : Z) :
  bounded prec emax m e = true -> Zpos m < 2 ^ 53 /\ -1074 <= e.
Proof.
  unfold bounded, canonical_mantissa, fexp, SpecFloat.emin, prec, emax.
  intros [Hc _]%andb_prop. apply Z.eqb_eq in Hc.
  destruct (digits2_pos_bounds m) as [_ Hhi].
  assert (Zpos (digits2_pos m) <= 53) by lia.
  assert (2 ^ Zpos (digits2_pos m) <= 2 ^ 53) by (apply Z.pow_le_mono_r; lia).
  split; lia.
Qed.

Lemma mul_hundred_bounds (m : positive) (e : Z) :
  bounded prec emax m e = true ->
  e <= -53 ->
  let r := binary_round_aux prec emax false (Zpos (m * hundred_m)) (e + -46) loc_Exact in
  SFleb (S754_zero false) r = true /\
  SFleb r (S754_finite false hundred_m (-46)) = true.
Proof.
  intros Hb He. destruct (bounded_mantissa m e Hb) as [Hm Hemin].
  cbv zeta. unfold binary_round_aux.
  set (P := Zpos (m * hundred_m)). set (E := e + -46).
  assert (HP : P = Zpos m * 7036874417766400) by reflexivity.
  assert (H53 : 2 ^ 53 = 9007199254740992) by reflexivity.
  assert (H52 : 2 ^ 52 = 4503599627370496) by reflexivity.
  assert (HPpos : 0 <= P) by lia.
  (* the digits of the product *)
  assert (HD1 : 52 < Zdigits2 P) by (apply Zdigits2_gt; lia).
  assert (HD2 : Zdigits2 P <= 106).
  { apply Zdigits2_le; lia. }
  (* the first shift *)
  destruct (shr_fexp_m P E loc_Exact HPpos) as [Hm1 He1].
  destruct (shr_fexp prec emax P E loc_Exact) as [mrs1 e1]. cbn [fst snd] in Hm1, He1.
  unfold fexp, SpecFloat.emin, prec, emax in Hm1, He1.
  set (k1 := Z.max (Z.max (Zdigits2 P + E - 53) (3 - 1024 - 53) - E) 0) in *.
  assert (Hk1 : 0 <= k1) by lia.
  assert (Hk1D : Zdigits2 P <= k1 + 53) by lia.
  assert (H2k1 : 0 < 2 ^ k1) by (apply Z.pow_pos_nonneg; lia).
  assert (Hm1hi : shr_m mrs1 < 2 ^ 53).
  { rewrite Hm1. apply Z.div_lt_upper_bound; [exact H2k1|].
    rewrite <- Z.pow_add_r by lia.
    apply Z.lt_le_trans with (2 ^ Zdigits2 P); [now apply Zdigits2_bound|].
    apply Z.pow_le_mono_r; lia. }
  assert (Hm1lo : 0 <= shr_m mrs1) by (rewrite Hm1; apply Z.div_pos; lia).
  (* rounding *)
  pose proof (round_nearest_even_bounds (shr_m mrs1) (loc_of_shr_record mrs1)) as Hr.
  set (m2 := round_nearest_even (shr_m mrs1) (loc_of_shr_record mrs1)) in *.
  assert (Hm2 : 0 <= m2) by lia.
  (* the second shift *)
  destruct (shr_fexp_m m2 e1 loc_Exact Hm2) as [Hm3 He3].
  destruct (shr_fexp prec emax m2 e1 loc_Exact) as [mrs3 e3]. cbn [fst snd] in Hm3, He3.
  unfold fexp, SpecFloat.emin, prec, emax in Hm3, He3.
  set (k2 := Z.max (Z.max (Zdigits2 m2 + e1 - 53) (3 - 1024 - 53) - e1) 0) in *.
  assert (Hd2 : Zdigits2 m2 <= 54).
  { apply Zdigits2_le; lia. }
  assert (Hk2 : k2 = 0 \/ (k2 = 1 /\ m2 = 2 ^ 53)).
  { destruct (Z_lt_le_dec m2 (2 ^ 53)) as [Hlt|Hge].
    - left. assert (Zdigits2 m2 <= 53) by (apply Zdigits2_le; lia). lia.
    - right. assert (53 < Zdigits2 m2) by (apply Zdigits2_gt; lia). split; lia. }
  assert (Hm3' : shr_m mrs3 = m2 /\ k2 = 0 \/ shr_m mrs3 = 2 ^ 52 /\ k2 = 1).
  { destruct Hk2 as [Hk|[Hk Heq]]; rewrite Hk in Hm3.
    - left. simpl in Hm3. rewrite Z.div_1_r in Hm3. split; assumption.
    - right. rewrite Heq in Hm3. split; [exact Hm3 | exact Hk]. }
  (* the winner's exponent, and its mantissa when the exponent is that of 100 *)
  assert (Hfinal : 0 <= shr_m mrs3 /\
                   (e3 < -46 \/ e3 = -46 /\ shr_m mrs3 <= 7036874417766400)).
  { destruct (Z_lt_le_dec e1 (-46)) as [Hlt|Hge].
    - destruct Hm3' as [[-> Hk]|[-> Hk]]; split; try lia.
    - (* no room left: the product has 106 digits and e = -53 *)
      assert (Hk1' : k1 = 53) by lia.
      assert (Hm1' : shr_m mrs1 < 7036874417766400).
      { rewrite Hm1, Hk1', H53. apply Z.div_lt_upper_bound; lia. }
      assert (Hlt53 : m2 < 2 ^ 53) by lia.
      destruct Hm3' as [[-> Hk]|[_ Hk]]; [split; lia|].
      destruct Hk2 as [Hk'|[_ Heq]]; lia. }
  destruct Hfinal as [Hlo Hhi].
  destruct (shr_m mrs3) as [|q|q]; [split; reflexivity| |lia].
  assert (Hle : (e3 <=? 1024 - 53) = true) by (apply Z.leb_le; lia).
  unfold emax, prec. rewrite Hle. split; [reflexivity|].
  unfold SFleb, SFcompare, hundred_m.
  destruct Hhi as [Hlt|[-> Hq]].
  - apply Z.compare_lt_iff in Hlt. now rewrite Hlt.
  - rewrite Z.compare_refl. apply compare_cont_le. exact Hq.
Qed.

Lemma binary_round_aux_number (s : bool) (m e : Z) (l : location) :
  0 <= m -> binary_round_aux prec emax s m e l <> S754_nan.
Proof.
  intros Hm. unfold binary_round_aux.
  destruct (shr_fexp_m m e l Hm) as [Hm1 _].
  destruct (shr_fexp prec emax m e l) as [mrs1 e1]. cbn [fst] in Hm1.
  pose proof (round_nearest_even_bounds (shr_m mrs1) (loc_of_shr_record mrs1)) as Hr.
  assert (Hm2 : 0 <= round_nearest_even (shr_m mrs1) (loc_of_shr_record mrs1)).
  { assert (0 <= shr_m mrs1) by (rewrite Hm1; apply Z.div_pos; [lia | apply Z.pow_pos_nonneg; lia]).
    lia. }
  destruct (shr_fexp_m _ e1 loc_Exact Hm2) as [Hm3 _].
  destruct (shr_fexp prec emax _ e1 loc_Exact) as [mrs3 e3]. cbn [fst] in Hm3.
  assert (0 <= shr_m mrs3) by (rewrite Hm3; apply Z.div_pos; [lia | apply Z.pow_pos_nonneg; lia]).
  destruct (shr_m mrs3) as [|q|q]; [discriminate| |lia].
  destruct (e3 <=? emax - prec); discriminate.
Qed.

Lemma binary_normalize_number (m e : Z) (s : bool) :
  binary_normalize prec emax m e s <> S754_nan.
Proof.
  unfold binary_normalize, binary_round.
  destruct m as [|p|p]; [discriminate| |];
    destruct (shl_align _ _ _) as [mz ez]; apply binary_round_aux_number; lia.
Qed.

Lemma SF64add_number (x y : spec_float) :
  SFfinite x -> y <> S754_nan -> SF64add x y <> S754_nan.
Proof.
  unfold SF64add, SFadd.
  destruct x as [sx|sx| |sx mx ex]; simpl; try tauto; intros _ Hy;
    destruct y as [sy|sy| |sy my ey]; try congruence; try discriminate.
  - destruct sx, sy; discriminate.
  - apply binary_normalize_number.
Qed.

Lemma SF64sub_number (x y : spec_float) :
  SFfinite x -> y <> S754_nan -> SF64sub x y <> S754_nan.
Proof.
  unfold SF64sub, SFsub.
  destruct x as [sx|sx| |sx mx ex]; simpl; try tauto; intros _ Hy;
    destruct y as [sy|sy| |sy my ey]; try congruence; try discriminate.
  - destruct sx, sy; discriminate.
  - apply binary_normalize_number.
Qed.

Lemma SF64div_number (x : spec_float) (s : bool) (m : positive) (e : Z) :
  x <> S754_nan -> SF64div x (S754_finite s m e) <> S754_nan.
Proof.
  unfold SF64div, SFdiv.
  destruct x as [sx|sx| |sx mx ex]; try congruence; try discriminate. intros _.
  unfold SFdiv_core_binary.
  set (m' := match _ with Z0 => Zpos mx | Zpos _ => Z.shiftl (Zpos mx) _ | Zneg _ => 0 end).
  assert (Hm' : 0 <= m').
  { unfold m'. destruct (_ - _ - _) as [|p|p]; try lia. apply Z.shiftl_nonneg. lia. }
  pose proof (Z_div_mod m' (Zpos m) eq_refl) as Hdiv.
  destruct (Z.div_eucl m' (Zpos m)) as [q r].
  apply binary_round_aux_number. nia.
Qed.

Lemma SFmag_le (k k' : Z) (x : spec_float) : k <= k' -> SFmag k x -> SFmag k' x.
Proof. destruct x; simpl; try tauto. lia. Qed.

Lemma div_pow2_lt (m d j : Z) :
  0 <= m -> 0 <= d -> 0 <= j -> m < 2 ^ d -> m / 2 ^ j < 2 ^ Z.max (d - j) 0.
Proof.
  intros Hm Hd Hj Hlt.
  assert (H2j : 0 < 2 ^ j) by (apply Z.pow_pos_nonneg; lia).
  apply Z.div_lt_upper_bound; [exact H2j|].
  rewrite <- Z.pow_add_r by lia.
  apply Z.lt_le_trans with (2 ^ d); [exact Hlt|].
  apply Z.pow_le_mono_r; lia.
Qed.

(** Rounding keeps the magnitude, up to one binade, and does not overflow
    below [2^1023]. *)
Lemma binary_round_aux_mag (s : bool) (m e : Z) (l : location) (k : Z) :
  0 <= m -> Zdigits2 m + e <= k -> e <= 971 -> -1074 <= k <= 1023 ->
  SFmag (k + 1) (binary_round_aux prec emax s m e l).
Proof.
  intros Hm Hk He Hrange. unfold binary_round_aux.
  assert (Hd0 : 0 <= Zdigits2 m) by (destruct m; simpl; lia).
  pose proof (Zdigits2_bound m Hm) as Hmd.
  (* the first shift *)
  destruct (shr_fexp_m m e l Hm) as [Hm1 He1].
  destruct (shr_fexp prec emax m e l) as [mrs1 e1]. cbn [fst snd] in Hm1, He1.
  unfold fexp, SpecFloat.emin, prec, emax in Hm1, He1.
  set (k1 := Z.max (Z.max (Zdigits2 m + e - 53) (3 - 1024 - 53) - e) 0) in *.
  set (d1 := Z.max (Zdigits2 m - k1) 0).
  assert (Hm1hi : shr_m mrs1 < 2 ^ d1) by (rewrite Hm1; apply div_pow2_lt; lia).
  assert (Hm1lo : 0 <= shr_m mrs1)
    by (rewrite Hm1; apply Z.div_pos; [lia | apply Z.pow_pos_nonneg; lia]).
  assert (Hd1 : 0 <= d1 <= 53) by lia.
  assert (Hd1e : d1 + e1 <= k) by lia.
  (* rounding *)
  pose proof (round_nearest_even_bounds (shr_m mrs1) (loc_of_shr_record mrs1)) as Hr.
  set (m2 := round_nearest_even (shr_m mrs1) (loc_of_shr_record mrs1)) in *.
  assert (Hm2 : 0 <= m2) by lia.
  assert (Hm2hi : m2 < 2 ^ (d1 + 1)).
  { rewrite Z.pow_add_r by lia. assert (0 < 2 ^ d1) by (apply Z.pow_pos_nonneg; lia). lia. }
  assert (Hd2 : Zdigits2 m2 <= d1 + 1) by (apply Zdigits2_le; lia).
  assert (Hd20 : 0 <= Zdigits2 m2) by (destruct m2; simpl; lia).
  (* the second shift *)
  destruct (shr_fexp_m m2 e1 loc_Exact Hm2) as [Hm3 He3].
  destruct (shr_fexp prec emax m2 e1 loc_Exact) as [mrs3 e3]. cbn [fst snd] in Hm3, He3.
  unfold fexp, SpecFloat.emin, prec, emax in Hm3, He3.
  set (k2 := Z.max (Z.max (Zdigits2 m2 + e1 - 53) (3 - 1024 - 53) - e1) 0) in *.
  assert (Hk2 : 0 <= k2 <= 1) by lia.
  assert (Hm3hi : shr_m mrs3 < 2 ^ Z.max (Zdigits2 m2 - k2) 0).
  { rewrite Hm3. apply div_pow2_lt; try lia. now apply Zdigits2_bound. }
  assert (Hm3lo : 0 <= shr_m mrs3)
    by (rewrite Hm3; apply Z.div_pos; [lia | apply Z.pow_pos_nonneg; lia]).
  assert (Hd3 : Zdigits2 (shr_m mrs3) <= Z.max (Zdigits2 m2 - k2) 0)
    by (apply Zdigits2_le; lia).
  destruct (shr_m mrs3) as [|q|q] eqn:Hq; [exact I| |lia].
  assert (He1hi : e1 <= 971) by lia.
  assert (Hcarry : k2 = 1 -> e1 <= 970) by lia.
  assert (Hle : (e3 <=? emax - prec) = true) by (apply Z.leb_le; unfold emax, prec; lia).
  rewrite Hle. cbn [SFmag Zdigits2] in Hd3 |- *. lia.
Qed.

Lemma iter_xO (m d : positive) : Zpos (Pos.iter xO m d) = Zpos m * 2 ^ Zpos d.
Proof.
  induction d as [|d IH] using Pos.peano_ind.
  - simpl. lia.
  - rewrite Pos.iter_succ, Pos2Z.inj_xO, IH, Pos2Z.inj_succ, Z.pow_succ_r by lia. lia.
Qed.

Lemma shl_align_spec (mx : positive) (ex ex' : Z) :
  snd (shl_align mx ex ex') = Z.min ex ex' /\
  Zpos (fst (shl_align mx ex ex')) = Zpos mx * 2 ^ (ex - Z.min ex ex').
Proof.
  unfold shl_align. destruct (ex' - ex) as [|d|d] eqn:Hd; cbn [fst snd].
  - replace (Z.min ex ex') with ex by lia. rewrite Z.sub_diag. simpl. split; lia.
  - replace (Z.min ex ex') with ex by lia. rewrite Z.sub_diag. simpl. split; lia.
  - replace (Z.min ex ex') with ex' by lia. rewrite iter_xO.
    replace (ex - ex') with (Zpos d) by lia. split; reflexivity.
Qed.

Lemma Zdigits2_opp (p : positive) : Zdigits2 (Zneg p) = Zdigits2 (Zpos p).
Proof. reflexivity. Qed.

Lemma mul_pow2_lt (m d j : Z) :
  0 <= d -> 0 <= j -> m < 2 ^ d -> m * 2 ^ j < 2 ^ (d + j).
Proof.
  intros Hd Hj Hm. rewrite Z.pow_add_r by lia.
  apply Z.mul_lt_mono_pos_r; [apply Z.pow_pos_nonneg; lia | exact Hm].
Qed.

Lemma binary_round_mag (s : bool) (m : positive) (e k : Z) :
  Zdigits2 (Zpos m) + e <= k -> e <= 971 -> -1074 <= k <= 1023 ->
  SFmag (k + 1) (binary_round prec emax s m e).
Proof.
  intros Hk He Hrange. unfold binary_round.
  destruct (shl_align_spec m e (fexp prec emax (Zpos (digits2_pos m) + e))) as [He' Hm'].
  destruct (shl_align m e _) as [mz ez]. cbn [fst snd] in He', Hm'.
  apply binary_round_aux_mag; try lia.
  assert (Hlt : Zpos mz < 2 ^ (Zdigits2 (Zpos m) + (e - ez))).
  { rewrite Hm', He'. apply mul_pow2_lt; try lia.
    - cbn [Zdigits2]. lia.
    - apply Zdigits2_bound. lia. }
  assert (Zdigits2 (Zpos mz) <= Zdigits2 (Zpos m) + (e - ez)).
  { apply Zdigits2_le; try lia. cbn [Zdigits2]. lia. }
  lia.
Qed.

Lemma binary_normalize_mag (z e k : Z) (s : bool) :
  Zdigits2 z + e <= k -> e <= 971 -> -1074 <= k <= 1023 ->
  SFmag (k + 1) (binary_normalize prec emax z e s).
Proof.
  intros Hk He Hrange. unfold binary_normalize.
  destruct z as [|p|p]; [exact I| |]; now apply binary_round_mag.
Qed.

Lemma Zdigits2_abs_le (z j : Z) : 0 <= j -> Z.abs z < 2 ^ j -> Zdigits2 z <= j.
Proof.
  intros Hj Hz. destruct z as [|p|p].
  - simpl. lia.
  - apply Zdigits2_le; lia.
  - rewrite Zdigits2_opp. apply Zdigits2_le; lia.
Qed.

(** The aligned mantissa of a number of magnitude below [2^k]. *)
Lemma aligned_mantissa_lt (m : positive) (e ez k : Z) :
  Zdigits2 (Zpos m) + e <= k -> ez <= e ->
  Zpos (fst (shl_align m e ez)) < 2 ^ (k - ez).
Proof.
  intros Hk Hez. destruct (shl_align_spec m e ez) as [_ ->].
  replace (Z.min e ez) with ez by lia.
  apply Z.lt_le_trans with (2 ^ (Zdigits2 (Zpos m) + (e - ez))).
  - apply mul_pow2_lt; try lia; [cbn [Zdigits2]; lia | apply Zdigits2_bound; lia].
  - apply Z.pow_le_mono_r; lia.
Qed.

Lemma sum_mag (sx sy : bool) (mx my : positive) (ex ey k : Z) (minus : bool) :
  Zdigits2 (Zpos mx) + ex <= k -> Zdigits2 (Zpos my) + ey <= k ->
  let ez := Z.min ex ey in
  let ax := cond_Zopp sx (Zpos (fst (shl_align mx ex ez))) in
  let ay := cond_Zopp sy (Zpos (fst (shl_align my ey ez))) in
  Zdigits2 (if minus then ax - ay else ax + ay) + ez <= k + 1.
Proof.
  intros Hx Hy ez ax ay.
  assert (Hax : Zpos (fst (shl_align mx ex ez)) < 2 ^ (k - ez))
    by (apply aligned_mantissa_lt; unfold ez; lia).
  assert (Hay : Zpos (fst (shl_align my ey ez)) < 2 ^ (k - ez))
    by (apply aligned_mantissa_lt; unfold ez; lia).
  assert (Hkz : 0 <= k - ez) by (unfold ez; cbn [Zdigits2] in Hx; lia).
  assert (Hz : Zdigits2 (if minus then ax - ay else ax + ay) <= k - ez + 1).
  { apply Zdigits2_abs_le; [lia|]. rewrite Z.pow_add_r by lia.
    unfold ax, ay, cond_Zopp. destruct minus, sx, sy; lia. }
  lia.
Qed.

Lemma SF64add_mag (x y : spec_float) (k : Z) :
  valid_binary x = true -> SFmag k x -> SFmag k y -> -1074 <= k <= 1022 ->
  SFmag (k + 2) (SF64add x y).
Proof.
  intros Hv Hx Hy Hrange. unfold SF64add, SFadd.
  destruct x as [sx|sx| |sx mx ex]; try contradiction;
    destruct y as [sy|sy| |sy my ey]; try contradiction.
  - destruct sx, sy; exact I.
  - apply SFmag_le with k; [lia | exact Hy].
  - apply SFmag_le with k; [lia | exact Hx].
  - cbn [SFmag valid_binary] in Hx, Hy, Hv. cbv zeta.
    replace (k + 2) with (k + 1 + 1) by lia.
    apply binary_normalize_mag; try lia.
    + exact (sum_mag sx sy mx my ex ey k false Hx Hy).
    + unfold bounded in Hv. apply andb_prop in Hv. destruct Hv as [_ Hle].
      apply Z.leb_le in Hle. unfold emax, prec in Hle. lia.
Qed.

Lemma SF64sub_mag (x y : spec_float) (k : Z) :
  valid_binary x = true -> SFmag k x -> SFmag k y -> -1074 <= k <= 1022 ->
  SFmag (k + 2) (SF64sub x y).
Proof.
  intros Hv Hx Hy Hrange. unfold SF64sub, SFsub.
  destruct x as [sx|sx| |sx mx ex]; try contradiction;
    destruct y as [sy|sy| |sy my ey]; try contradiction.
  - destruct sx, sy; exact I.
  - cbn [SFmag SFopp] in Hy |- *. lia.
  - apply SFmag_le with k; [lia | exact Hx].
  - cbn [SFmag valid_binary] in Hx, Hy, Hv. cbv zeta.
    replace (k + 2) with (k + 1 + 1) by lia.
    apply binary_normalize_mag; try lia.
    + exact (sum_mag sx sy mx my ex ey k true Hx Hy).
    + unfold bounded in Hv. apply andb_prop in Hv. destruct Hv as [_ Hle].
      apply Z.leb_le in Hle. unfold emax, prec in Hle. lia.
Qed.

(** Dividing by a normal number that is at least one keeps the magnitude. *)
Lemma SF64div_mag (x : spec_float) (s : bool) (m : positive) (e k : Z) :
  SFmag k x -> Zdigits2 (Zpos m) = 53 -> -52 <= e -> -1074 <= k <= 1023 ->
  SFmag (k + 1) (SF64div x (S754_finite s m e)).
Proof.
  intros Hx Hm He Hrange. unfold SF64div, SFdiv.
  destruct x as [sx|sx| |sx mx ex]; try contradiction; [exact I|].
  cbn [SFmag] in Hx. unfold SFdiv_core_binary. rewrite Hm.
  set (e' := Z.min _ (ex - e)).
  assert (He' : e' <= ex - e /\ e' <= Z.max (Zdigits2 (Zpos mx) + ex - (53 + e) - 53) (-1074)).
  { unfold e', fexp, SpecFloat.emin, prec, emax. lia. }
  set (m' := match _ with Z0 => Zpos mx | Zpos _ => Z.shiftl (Zpos mx) _ | Zneg _ => 0 end).
  assert (Hm' : m' = Zpos mx * 2 ^ (ex - e - e')).
  { unfold m'. destruct (ex - e - e') as [|p|p] eqn:Hs; [simpl; lia| |lia].
    apply Z.shiftl_mul_pow2. lia. }
  assert (H52 : 2 ^ 52 <= Zpos m).
  { destruct (digits2_pos_bounds m) as [Hlo _]. cbn [Zdigits2] in Hm.
    rewrite Hm in Hlo. exact Hlo. }
  assert (Hd1 : 0 < Zdigits2 (Zpos mx)) by (cbn [Zdigits2]; lia).
  assert (Hlt : m' < 2 ^ (Zdigits2 (Zpos mx) + (ex - e - e'))).
  { rewrite Hm'. apply mul_pow2_lt; try lia. apply Zdigits2_bound. lia. }
  assert (H0 : 0 < 2 ^ 52) by (apply Z.pow_pos_nonneg; lia).
  pose proof (Z_div_mod m' (Zpos m) eq_refl) as Hdiv.
  destruct (Z.div_eucl m' (Zpos m)) as [q r].
  assert (Hq : 0 <= q) by nia.
  assert (Hq' : q <= m' / 2 ^ 52) by (apply Z.div_le_lower_bound; nia).
  assert (Hm0 : 0 <= m') by nia.
  assert (Hq'' : m' / 2 ^ 52 < 2 ^ Z.max (Zdigits2 (Zpos mx) + (ex - e - e') - 52) 0)
    by (apply div_pow2_lt; lia).
  assert (Hdq : Zdigits2 q <= Z.max (Zdigits2 (Zpos mx) + (ex - e - e') - 52) 0).
  { apply Zdigits2_le; lia. }
  apply binary_round_aux_mag; lia.
Qed.

(** A number between zero and a positive bound has the bound's magnitude. *)
Lemma SFmag_between (x : spec_float) (mc : positive) (ec : Z) :
  valid_binary x = true ->
  SFleb (S754_zero false) x = true -> SFleb x (S754_finite false mc ec) = true ->
  SFmag (53 + ec) x.
Proof.
  intros Hv Hlo Hhi. unfold SFleb in Hlo, Hhi.
  destruct x as [sx|[|]| |[|] mx ex]; try discriminate; [exact I|].
  cbn [SFmag]. cbn [valid_binary] in Hv.
  unfold bounded in Hv. apply andb_prop in Hv. destruct Hv as [Hc _].
  unfold canonical_mantissa in Hc. apply Z.eqb_eq in Hc.
  unfold fexp, SpecFloat.emin, prec, emax in Hc.
  change (Zdigits2 (Zpos mx)) with (Zpos (digits2_pos mx)).
  cbn [SFcompare] in Hhi.
  destruct (Z.compare ex ec) eqn:Hcmp; try discriminate.
  - apply Z.compare_eq in Hcmp. lia.
  - rewrite Z.compare_lt_iff in Hcmp. lia.
Qed.

Lemma SFmag_finite (k : Z) (x : spec_float) : SFmag k x -> SFfinite x.
Proof. destruct x; simpl; tauto. Qed.

(** Rounding a mantissa that stays below the largest one of its binade does
    not reach the next binade. *)
Lemma binary_round_aux_room (s : bool) (m e : Z) (l : location) (k : Z) :
  0 <= m -> e + 53 <= k -> m < (2 ^ 53 - 1) * 2 ^ (k - 53 - e) -> -1021 <= k <= 1024 ->
  SFmag k (binary_round_aux prec emax s m e l).
Proof.
  intros Hm He Hlt Hrange.
  assert (Hp : 0 < 2 ^ (k - 53 - e)) by (apply Z.pow_pos_nonneg; lia).
  assert (Hmk : m < 2 ^ (k - e)).
  { replace (k - e) with (53 + (k - 53 - e)) by lia. rewrite Z.pow_add_r by lia. nia. }
  assert (Hd : Zdigits2 m <= k - e) by (apply Zdigits2_le; lia).
  assert (Hd0 : 0 <= Zdigits2 m) by (destruct m; cbn [Zdigits2]; lia).
  assert (Hcase : Zdigits2 m + e <= k - 1 \/ Zdigits2 m = k - e) by lia.
  destruct Hcase as [Hlow|Hfull].
  { replace k with (k - 1 + 1) by lia. apply binary_round_aux_mag; lia. }
  unfold binary_round_aux.
  destruct (shr_fexp_m m e l Hm) as [Hm1 He1].
  destruct (shr_fexp prec emax m e l) as [mrs1 e1]. cbn [fst snd] in Hm1, He1.
  unfold fexp, SpecFloat.emin, prec, emax in Hm1, He1.
  replace (Z.max (Z.max (Zdigits2 m + e - 53) (3 - 1024 - 53) - e) 0)
    with (k - 53 - e) in Hm1, He1 by lia.
  assert (Hm1hi : shr_m mrs1 < 2 ^ 53 - 1).
  { rewrite Hm1. apply Z.div_lt_upper_bound; [exact Hp | lia]. }
  assert (Hm1lo : 0 <= shr_m mrs1) by (rewrite Hm1; apply Z.div_pos; lia).
  pose proof (round_nearest_even_bounds (shr_m mrs1) (loc_of_shr_record mrs1)) as Hr.
  set (m2 := round_nearest_even (shr_m mrs1) (loc_of_shr_record mrs1)) in *.
  assert (Hm2 : 0 <= m2) by lia.
  assert (Hd2 : Zdigits2 m2 <= 53) by (apply Zdigits2_le; lia).
  assert (Hd20 : 0 <= Zdigits2 m2) by (destruct m2; cbn [Zdigits2]; lia).
  destruct (shr_fexp_m m2 e1 loc_Exact Hm2) as [Hm3 He3].
  destruct (shr_fexp prec emax m2 e1 loc_Exact) as [mrs3 e3]. cbn [fst snd] in Hm3, He3.
  unfold fexp, SpecFloat.emin, prec, emax in Hm3, He3.
  replace (Z.max (Z.max (Zdigits2 m2 + e1 - 53) (3 - 1024 - 53) - e1) 0)
    with 0 in Hm3, He3 by lia.
  rewrite Z.pow_0_r, Z.div_1_r in Hm3. rewrite Hm3.
  destruct m2 as [|q|q]; [exact I| |lia].
  assert (Hle : (e3 <=? emax - prec) = true) by (apply Z.leb_le; unfold emax, prec; lia).
  rewrite Hle. cbn [SFmag]. lia.
Qed.

Lemma shr_1_r (mrs : shr_record) :
  0 <= shr_m mrs -> shr_r (shr_1 mrs) = Z.odd (shr_m mrs).
Proof.
  destruct mrs as [m r s]. cbn [shr_m]. intros Hm.
  destruct m as [|[p|p|]|p]; try reflexivity; lia.
Qed.

(** After [p] shifts the round bit is the bit [p - 1] of the mantissa. *)
Lemma iter_shr_r (p : positive) (mrs : shr_record) :
  0 <= shr_m mrs ->
  shr_r (SpecFloat.iter_pos shr_1 p mrs) = Z.testbit (shr_m mrs) (Zpos p - 1).
Proof.
  revert mrs. induction p as [p IH|p IH|]; intros mrs Hm; cbn [SpecFloat.iter_pos].
  - assert (H1 : 0 <= shr_m (shr_1 mrs)) by (rewrite shr_1_m by trivial; apply Z.div_pos; lia).
    assert (H2 : 0 <= shr_m (SpecFloat.iter_pos shr_1 p (shr_1 mrs)))
      by (rewrite iter_shr_m by trivial; apply Z.div_pos; lia).
    rewrite IH, iter_shr_m, shr_1_m by trivial.
    change 2 with (2 ^ 1) at 1. rewrite !Z.div_pow2_bits by lia. f_equal. lia.
  - assert (H2 : 0 <= shr_m (SpecFloat.iter_pos shr_1 p mrs))
      by (rewrite iter_shr_m by trivial; apply Z.div_pos; lia).
    rewrite IH, iter_shr_m by trivial.
    rewrite Z.div_pow2_bits by lia. f_equal. lia.
  - rewrite shr_1_r by trivial. symmetry. apply Z.bit0_odd.
Qed.

Lemma round_nearest_even_down (mrs : shr_record) :
  shr_r mrs = false -> round_nearest_even (shr_m mrs) (loc_of_shr_record mrs) = shr_m mrs.
Proof. destruct mrs as [m r []]; cbn [shr_r]; intros ->; reflexivity. Qed.

(** A mantissa [a * 2^n + b] whose low part [b] is below half a unit of the
    rounded result is rounded to [a]. *)
Lemma binary_round_aux_absorb (s : bool) (a : positive) (n b e : Z) :
  Zdigits2 (Zpos a) = 53 -> 0 < n -> 0 <= b < 2 ^ (n - 1) -> -1074 <= e + n <= 971 ->
  binary_round_aux prec emax s (Zpos a * 2 ^ n + b) e loc_Exact = S754_finite s a (e + n).
Proof.
  intros Ha Hn Hb He.
  assert (Hpn : 2 ^ n = 2 * 2 ^ (n - 1)).
  { rewrite <- Z.pow_succ_r by lia. f_equal. lia. }
  assert (Hp1 : 0 < 2 ^ (n - 1)) by (apply Z.pow_pos_nonneg; lia).
  destruct (digits2_pos_bounds a) as [Halo Hahi]. cbn [Zdigits2] in Ha.
  rewrite Ha in Halo, Hahi. change (53 - 1) with 52 in Halo.
  set (m := Zpos a * 2 ^ n + b).
  assert (Hm : 0 <= m) by (unfold m; nia).
  assert (Hdm : Zdigits2 m = 53 + n).
  { apply Z.le_antisymm.
    - apply Zdigits2_le; try lia. rewrite Z.pow_add_r by lia. unfold m. nia.
    - assert (52 + n < Zdigits2 m); [|lia].
      apply Zdigits2_gt; [lia|]. rewrite Z.pow_add_r by lia. unfold m. nia. }
  assert (Hdiv : m / 2 ^ n = Zpos a).
  { symmetry. apply (Z.div_unique m (2 ^ n) (Zpos a) b); [left; lia | unfold m; lia]. }
  assert (Hbit : Z.testbit m (n - 1) = false).
  { apply Z.testbit_false; [lia|].
    replace (m / 2 ^ (n - 1)) with (Zpos a * 2).
    - apply Z.mod_mul. lia.
    - apply (Z.div_unique m (2 ^ (n - 1)) (Zpos a * 2) b); [left; lia | unfold m; lia]. }
  unfold binary_round_aux, shr_fexp. rewrite Hdm.
  replace (fexp prec emax (53 + n + e) - e) with n
    by (unfold fexp, SpecFloat.emin, prec, emax; lia).
  destruct n as [|p|p]; try lia. cbn [shr shr_record_of_loc].
  set (mrs := SpecFloat.iter_pos shr_1 p {| shr_m := m; shr_r := false; shr_s := false |}).
  assert (Hmrs : shr_m mrs = Zpos a) by (unfold mrs; rewrite iter_shr_m; [exact Hdiv | exact Hm]).
  assert (Hr : shr_r mrs = false) by (unfold mrs; rewrite iter_shr_r; [exact Hbit | exact Hm]).
  rewrite round_nearest_even_down, Hmrs by exact Hr.
  cbn [Zdigits2]. rewrite Ha.
  replace (fexp prec emax (53 + (e + Zpos p)) - (e + Zpos p)) with 0
    by (unfold fexp, SpecFloat.emin, prec, emax; lia).
  cbn [shr shr_m].
  assert (Hle : (e + Zpos p <=? emax - prec) = true)
    by (apply Z.leb_le; unfold emax, prec; lia).
  rewrite Hle. reflexivity.
Qed.

Lemma binary_round_aligned (s : bool) (m : positive) (e : Z) :
  e <= fexp prec emax (Zpos (digits2_pos m) + e) ->
  binary_round prec emax s m e = binary_round_aux prec emax s (Zpos m) e loc_Exact.
Proof.
  intros He. unfold binary_round, shl_align.
  destruct (fexp prec emax (Zpos (digits2_pos m) + e) - e) as [|p|p] eqn:Hd;
    try reflexivity; lia.
Qed.

(** Adding a number below [2^10] to a positive number above [2^1000] does not
    overflow: the small number is absorbed or rounds within the binade. *)
Lemma SF64add_large (mx : positive) (ex : Z) (y : spec_float) :
  bounded prec emax mx ex = true -> 1000 < Zdigits2 (Zpos mx) + ex -> SFmag 10 y ->
  SFmag 1024 (SF64add (S754_finite false mx ex) y).
Proof.
  intros Hb Hbig Hy.
  assert (Hbd : Zdigits2 (Zpos mx) = 53 /\ ex <= 971).
  { unfold bounded, canonical_mantissa, fexp, SpecFloat.emin, prec, emax in Hb.
    apply andb_prop in Hb. destruct Hb as [Hc Hle].
    apply Z.eqb_eq in Hc. apply Z.leb_le in Hle. cbn [Zdigits2] in Hbig |- *. lia. }
  destruct Hbd as [Hdx Hex]. rewrite Hdx in Hbig.
  destruct (digits2_pos_bounds mx) as [Hxlo Hxhi].
  pose proof Hdx as Hdx'. cbn [Zdigits2] in Hdx'. rewrite Hdx' in Hxlo, Hxhi.
  change (53 - 1) with 52 in Hxlo.
  unfold SF64add, SFadd.
  destruct y as [sy|sy| |sy my ey]; try contradiction.
  - cbn [SFmag]. lia.
  - cbn [SFmag] in Hy. cbv zeta.
    assert (Hdy : 0 < Zdigits2 (Zpos my)) by (cbn [Zdigits2]; lia).
    pose proof (Zdigits2_bound (Zpos my) ltac:(lia)) as Hyhi.
    replace (Z.min ex ey) with ey by lia.
    destruct (shl_align_spec mx ex ey) as [_ Hax].
    destruct (shl_align_spec my ey ey) as [_ Hay].
    replace (Z.min ex ey) with ey in Hax by lia.
    replace (Z.min ey ey) with ey in Hay by lia.
    rewrite Z.sub_diag, Z.pow_0_r, Z.mul_1_r in Hay.
    cbn [cond_Zopp]. rewrite Hax, Hay. clear Hax Hay.
    set (n := ex - ey).
    assert (Hn : 939 <= n) by (unfold n; lia).
    assert (Hp : 0 < 2 ^ (n - 1)) by (apply Z.pow_pos_nonneg; lia).
    assert (Hpn : 2 ^ n = 2 * 2 ^ (n - 1)).
    { rewrite <- Z.pow_succ_r by lia. f_equal. lia. }
    assert (Hmy : Zpos my < 2 ^ (n - 1)).
    { apply Z.lt_le_trans with (2 ^ Zdigits2 (Zpos my)); [exact Hyhi|].
      apply Z.pow_le_mono_r; unfold n; lia. }
    set (z := Zpos mx * 2 ^ n + cond_Zopp sy (Zpos my)).
    assert (Hzlo : 2 ^ (51 + n) <= z).
    { replace (51 + n) with (52 + (n - 1)) by lia. rewrite Z.pow_add_r by lia.
      unfold z. destruct sy; cbn [cond_Zopp]; nia. }
    assert (Hz0 : 0 < z).
    { assert (0 < 2 ^ (51 + n)) by (apply Z.pow_pos_nonneg; lia). lia. }
    assert (Hdz : 51 + n < Zdigits2 z) by (apply Zdigits2_gt; lia).
    unfold binary_normalize. destruct z as [|pz|pz] eqn:Hz; try lia.
    rewrite binary_round_aligned
      by (cbn [Zdigits2] in Hdz; unfold fexp, SpecFloat.emin, prec, emax, n in *; lia).
    rewrite <- Hz. unfold z. destruct sy; cbn [cond_Zopp].
    + apply SFmag_le with (53 + ex); [lia|].
      apply binary_round_aux_room.
      * nia.
      * lia.
      * replace (53 + ex - 53 - ey) with n by (unfold n; lia). nia.
      * lia.
    + assert (Hen : ey + n = ex) by (unfold n; lia).
      assert (Hex' : -1074 <= ex) by lia.
      rewrite binary_round_aux_absorb by lia.
      cbn [SFmag]. lia.
Qed.

End Rounding.

Section Number_constants.

Local Open Scope float_scope.

Lemma Prim2SF_hundred : Prim2SF 100 = S754_finite false hundred_m (-46).
Proof. vm_compute. reflexivity. Qed.

Lemma Prim2SF_one_zero :
  Prim2SF 1 = S754_finite false 4503599627370496 (-52) /\ Prim2SF 0 = S754_zero false.
Proof. split; vm_compute; reflexivity. Qed.

Lemma Prim2SF_infinity : Prim2SF infinity = S754_infinity false.
Proof. vm_compute. reflexivity. Qed.

(** A finite number is a zero or has a mantissa and an exponent. *)
Lemma is_finite_spec (x : float) : is_finite x = true -> SFfinite (Prim2SF x).
Proof.
  unfold is_finite, is_nan, is_infinity.
  rewrite !FloatAxioms.eqb_spec, FloatAxioms.abs_spec, Prim2SF_infinity.
  destruct (Prim2SF x) as [s|s| |s m e]; simpl; try exact (fun _ => I).
  - rewrite orb_true_r. discriminate.
  - discriminate.
Qed.

End Number_constants.

(** *** Strings *)

Section JSString_facts.

Import JSString.

Lemma jsstring_eqb_eq (a b : jsstring) : eqb a b = true <-> a = b.
Proof.
  revert b. induction a as [|x a IH]; intros [|y b]; simpl; split; try congruence;
    try discriminate.
  - intros [Hx Hab]%andb_prop. apply N.eqb_eq in Hx. apply IH in Hab. congruence.
  - intros H. injection H as -> ->. rewrite N.eqb_refl. now apply IH.
Qed.

Lemma jsstring_eqb_refl (a : jsstring) : eqb a a = true.
Proof. now apply jsstring_eqb_eq. Qed.

Lemma jsstring_eqb_neq (a b : jsstring) : eqb a b = false <-> a <> b.
Proof.
  split.
  - intros H Hab. apply jsstring_eqb_eq in Hab. congruence.
  - intros H. destruct (eqb a b) eqn:E; [apply jsstring_eqb_eq in E; contradiction | reflexivity].
Qed.

Lemma jsstring_eqb_sym (a b : jsstring) : eqb a b = eqb b a.
Proof.
  destruct (eqb a b) eqn:E.
  - apply jsstring_eqb_eq in E. subst. now rewrite jsstring_eqb_refl.
  - symmetry. apply jsstring_eqb_neq. apply jsstring_eqb_neq in E. congruence.
Qed.

Lemma trimStart_whitespace (s : jsstring) :
  forallb isWhiteSpace s = true -> trimStart s = [].
Proof.
  induction s as [|c s IH]; simpl; [reflexivity|].
  intros [Hc Hs]%andb_prop. rewrite Hc. now apply IH.
Qed.

(** A string made of white space only trims to the empty string. *)
Lemma trim_whitespace (s : jsstring) :
  forallb isWhiteSpace s = true -> trim s = [].
Proof.
  intros H. unfold trim. now rewrite (trimStart_whitespace _ H).
Qed.

End JSString_facts.

(** ** The comparison loop of [handleSingleEstimate] *)

Section Scores.

Import ChatCarbon.
Local Open Scope float_scope.

(** [x || 0] is never [NaN]: a [NaN] is falsy and gives [0]. *)
Lemma num_or0_number (x : option float) : is_nan (num_or0 x) = false.
Proof.
  destruct x as [v|]; simpl; [|reflexivity].
  unfold JSNumber.truthy. destruct (v =? 0); simpl; [reflexivity|].
  now destruct (is_nan v) eqn:Hv.
Qed.

Lemma accuracyNormalized_number (accuracy : float) :
  is_nan accuracy = false -> Prim2SF (accuracyNormalized accuracy) <> S754_nan.
Proof.
  intros Ha%num_not_nan_spec. unfold accuracyNormalized.
  destruct (1 <? accuracy); [|exact Ha].
  rewrite FloatAxioms.div_spec, Prim2SF_hundred. now apply SF64div_number.
Qed.

(** With a finite carbon figure the score is a number. *)
Lemma score_number (result : EstimateResult) :
  is_finite (carbonOf result) = true -> is_nan (score result) = false.
Proof.
  intros Hcarbon. apply num_is_nan_false. unfold score.
  rewrite FloatAxioms.add_spec. apply SF64add_number; [now apply is_finite_spec|].
  rewrite FloatAxioms.sub_spec. apply SF64sub_number.
  - destruct Prim2SF_one_zero as [-> _]. exact I.
  - apply accuracyNormalized_number, num_or0_number.
Qed.


(** *** The score of readings within range *)

Lemma SFfinite_below_infinity (x : spec_float) :
  SFfinite x -> SFltb x (S754_infinity false) = true.
Proof. destruct x as [s|s| |s m e]; try contradiction; intros _; destruct s; reflexivity. Qed.

Lemma hundred_digits : Zdigits2 (Zpos hundred_m) = 53%Z.
Proof. vm_compute. reflexivity. Qed.

(** An accuracy between 0 and 100 is normalized to a number below [2^8]. *)
Lemma accuracyNormalized_mag (accuracy : float) :
  (0 <=? accuracy) = true -> (accuracy <=? 100) = true ->
  SFmag 8 (Prim2SF (accuracyNormalized accuracy)).
Proof.
  rewrite !FloatAxioms.leb_spec, Prim2SF_hundred.
  destruct Prim2SF_one_zero as [_ ->]. intros H0 H100.
  assert (Ha : SFmag 7 (Prim2SF accuracy)).
  { apply (SFmag_between (Prim2SF accuracy) hundred_m (-46));
      [apply FloatAxioms.Prim2SF_valid | exact H0 | exact H100]. }
  unfold accuracyNormalized. destruct (1 <? accuracy).
  - rewrite FloatAxioms.div_spec, Prim2SF_hundred.
    apply (SF64div_mag (Prim2SF accuracy) false hundred_m (-46) 7);
      [exact Ha | exact hundred_digits | lia | lia].
  - apply SFmag_le with 7%Z; [lia | exact Ha].
Qed.

Lemma one_mag : SFmag 8 (Prim2SF 1).
Proof. destruct Prim2SF_one_zero as [-> _]. vm_compute. discriminate. Qed.

(** With readings within range the score is a finite number: the sum does not
    overflow, however large the carbon figure is. *)
Lemma score_finite (result : EstimateResult) :
  readingsInRange result -> SFfinite (Prim2SF (score result)).
Proof.
  intros (Hc0 & Hcinf & Ha0 & Ha100). unfold score.
  rewrite FloatAxioms.add_spec, FloatAxioms.sub_spec.
  assert (Hy : SFmag 10 (SF64sub (Prim2SF 1) (Prim2SF (accuracyNormalized (accuracyOf result))))).
  { apply (SF64sub_mag _ _ 8);
      [apply FloatAxioms.Prim2SF_valid | exact one_mag
      | now apply accuracyNormalized_mag | lia]. }
  set (y := SF64sub _ _) in *. clearbody y.
  rewrite FloatAxioms.leb_spec in Hc0. rewrite FloatAxioms.ltb_spec, Prim2SF_infinity in Hcinf.
  destruct Prim2SF_one_zero as [_ H0]. rewrite H0 in Hc0.
  pose proof (FloatAxioms.Prim2SF_valid (carbonOf result)) as Hv.
  destruct (Prim2SF (carbonOf result)) as [s|s| |s m e].
  - apply (SFmag_finite 12). apply (SF64add_mag _ _ 10); [exact Hv | exact I | exact Hy | lia].
  - destruct s; discriminate.
  - discriminate.
  - destruct s; [discriminate|].
    destruct (Z_le_gt_dec (Zdigits2 (Zpos m) + e) 1000) as [Hsmall|Hlarge].
    + apply (SFmag_finite 1002). apply (SF64add_mag _ _ 1000);
        [exact Hv | exact Hsmall | apply SFmag_le with 10%Z; [lia | exact Hy] | lia].
    + apply (SFmag_finite 1024). apply SF64add_large; [exact Hv | lia | exact Hy].
Qed.




Lemma score_below_infinity (result : EstimateResult) :
  readingsInRange result -> (score result <? infinity) = true.
Proof.
  intros Hr. rewrite FloatAxioms.ltb_spec, Prim2SF_infinity.
  now apply SFfinite_below_infinity, score_finite.
Qed.

Lemma SFfinite_is_finite (x : float) : SFfinite (Prim2SF x) -> is_finite x = true.
Proof.
  unfold is_finite, is_nan, is_infinity.
  rewrite !FloatAxioms.eqb_spec, FloatAxioms.abs_spec, Prim2SF_infinity.
  destruct (Prim2SF x) as [s|s| |s m e]; try contradiction; intros _.
  - reflexivity.
  - unfold SFeqb, SFabs, SFcompare. rewrite Z.compare_refl, Pos.compare_cont_refl.
    destruct s; reflexivity.
Qed.

End Scores.

Section Selection.

Import ChatCarbon.
Local Open Scope float_scope.

Variable env : Env.
Variable prompt : jsstring.

(** The loop's variables after one turn, by how the request ended. *)
Lemma iteration_best (b : Best) (modelName : jsstring) :
  fst (iteration env prompt b modelName) =
  match candidate env prompt modelName with
  | None => b
  | Some result =>
      let row := {| Comparison.model := modelName; Comparison.carbon := carbonOf result;
                    Comparison.accuracy := accuracyDisplay (accuracyOf result) |} in
      if score result <? bestScore b
      then {| bestModel := modelName; bestResult := Some result; bestScore := score result;
              rows := rows b ++ [row] |}
      else {| bestModel := bestModel b; bestResult := bestResult b; bestScore := bestScore b;
              rows := rows b ++ [row] |}
  end.
Proof.
  unfold iteration, candidate.
  destruct (fetchEstimate env (mkPayload prompt modelName)) as [response|]; [|reflexivity].
  destruct (Response.ok response); simpl.
  - destruct (Response.json response) as [result|]; [|reflexivity].
    fold (score result). now destruct (score result <? bestScore b).
  - now destruct (Response.text response).
Qed.

Lemma forOf_snoc (models : list jsstring) (modelName : jsstring) (b : Best) :
  fst (forOf env prompt (models ++ [modelName]) b) =
  fst (iteration env prompt (fst (forOf env prompt models b)) modelName).
Proof.
  revert b. induction models as [|m models IH]; intros b; simpl.
  - destruct (iteration env prompt b modelName). reflexivity.
  - destruct (iteration env prompt b m) as [b1 t1].
    specialize (IH b1).
    destruct (forOf env prompt (models ++ [modelName]) b1) as [b2 t2].
    destruct (forOf env prompt models b1) as [b3 t3]. exact IH.
Qed.

Lemma best_so_far_step (seen : list jsstring) (b : Best) (modelName : jsstring) :
  best_so_far env prompt seen b ->
  best_so_far env prompt (seen ++ [modelName]) (fst (iteration env prompt b modelName)).
Proof.
  intros Hinv. rewrite iteration_best.
  destruct (candidate env prompt modelName) as [result|] eqn:Hc.
  - cbv zeta. destruct (score result <? bestScore b) eqn:Hlt.
    + (* the new candidate replaces the kept one *)
      unfold best_so_far in *. cbn [bestResult bestModel bestScore].
      destruct (bestResult b) as [w|].
      * destruct Hinv as (Hs & Hfin & before & after & -> & Hw & Hbefore & Hafter).
        rewrite Hs in Hlt.
        split; [reflexivity|]. split; [exact (num_ltb_trans _ _ _ Hlt Hfin)|].
        exists (before ++ bestModel b :: after), []. repeat split; auto.
        2: { intros m r []. }
        intros m r Hin Hm.
        destruct (score r <=? score result) eqn:Hle; [|reflexivity].
        pose proof (num_leb_ltb_trans _ _ _ Hle Hlt) as Hrw.
        apply in_app_or in Hin. destruct Hin as [Hin|[<-|Hin]].
        -- rewrite <- (Hbefore m r Hin Hm). symmetry. now apply num_ltb_leb.
        -- rewrite Hw in Hm. injection Hm as <-.
           rewrite <- (num_ltb_not_leb _ _ Hlt). now symmetry.
        -- rewrite <- (Hafter m r Hin Hm). now symmetry.
      * destruct Hinv as (Hs & Hnone). rewrite Hs in Hlt.
        split; [reflexivity|]. split; [exact Hlt|].
        exists seen, []. repeat split; auto.
        2: { intros m r []. }
        intros m r Hin Hm.
        destruct (score r <=? score result) eqn:Hle; [|reflexivity].
        rewrite <- (Hnone m r Hin Hm). symmetry. exact (num_leb_ltb_trans _ _ _ Hle Hlt).
    + (* the kept result stays *)
      unfold best_so_far in *. cbn [bestResult bestModel bestScore].
      destruct (bestResult b) as [w|].
      * destruct Hinv as (Hs & Hfin & before & after & -> & Hw & Hbefore & Hafter).
        split; [exact Hs|]. split; [exact Hfin|].
        exists before, (after ++ [modelName]). rewrite <- app_assoc. repeat split; auto.
        intros m r Hin Hm. apply in_app_or in Hin. destruct Hin as [Hin|[<-|[]]].
        -- now apply (Hafter m r).
        -- rewrite Hc in Hm. injection Hm as <-. now rewrite <- Hs.
      * destruct Hinv as (Hs & Hnone). split; [exact Hs|].
        intros m r Hin Hm. apply in_app_or in Hin. destruct Hin as [Hin|[<-|[]]].
        -- now apply (Hnone m r).
        -- rewrite Hc in Hm. injection Hm as <-. now rewrite <- Hs.
  - (* the request failed: the loop continues with its variables unchanged *)
    unfold best_so_far in *. destruct (bestResult b) as [w|].
    + destruct Hinv as (Hs & Hfin & before & after & -> & Hw & Hbefore & Hafter).
      split; [exact Hs|]. split; [exact Hfin|].
      exists before, (after ++ [modelName]). rewrite <- app_assoc. repeat split; auto.
      intros m r Hin Hm. apply in_app_or in Hin. destruct Hin as [Hin|[<-|[]]].
      * now apply (Hafter m r).
      * congruence.
    + destruct Hinv as (Hs & Hnone). split; [exact Hs|].
      intros m r Hin Hm. apply in_app_or in Hin. destruct Hin as [Hin|[<-|[]]].
      * now apply (Hnone m r).
      * congruence.
Qed.

Lemma best_so_far_forOf (models seen : list jsstring) (b : Best) :
  best_so_far env prompt seen b ->
  best_so_far env prompt (seen ++ models) (fst (forOf env prompt models b)).
Proof.
  induction models as [|m models IH] using rev_ind.
  - simpl. now rewrite app_nil_r.
  - intros Hinv. rewrite forOf_snoc, app_assoc. apply best_so_far_step. now apply IH.
Qed.

(** The invariant holds of the whole loop. *)
Lemma best_so_far_selectionLoop (models : list jsstring) :
  best_so_far env prompt models (fst (selectionLoop env prompt models)).
Proof.
  unfold selectionLoop. apply (best_so_far_forOf models []).
  unfold best_so_far. simpl. split; [reflexivity|]. intros m r [].
Qed.

End Selection.

(** The loop's variables depend on the host only through the candidates the
    models' requests produce. *)
Lemma forOf_candidates (env1 env2 : ChatCarbon.Env) (prompt : jsstring)
  (models : list jsstring) (b : ChatCarbon.Best) :
  (forall m, In m models ->
             ChatCarbon.candidate env1 prompt m = ChatCarbon.candidate env2 prompt m) ->
  fst (ChatCarbon.forOf env1 prompt models b) = fst (ChatCarbon.forOf env2 prompt models b).
Proof.
  induction models as [|m models IH] using rev_ind; intros Hsame.
  - reflexivity.
  - rewrite !forOf_snoc, !iteration_best.
    rewrite IH by (intros m' Hin; apply Hsame, in_or_app; now left).
    rewrite (Hsame m) by (apply in_or_app; right; now left).
    reflexivity.
Qed.




(** The round of three models with carbon 0.000067, 0.000062 and 0.000067 kg
    and accuracy 77, 76 and 72: the first model wins with the score
    [0.000067 + (1 - 0.77)]. *)
Example three_models_round :
  let b := fst (ChatCarbon.selectionLoop (Sample.host Sample.threeAnswers)
                  Sample.question Sample.whitelist) in
  ChatCarbon.bestModel b = Sample.gemini /\
  ChatCarbon.bestScore b = (0.000067 + (1 - 77 / 100))%float /\
  map Comparison.accuracy (ChatCarbon.rows b) = [77; 76; 72]%float.
Proof. cbv zeta. repeat split; vm_compute; reflexivity. Qed.

(** C3. When the loop keeps a winner, the configured list of models splits
    around the winner's model so that no successful candidate placed before it
    has a score equal to the winner's: of candidates with identical scores the
    one placed first is chosen. The choice is a function of the list and of
    the candidates alone: any run in which the requests produce the same
    candidates keeps the same model, result and score. *)
Theorem tie_goes_to_the_earlier_model (env : ChatCarbon.Env) (prompt : jsstring)
  (models : list jsstring) (w : EstimateResult) :
  ChatCarbon.bestResult (fst (ChatCarbon.selectionLoop env prompt models)) = Some w ->
  let b := fst (ChatCarbon.selectionLoop env prompt models) in
  (exists before after,
      models = before ++ ChatCarbon.bestModel b :: after /\
      ChatCarbon.candidate env prompt (ChatCarbon.bestModel b) = Some w /\
      forall m r, In m before -> ChatCarbon.candidate env prompt m = Some r ->
                  (ChatCarbon.score r =? ChatCarbon.score w)%float = false /\
                  ChatCarbon.score r <> ChatCarbon.score w) /\
  (forall env',
      (forall m, In m models ->
                 ChatCarbon.candidate env' prompt m = ChatCarbon.candidate env prompt m) ->
      fst (ChatCarbon.selectionLoop env' prompt models) = b).
Proof.
  intros Hbest b.
  pose proof (best_so_far_selectionLoop env prompt models) as Hinv.
  fold b in Hinv, Hbest. unfold best_so_far in Hinv. rewrite Hbest in Hinv.
  destruct Hinv as (Hs & Hfin & before & after & Hmodels & Hw & Hbefore & Hafter).
  split.
  - exists before, after. split; [exact Hmodels|]. split; [exact Hw|].
    intros m r Hin Hm. specialize (Hbefore m r Hin Hm). split.
    + destruct (ChatCarbon.score r =? ChatCarbon.score w)%float eqn:Heq; [|reflexivity].
      rewrite <- Hbefore. symmetry. now apply num_eqb_leb.
    + intros Heq. rewrite Heq in Hbefore.
      rewrite (num_leb_refl _ (num_ltb_not_nan_l _ _ Hfin)) in Hbefore. discriminate.
  - intros env' Hsame. unfold b, ChatCarbon.selectionLoop. now apply forOf_candidates.
Qed.

Lemma tie_goes_to_the_earlier_model_witness :
  let b := fst (ChatCarbon.selectionLoop (Sample.host Sample.tiedAnswers)
                  Sample.question Sample.whitelist) in
  ChatCarbon.bestModel b = Sample.mistral /\
  (exists before after,
      Sample.whitelist = before ++ ChatCarbon.bestModel b :: after /\
      ChatCarbon.candidate (Sample.host Sample.tiedAnswers) Sample.question
        (ChatCarbon.bestModel b) = Some (Sample.estimateOf Sample.mistral 0.000067 77) /\
      forall m r, In m before ->
                  ChatCarbon.candidate (Sample.host Sample.tiedAnswers) Sample.question m
                  = Some r ->
                  (ChatCarbon.score r =?
                   ChatCarbon.score (Sample.estimateOf Sample.mistral 0.000067 77))%float = false /\
                  ChatCarbon.score r <>
                  ChatCarbon.score (Sample.estimateOf Sample.mistral 0.000067 77)) /\
  (forall env',
      (forall m, In m Sample.whitelist ->
                 ChatCarbon.candidate env' Sample.question m =
                 ChatCarbon.candidate (Sample.host Sample.tiedAnswers) Sample.question m) ->
      fst (ChatCarbon.selectionLoop env' Sample.question Sample.whitelist) = b).
Proof.
  split; [vm_compute; reflexivity|].
  apply (tie_goes_to_the_earlier_model (Sample.host Sample.tiedAnswers) Sample.question
           Sample.whitelist (Sample.estimateOf Sample.mistral 0.000067 77)).
  vm_compute. reflexivity.
Defined.

(** ** The dashboard statistics *)

Section Breakdown_facts.

Import Dashboard.
Local Open Scope float_scope.

Lemma lookup_adjust (k k' : jsstring) (f : Breakdown.t -> Breakdown.t) (mb : breakdown) :
  lookup k (adjust k' f mb) =
  if JSString.eqb k k' then option_map f (lookup k mb) else lookup k mb.
Proof.
  induction mb as [|[k'' d] mb IH]; simpl.
  - now destruct (JSString.eqb k k').
  - destruct (JSString.eqb k' k'') eqn:E1; simpl.
    + apply jsstring_eqb_eq in E1. subst k''.
      now destruct (JSString.eqb k k').
    + destruct (JSString.eqb k k'') eqn:E2.
      * apply jsstring_eqb_eq in E2. subst k''.
        rewrite jsstring_eqb_sym, E1. reflexivity.
      * exact IH.
Qed.

Lemma lookup_app_single (k k' : jsstring) (d : Breakdown.t) (mb : breakdown) :
  lookup k (mb ++ [(k', d)]) =
  match lookup k mb with
  | Some x => Some x
  | None => if JSString.eqb k k' then Some d else None
  end.
Proof.
  induction mb as [|[k'' d''] mb IH]; simpl.
  - reflexivity.
  - now destruct (JSString.eqb k k'').
Qed.

Lemma lookup_app (k : jsstring) (mb1 mb2 : breakdown) :
  lookup k (mb1 ++ mb2) =
  match lookup k mb1 with
  | Some x => Some x
  | None => lookup k mb2
  end.
Proof.
  induction mb1 as [|[k' d'] mb1 IH]; simpl; [reflexivity|].
  now destruct (JSString.eqb k k').
Qed.

(** A new property is put somewhere in the list, and nothing else moves. *)
Lemma define_split (k : jsstring) (d : Breakdown.t) (mb : breakdown) :
  exists mb1 mb2, mb = mb1 ++ mb2 /\ define k d mb = mb1 ++ (k, d) :: mb2.
Proof.
  unfold define. destruct (arrayIndex k) as [i|].
  - induction mb as [|[k' d'] mb IH]; cbn [defineIndex].
    + now exists [], [].
    + destruct (arrayIndex k') as [j|]; [destruct (i <? j)%N|].
      * now exists [], ((k', d') :: mb).
      * destruct IH as (mb1 & mb2 & Hmb & Hdef).
        exists ((k', d') :: mb1), mb2. cbn [app]. now rewrite <- Hmb, Hdef.
      * now exists [], ((k', d') :: mb).
  - exists mb, []. now rewrite app_nil_r.
Qed.

Lemma define_perm (k : jsstring) (d : Breakdown.t) (mb : breakdown) :
  Permutation (define k d mb) ((k, d) :: mb).
Proof.
  destruct (define_split k d mb) as (mb1 & mb2 & -> & ->).
  apply Permutation_sym, Permutation_middle.
Qed.

Lemma lookup_define (k k' : jsstring) (d : Breakdown.t) (mb : breakdown) :
  lookup k' mb = None ->
  lookup k (define k' d mb) = if JSString.eqb k k' then Some d else lookup k mb.
Proof.
  destruct (define_split k' d mb) as (mb1 & mb2 & -> & ->).
  rewrite !lookup_app. cbn [lookup]. intros Hnew.
  destruct (JSString.eqb k k') eqn:E.
  - apply jsstring_eqb_eq in E. subst k'.
    now destruct (lookup k mb1); [discriminate|].
  - reflexivity.
Qed.

Lemma lookup_addEstimate (k : jsstring) (mb : breakdown) (e : EstimateResult) :
  lookup k (addEstimate mb e) =
  if inherited (modelNameOf e) then lookup k mb
  else if JSString.eqb k (modelNameOf e)
  then Some (accumulate e match lookup k mb with Some d => d | None => Breakdown.empty end)
  else lookup k mb.
Proof.
  unfold addEstimate. cbv zeta.
  destruct (inherited (modelNameOf e)); [reflexivity|].
  rewrite lookup_adjust.
  destruct (JSString.eqb k (modelNameOf e)) eqn:E.
  - apply jsstring_eqb_eq in E. subst k.
    destruct (lookup (modelNameOf e) mb) as [d|] eqn:Hl.
    + now rewrite Hl.
    + now rewrite lookup_define, jsstring_eqb_refl.
  - destruct (lookup (modelNameOf e) mb) eqn:Hl; [reflexivity|].
    now rewrite lookup_define, E.
Qed.

Lemma keys_adjust (k : jsstring) (f : Breakdown.t -> Breakdown.t) (mb : breakdown) :
  map fst (adjust k f mb) = map fst mb.
Proof.
  induction mb as [|[k' d] mb IH]; simpl; [reflexivity|].
  destruct (JSString.eqb k k'); simpl; congruence.
Qed.

Lemma lookup_None (k : jsstring) (mb : breakdown) :
  lookup k mb = None -> ~ In k (map fst mb).
Proof.
  induction mb as [|[k' d] mb IH]; simpl; [tauto|].
  destruct (JSString.eqb k k') eqn:E; [discriminate|].
  apply jsstring_eqb_neq in E. intros H [Hk|Hk]; [congruence|now apply IH].
Qed.

Lemma lookup_In (k : jsstring) (d : Breakdown.t) (mb : breakdown) :
  NoDup (map fst mb) -> In (k, d) mb -> lookup k mb = Some d.
Proof.
  induction mb as [|[k' d'] mb IH]; simpl; [tauto|].
  intros Hnd [Heq|Hin].
  - injection Heq as -> ->. now rewrite jsstring_eqb_refl.
  - inversion Hnd as [|? ? Hnotin Hnd']; subst.
    destruct (JSString.eqb k k') eqn:E.
    + apply jsstring_eqb_eq in E. subst k'. exfalso. apply Hnotin.
      now apply (in_map fst) in Hin.
    + now apply IH.
Qed.

Lemma lookup_Some_In (k : jsstring) (d : Breakdown.t) (mb : breakdown) :
  lookup k mb = Some d -> In (k, d) mb.
Proof.
  induction mb as [|[k' d'] mb IH]; simpl; [discriminate|].
  destruct (JSString.eqb k k') eqn:E.
  - apply jsstring_eqb_eq in E. subst k'. intros H. injection H as ->. now left.
  - intros H. right. now apply IH.
Qed.

Lemma keys_addEstimate (mb : breakdown) (e : EstimateResult) :
  NoDup (map fst mb) -> NoDup (map fst (addEstimate mb e)).
Proof.
  intros Hnd. unfold addEstimate. cbv zeta.
  destruct (inherited (modelNameOf e)); [exact Hnd|]. rewrite keys_adjust.
  destruct (lookup (modelNameOf e) mb) eqn:Hl; [exact Hnd|].
  apply Permutation_NoDup with (l := modelNameOf e :: map fst mb).
  - apply Permutation_sym.
    apply (Permutation_map fst (define_perm (modelNameOf e) Breakdown.empty mb)).
  - constructor; [now apply lookup_None | exact Hnd].
Qed.

Lemma keys_modelBreakdown (estimates : list EstimateResult) :
  NoDup (map fst (fold_left addEstimate estimates [])).
Proof.
  induction estimates as [|e estimates IH] using rev_ind.
  - constructor.
  - rewrite fold_left_app. simpl. now apply keys_addEstimate.
Qed.

Lemma entriesOf_app (k : jsstring) (h1 h2 : list EstimateResult) :
  entriesOf k (h1 ++ h2) = entriesOf k h1 ++ entriesOf k h2.
Proof. apply filter_app. Qed.

Lemma tally_snoc (es : list EstimateResult) (e : EstimateResult) :
  tally (es ++ [e]) = accumulate e (tally es).
Proof. unfold tally. now rewrite fold_left_app. Qed.

(** The value stored for a model is the tally of the history's estimates of
    that model; a model has a value exactly when it has such estimates and its
    name is not one that the object inherits. *)
Lemma lookup_modelBreakdown (k : jsstring) (estimates : list EstimateResult) :
  lookup k (fold_left addEstimate estimates []) =
  if inherited k then None
  else
    match entriesOf k estimates with
    | [] => None
    | _ :: _ => Some (tally (entriesOf k estimates))
    end.
Proof.
  induction estimates as [|e estimates IH] using rev_ind.
  - simpl. now destruct (inherited k).
  - rewrite fold_left_app. simpl. rewrite lookup_addEstimate, IH, entriesOf_app.
    assert (Hone : entriesOf k [e] = if JSString.eqb k (modelNameOf e) then [e] else []).
    { unfold entriesOf. simpl. now rewrite (jsstring_eqb_sym (modelNameOf e) k). }
    rewrite Hone. destruct (JSString.eqb k (modelNameOf e)) eqn:E.
    + apply jsstring_eqb_eq in E. subst k.
      destruct (inherited (modelNameOf e)); [reflexivity|].
      rewrite tally_snoc.
      destruct (entriesOf (modelNameOf e) estimates) as [|e0 es]; reflexivity.
    + rewrite app_nil_r. now destruct (inherited (modelNameOf e)).
Qed.

Lemma dropNull_app (l1 l2 : list (option float)) :
  dropNull (l1 ++ l2) = dropNull l1 ++ dropNull l2.
Proof.
  induction l1 as [|[a|] l1 IH]; simpl; congruence.
Qed.

Lemma validAccuracies_app (h1 h2 : list EstimateResult) :
  validAccuracies (h1 ++ h2) = validAccuracies h1 ++ validAccuracies h2.
Proof. unfold validAccuracies. now rewrite map_app, dropNull_app. Qed.

Lemma validAccuracies_single (e : EstimateResult) :
  validAccuracies [e] =
  match entryAccuracy e with
  | Some a => if accuracyValid (Some a) then [a] else []
  | None => []
  end.
Proof.
  unfold validAccuracies, accuracyOrNull. cbn [map].
  destruct (entryAccuracy e) as [a|]; [|reflexivity].
  now destruct (accuracyValid (Some a)).
Qed.

Lemma validAccuracies_length (h : list EstimateResult) :
  length (validAccuracies h) <= length h.
Proof.
  induction h as [|e h IH]; simpl; [lia|].
  change (e :: h) with ([e] ++ h). rewrite validAccuracies_app, length_app, validAccuracies_single.
  destruct (entryAccuracy e) as [a|]; [destruct (accuracyValid (Some a))|]; simpl; lia.
Qed.

(** What a tally holds, field by field. *)
Lemma tally_fields (es : list EstimateResult) :
  Breakdown.count (tally es) = length es /\
  Breakdown.accuracyCount (tally es) = length (validAccuracies es) /\
  Breakdown.totalAccuracy (tally es) = fold_left PrimFloat.add (validAccuracies es) 0 /\
  Breakdown.totalCarbon (tally es) =
    fold_left (fun sum e => sum + num_or0 (carbon_emitted_kgco2 e)) es 0 /\
  Breakdown.totalEnergy (tally es) =
    fold_left (fun sum e => sum + num_or0 (energy_consumed_kwh e)) es 0.
Proof.
  induction es as [|e es IH] using rev_ind.
  - repeat split.
  - destruct IH as (Hc & Ha & Ht & Hcarbon & Henergy).
    rewrite tally_snoc, validAccuracies_app, validAccuracies_single, !length_app, !fold_left_app.
    unfold accumulate.
    destruct (entryAccuracy e) as [a|]; [destruct (accuracyValid (Some a))|];
      simpl; rewrite ?Hc, ?Ha, ?Ht, ?Hcarbon, ?Henergy, ?Nat.add_0_r; repeat split.
Qed.

End Breakdown_facts.

Section Sorting_facts.

Import Dashboard.

Lemma insertByCount_perm (x : TopModel.t) (l : list TopModel.t) :
  Permutation (insertByCount x l) (x :: l).
Proof.
  induction l as [|y l IH]; simpl.
  - apply Permutation_refl.
  - destruct (TopModel.count x <? TopModel.count y)%nat.
    + apply perm_trans with (y :: x :: l); [now apply perm_skip | apply perm_swap].
    + apply Permutation_refl.
Qed.

Lemma insertByCount_sorted (x : TopModel.t) (l : list TopModel.t) :
  StronglySorted count_ge l -> StronglySorted count_ge (insertByCount x l).
Proof.
  induction l as [|y l IH]; simpl; intros Hs.
  - constructor; constructor.
  - inversion Hs as [|? ? Hl Hy]; subst.
    destruct (TopModel.count x <? TopModel.count y)%nat eqn:E.
    + apply Nat.ltb_lt in E. constructor; [now apply IH|].
      apply Forall_forall. intros z Hz.
      apply (Permutation_in z (insertByCount_perm x l)) in Hz.
      destruct Hz as [<-|Hz]; [unfold count_ge; lia|].
      rewrite Forall_forall in Hy. now apply Hy.
    + apply Nat.ltb_ge in E. constructor; [exact Hs|].
      constructor; [exact E|].
      apply Forall_impl with (P := count_ge y); [|exact Hy].
      unfold count_ge. intros z Hz. lia.
Qed.

Lemma sortByCount_perm (l : list TopModel.t) : Permutation (sortByCount l) l.
Proof.
  induction l as [|x l IH]; simpl.
  - apply perm_nil.
  - apply perm_trans with (x :: sortByCount l);
      [apply insertByCount_perm | now apply perm_skip].
Qed.

Lemma sortByCount_sorted (l : list TopModel.t) : StronglySorted count_ge (sortByCount l).
Proof.
  induction l as [|x l IH]; simpl.
  - constructor.
  - now apply insertByCount_sorted.
Qed.

End Sorting_facts.

Section Permuted_histories.

Import Dashboard.

Lemma entriesOf_perm (k : jsstring) (h h' : list EstimateResult) :
  Permutation h h' -> Permutation (entriesOf k h) (entriesOf k h').
Proof.
  unfold entriesOf.
  induction 1 as [|e h h' _ IH|e1 e2 h|h1 h2 h3 _ IH1 _ IH2]; simpl.
  - apply perm_nil.
  - destruct (JSString.eqb (modelNameOf e) k); [now apply perm_skip | exact IH].
  - destruct (JSString.eqb (modelNameOf e1) k), (JSString.eqb (modelNameOf e2) k);
      try apply Permutation_refl. apply perm_swap.
  - now apply perm_trans with (filter (fun e => JSString.eqb (modelNameOf e) k) h2).
Qed.

Lemma validAccuracies_cons (e : EstimateResult) (h : list EstimateResult) :
  validAccuracies (e :: h) = validAccuracies [e] ++ validAccuracies h.
Proof. change (e :: h) with ([e] ++ h). apply validAccuracies_app. Qed.

Lemma validAccuracies_perm (h h' : list EstimateResult) :
  Permutation h h' -> Permutation (validAccuracies h) (validAccuracies h').
Proof.
  induction 1 as [|e h h' _ IH|e1 e2 h|h1 h2 h3 _ IH1 _ IH2].
  - apply perm_nil.
  - rewrite (validAccuracies_cons e h), (validAccuracies_cons e h').
    now apply Permutation_app_head.
  - rewrite (validAccuracies_cons e2 (e1 :: h)), (validAccuracies_cons e1 h),
      (validAccuracies_cons e1 (e2 :: h)), (validAccuracies_cons e2 h), !app_assoc.
    apply Permutation_app_tail, Permutation_app_comm.
  - now apply perm_trans with (validAccuracies h2).
Qed.

End Permuted_histories.

Section Statistics.

Import Dashboard.
Local Open Scope float_scope.

Lemma In_validAccuracies (a : float) (h : list EstimateResult) :
  In a (validAccuracies h) <->
  exists e, In e h /\ entryAccuracy e = Some a /\ accuracyValid (Some a) = true.
Proof.
  induction h as [|e h IH].
  - simpl. split; [tauto | intros (e & [] & _)].
  - rewrite validAccuracies_cons, in_app_iff, IH, validAccuracies_single. split.
    + intros [Hin|(e' & Hin & He)].
      * destruct (entryAccuracy e) as [a'|] eqn:Ha; [|destruct Hin].
        destruct (accuracyValid (Some a')) eqn:Hv; [|destruct Hin].
        destruct Hin as [<-|[]]. exists e. repeat split; trivial. now left.
      * exists e'. split; [now right | exact He].
    + intros (e' & [<-|Hin] & Ha & Hv).
      * left. rewrite Ha, Hv. now left.
      * right. now exists e'.
Qed.

Lemma accuracyValid_range (a : float) :
  accuracyValid (Some a) = true <->
  JSNumber.truthy a = true /\ (0 <=? a) = true /\ (a <=? 100) = true.
Proof.
  simpl. rewrite !andb_true_iff. tauto.
Qed.

(** The value stored for a model, whether found by key or met in the list. *)
Lemma breakdown_entry (k : jsstring) (d : Breakdown.t) (estimates : list EstimateResult) :
  In (k, d) (fold_left addEstimate estimates []) ->
  entriesOf k estimates <> [] /\ d = tally (entriesOf k estimates).
Proof.
  intros Hin. apply lookup_In in Hin; [|apply keys_modelBreakdown].
  rewrite lookup_modelBreakdown in Hin.
  destruct (inherited k); [discriminate|].
  destruct (entriesOf k estimates) as [|e es]; [discriminate|].
  split; [discriminate | congruence].
Qed.

(** No value is stored under a name that the object inherits. *)
Lemma breakdown_entry_own (k : jsstring) (d : Breakdown.t) (estimates : list EstimateResult) :
  In (k, d) (fold_left addEstimate estimates []) -> inherited k = false.
Proof.
  intros Hin. apply lookup_In in Hin; [|apply keys_modelBreakdown].
  rewrite lookup_modelBreakdown in Hin.
  now destruct (inherited k).
Qed.

(** The test [accuracy && accuracy >= 0 && accuracy <= 100] on a number:
    [accuracy] is above 0 and at most 100. *)
Lemma accuracyValid_positive (a : float) :
  accuracyValid (Some a) = (0 <? a) && (a <=? 100).
Proof.
  unfold accuracyValid. f_equal.
  unfold JSNumber.truthy, is_nan.
  rewrite FloatAxioms.ltb_spec, FloatAxioms.leb_spec, !FloatAxioms.eqb_spec.
  destruct Prim2SF_one_zero as [_ ->].
  destruct (Prim2SF a) as [s|s| |s m e]; try (destruct s; reflexivity).
  - reflexivity.
  - unfold SFeqb, SFltb, SFleb, SFcompare. rewrite Z.compare_refl, Pos.compare_cont_refl.
    destruct s; reflexivity.
Qed.

(** The names of the breakdown are the model names of the history that the
    object does not inherit. *)
Lemma In_keys_modelBreakdown (k : jsstring) (estimates : list EstimateResult) :
  In k (map fst (fold_left addEstimate estimates [])) <->
  inherited k = false /\ exists e, In e estimates /\ modelNameOf e = k.
Proof.
  split.
  - intros Hin. apply in_map_iff in Hin. destruct Hin as ([k' d] & <- & Hin).
    split; [now apply (breakdown_entry_own k' d estimates)|].
    destruct (breakdown_entry k' d estimates Hin) as (Hne & _). cbn [fst].
    destruct (entriesOf k' estimates) as [|e l] eqn:He; [congruence|].
    assert (Hin' : In e (entriesOf k' estimates)) by (rewrite He; now left).
    apply filter_In in Hin'. destruct Hin' as [Hin' Hk].
    exists e. split; [exact Hin' | now apply jsstring_eqb_eq].
  - intros (Hown & e & Hin & <-).
    pose proof (lookup_modelBreakdown (modelNameOf e) estimates) as Hl.
    rewrite Hown in Hl.
    destruct (entriesOf (modelNameOf e) estimates) as [|e' l] eqn:He.
    + assert (Hin' : In e (entriesOf (modelNameOf e) estimates))
        by (apply filter_In; split; [exact Hin | apply jsstring_eqb_refl]).
      rewrite He in Hin'. contradiction.
    + apply lookup_Some_In in Hl. apply in_map_iff.
      now exists (modelNameOf e, tally (e' :: l)).
Qed.

(** C6. What the code averages, and the valid accuracy it loses. The valid
    accuracies of a history are, in its order, the accuracies that are present,
    above 0 and at most 100, of all its estimates and of no other; an estimate
    whose accuracy is absent or outside the range from 0 to 100 adds nothing
    and is not counted as 0. The average accuracy is their sum over their
    number, or [0] when there is none; per model, [accuracyCount] and
    [totalAccuracy] are the number and the sum of the valid accuracies of the
    model's estimates, [accuracyCount] never exceeds [count], and the average
    shown for the model is taken over them alone. An accuracy of exactly 0 is
    within the range from 0 to 100, which the comment of the code calls the
    expected one, yet it is falsy in [accuracy && ...] and is left out: of two
    estimates of one model with accuracy 0 and 100 only the second is
    averaged, so the average is 100, globally and for the model, where the
    average over both is 50, and the model's [accuracyCount] is 1 for a
    [count] of 2. *)
Theorem valid_zero_accuracy_is_not_averaged :
  let zero := Sample.estimateOf Sample.gemini 0.1 0 in
  let full := Sample.estimateOf Sample.gemini 0.1 100 in
  let s := calculateStats [zero; full] in
  (entryAccuracy zero = Some 0 /\ (0 <=? 0) = true /\ (0 <=? 100) = true /\
   accuracyOrNull zero = None /\
   validAccuracies [zero; full] = [100] /\
   averageAccuracy s = 100 /\
   JSNumber.sum [0; 100] / JSNumber.of_nat 2 = 50 /\
   lookup Sample.gemini (modelBreakdown s)
   = Some {| Breakdown.count := 2; Breakdown.totalCarbon := 0.1 + 0.1;
             Breakdown.totalEnergy := 0.00015 + 0.00015;
             Breakdown.totalAccuracy := 100; Breakdown.accuracyCount := 1 |} /\
   map TopModel.accuracyAvg (topModels s) = [100]) /\
  (forall e a, entryAccuracy e = Some a -> (a =? 0) = true -> accuracyOrNull e = None) /\
  (forall estimates,
      validAccuracies estimates
      = dropNull (map (fun e => match entryAccuracy e with
                                | Some a => if (0 <? a) && (a <=? 100) then Some a else None
                                | None => None
                                end) estimates) /\
      averageAccuracy (calculateStats estimates) =
        (if (0 <? length (validAccuracies estimates))%nat
         then JSNumber.sum (validAccuracies estimates) /
              JSNumber.of_nat (length (validAccuracies estimates))
         else 0) /\
      (forall h1 e h2,
          estimates = h1 ++ e :: h2 ->
          entryAccuracy e = None \/
          (exists a, entryAccuracy e = Some a /\ ((0 <=? a) && (a <=? 100)) = false) ->
          validAccuracies estimates = validAccuracies (h1 ++ h2)) /\
      (forall name d,
          lookup name (modelBreakdown (calculateStats estimates)) = Some d ->
          Breakdown.accuracyCount d <= Breakdown.count d /\
          Breakdown.count d = length (entriesOf name estimates) /\
          Breakdown.accuracyCount d = length (validAccuracies (entriesOf name estimates)) /\
          Breakdown.totalAccuracy d
          = JSNumber.sum (validAccuracies (entriesOf name estimates))) /\
      (forall t,
          In t (topModels (calculateStats estimates)) ->
          TopModel.accuracyAvg t =
          let valid := validAccuracies (entriesOf (TopModel.name t) estimates) in
          if (0 <? length valid)%nat
          then JSNumber.sum valid / JSNumber.of_nat (length valid)
          else 0)).
Proof.
  cbv zeta. split; [|split].
  - repeat split; vm_compute; reflexivity.
  - intros e a Ha Hzero. unfold accuracyOrNull. rewrite Ha.
    cbn [accuracyValid]. unfold JSNumber.truthy. now rewrite Hzero.
  - intros estimates. split; [|split; [reflexivity|split; [|split]]].
    + unfold validAccuracies. f_equal. apply map_ext. intros e. unfold accuracyOrNull.
      destruct (entryAccuracy e) as [a|]; [|reflexivity].
      now rewrite accuracyValid_positive.
    + intros h1 e h2 -> Hbad.
      rewrite !validAccuracies_app, (validAccuracies_cons e h2), validAccuracies_single.
      destruct Hbad as [->|(a & -> & Hrange)]; [reflexivity|].
      simpl. rewrite <- andb_assoc, Hrange, andb_false_r. reflexivity.
    + intros name d Hl. apply lookup_Some_In, breakdown_entry in Hl.
      destruct Hl as (_ & ->).
      destruct (tally_fields (entriesOf name estimates)) as (Hc & Ha & Ht & _).
      rewrite Hc, Ha, Ht. repeat split. apply validAccuracies_length.
    + intros t Hin. simpl in Hin.
      apply (Permutation_in t (sortByCount_perm _)) in Hin.
      apply in_map_iff in Hin. destruct Hin as ([k d] & <- & Hin).
      apply breakdown_entry in Hin. destruct Hin as (_ & ->).
      destruct (tally_fields (entriesOf k estimates)) as (_ & Ha & Ht & _).
      simpl. now rewrite Ha, Ht.
Qed.

(** C8. A dashboard given the empty history shows the initial statistics, with
    no request and an average accuracy of [0]; [calculateStats] applied to the
    empty history gives the same two values. In general the average is either
    [0] or a quotient whose divisor is the positive number of valid
    accuracies, so no division by zero is made. *)
Theorem empty_history_statistics :
  Dashboard.Dashboard [] = initialStats /\
  totalRequests (Dashboard.Dashboard []) = 0%nat /\
  averageAccuracy (Dashboard.Dashboard []) = 0 /\
  totalRequests (calculateStats []) = 0%nat /\
  averageAccuracy (calculateStats []) = 0 /\
  (forall estimates,
      (validAccuracies estimates = [] /\ averageAccuracy (calculateStats estimates) = 0) \/
      ((1 <= length (validAccuracies estimates))%nat /\
       averageAccuracy (calculateStats estimates) =
       JSNumber.sum (validAccuracies estimates) /
       JSNumber.of_nat (length (validAccuracies estimates)))).
Proof.
  repeat split.
  intros estimates. unfold calculateStats. cbn [averageAccuracy].
  destruct (validAccuracies estimates) as [|a l].
  - left. split; reflexivity.
  - right. split; [simpl; lia | reflexivity].
Qed.

(** C9. [topModels] is ordered by decreasing request count and lists one
    entry for every model name of the history that [modelBreakdown] does not
    inherit from [Object.prototype], and no other entry; a history that is not
    empty and has no such name gives a listing that is not empty. The count of
    an entry is the number of the estimates of its model in the history, which
    is at least one, so the division giving its carbon per request, their
    summed carbon by their number, never has a zero divisor; its average
    accuracy is the sum of their valid accuracies by the number of these when
    there is one, and [0] otherwise. *)
Theorem top_models_by_decreasing_count (estimates : list EstimateResult) :
  let s := calculateStats estimates in
  StronglySorted count_ge (topModels s) /\
  Permutation (topModels s) (map toTopModel (modelBreakdown s)) /\
  NoDup (map TopModel.name (topModels s)) /\
  (forall k, In k (map TopModel.name (topModels s)) <->
             inherited k = false /\ exists e, In e estimates /\ modelNameOf e = k) /\
  (estimates <> [] ->
   (forall e, In e estimates -> inherited (modelNameOf e) = false) ->
   topModels s <> []) /\
  (forall t,
      In t (topModels s) ->
      let es := entriesOf (TopModel.name t) estimates in
      (1 <= length es)%nat /\
      TopModel.count t = length es /\
      TopModel.carbonPerRequest t =
        fold_left (fun sum e => sum + num_or0 (carbon_emitted_kgco2 e)) es 0
        / JSNumber.of_nat (length es) /\
      TopModel.accuracyAvg t =
        (if (0 <? length (validAccuracies es))%nat
         then JSNumber.sum (validAccuracies es)
              / JSNumber.of_nat (length (validAccuracies es))
         else 0)) /\
  (forall t,
      In t (topModels s) ->
      exists d,
        In (TopModel.name t, d) (modelBreakdown s) /\
        (1 <= Breakdown.count d)%nat /\
        TopModel.count t = Breakdown.count d /\
        TopModel.carbonPerRequest t =
          Breakdown.totalCarbon d / JSNumber.of_nat (Breakdown.count d) /\
        TopModel.accuracyAvg t =
          if (0 <? Breakdown.accuracyCount d)%nat
          then Breakdown.totalAccuracy d / JSNumber.of_nat (Breakdown.accuracyCount d)
          else 0).
Proof.
  cbv zeta. unfold calculateStats. cbn [topModels modelBreakdown].
  assert (Hnames : Permutation
                     (map TopModel.name
                        (sortByCount (map toTopModel (fold_left addEstimate estimates []))))
                     (map fst (fold_left addEstimate estimates []))).
  { eapply perm_trans; [apply Permutation_map, sortByCount_perm|].
    rewrite map_map. erewrite map_ext; [apply Permutation_refl|].
    intros [k d]. reflexivity. }
  assert (Hmem : forall k,
             In k (map TopModel.name
                     (sortByCount (map toTopModel (fold_left addEstimate estimates []))))
             <-> inherited k = false /\ exists e, In e estimates /\ modelNameOf e = k).
  { intros k. rewrite <- In_keys_modelBreakdown. split; intros Hin.
    - exact (Permutation_in k Hnames Hin).
    - exact (Permutation_in k (Permutation_sym Hnames) Hin). }
  split; [apply sortByCount_sorted|]. split; [apply sortByCount_perm|].
  split; [|split; [exact Hmem|split; [|split]]].
  - apply (Permutation_NoDup (Permutation_sym Hnames)), keys_modelBreakdown.
  - intros Hne Hown Hnil. destruct estimates as [|e l]; [now apply Hne|].
    assert (Hin : In (modelNameOf e)
                     (map TopModel.name
                        (sortByCount (map toTopModel (fold_left addEstimate (e :: l) [])))))
      by (apply Hmem; split; [apply Hown; now left | exists e; split; [now left | reflexivity]]).
    rewrite Hnil in Hin. exact Hin.
  - intros t Hin. apply (Permutation_in t (sortByCount_perm _)) in Hin.
    apply in_map_iff in Hin. destruct Hin as ([k d] & <- & Hin).
    destruct (breakdown_entry k d estimates Hin) as (Hne & ->).
    cbn [toTopModel TopModel.name TopModel.count TopModel.carbonPerRequest
         TopModel.accuracyAvg].
    destruct (tally_fields (entriesOf k estimates)) as (Hc & Hac & Hta & Htc & _).
    rewrite Hc, Hac, Hta, Htc. repeat split.
    destruct (entriesOf k estimates); [congruence | cbn [length]; lia].
  - intros t Hin. apply (Permutation_in t (sortByCount_perm _)) in Hin.
    apply in_map_iff in Hin. destruct Hin as ([k d] & <- & Hin).
    exists d. simpl. split; [exact Hin|]. repeat split.
    apply breakdown_entry in Hin. destruct Hin as (Hne & ->).
    destruct (tally_fields (entriesOf k estimates)) as (-> & _).
    destruct (entriesOf k estimates); [congruence | simpl; lia].
Qed.

Lemma In_nameCount (k : jsstring) (c : nat) (estimates : list EstimateResult) :
  In (k, c) (map nameCount (fold_left addEstimate estimates [])) <->
  inherited k = false /\
  entriesOf k estimates <> [] /\ c = length (entriesOf k estimates).
Proof.
  rewrite in_map_iff. split.
  - intros ([k' d] & Heq & Hin). unfold nameCount in Heq. simpl in Heq.
    injection Heq as -> <-. split; [now apply (breakdown_entry_own k d estimates)|].
    apply breakdown_entry in Hin. destruct Hin as (Hne & ->).
    split; [exact Hne|]. now destruct (tally_fields (entriesOf k estimates)) as (-> & _).
  - intros (Hown & Hne & ->). exists (k, tally (entriesOf k estimates)). split.
    + unfold nameCount. simpl. now destruct (tally_fields (entriesOf k estimates)) as (-> & _).
    + apply lookup_Some_In. rewrite lookup_modelBreakdown, Hown.
      destruct (entriesOf k estimates); [congruence | reflexivity].
Qed.

Lemma nameCount_perm (h h' : list EstimateResult) :
  Permutation h h' ->
  Permutation (map nameCount (fold_left addEstimate h []))
              (map nameCount (fold_left addEstimate h' [])).
Proof.
  intros Hperm.
  assert (Hnodup : forall l, NoDup (map nameCount (fold_left addEstimate l []))).
  { intros l. apply (NoDup_map_inv fst). rewrite map_map. simpl.
    apply keys_modelBreakdown. }
  apply NoDup_Permutation; [apply Hnodup | apply Hnodup |].
  intros [k c]. rewrite !In_nameCount.
  pose proof (entriesOf_perm k _ _ Hperm) as Hk.
  rewrite (Permutation_length Hk).
  split; intros (Hown & Hne & Hc); (split; [exact Hown|]); (split; [|exact Hc]);
    intros Hnil; apply Hne.
  - rewrite Hnil in Hk. now apply Permutation_nil.
  - rewrite Hnil in Hk. now apply Permutation_nil, Permutation_sym.
Qed.

(** C7, as the code has it. Reordering a history leaves unchanged the number
    of requests, the valid accuracies up to their order, the set of models of
    the breakdown and, for each model, its request count, its count of valid
    accuracies and the estimates its totals are summed over, up to their
    order; [topModels] lists the same models with the same counts. (The sums
    are additions of binary64 numbers made in the order of the history.) *)
Theorem counts_independent_of_order (h h' : list EstimateResult) :
  Permutation h h' ->
  let s := calculateStats h in
  let s' := calculateStats h' in
  totalRequests s = totalRequests s' /\
  Permutation (validAccuracies h) (validAccuracies h') /\
  (forall name,
      Permutation (entriesOf name h) (entriesOf name h') /\
      match lookup name (modelBreakdown s), lookup name (modelBreakdown s') with
      | Some d, Some d' =>
          Breakdown.count d = Breakdown.count d' /\
          Breakdown.accuracyCount d = Breakdown.accuracyCount d'
      | None, None => True
      | _, _ => False
      end) /\
  Permutation (map (fun t => (TopModel.name t, TopModel.count t)) (topModels s))
              (map (fun t => (TopModel.name t, TopModel.count t)) (topModels s')).
Proof.
  intros Hperm. cbv zeta. simpl. split; [now apply Permutation_length|].
  split; [now apply validAccuracies_perm|]. split.
  - intros name. pose proof (entriesOf_perm name _ _ Hperm) as Hp.
    split; [exact Hp|]. rewrite !lookup_modelBreakdown.
    destruct (inherited name); [exact I|].
    destruct (tally_fields (entriesOf name h)) as (Hc & Ha & _).
    destruct (tally_fields (entriesOf name h')) as (Hc' & Ha' & _).
    destruct (entriesOf name h) as [|e es] eqn:E, (entriesOf name h') as [|e' es'] eqn:E'.
    + exact I.
    + now apply Permutation_nil in Hp.
    + now apply Permutation_sym, Permutation_nil in Hp.
    + rewrite Hc, Ha, Hc', Ha'. split.
      * now apply Permutation_length.
      * now apply Permutation_length, validAccuracies_perm.
  - assert (Hsorted : forall mb : breakdown,
               Permutation (map (fun t => (TopModel.name t, TopModel.count t))
                              (sortByCount (map toTopModel mb)))
                           (map nameCount mb)).
    { intros mb. eapply perm_trans; [apply Permutation_map, sortByCount_perm|].
      rewrite map_map. erewrite map_ext; [apply Permutation_refl|].
      intros [k d]. reflexivity. }
    eapply perm_trans; [apply Hsorted|].
    eapply perm_trans; [apply (nameCount_perm _ _ Hperm)|].
    apply Permutation_sym, Hsorted.
Qed.

Lemma counts_independent_of_order_witness :
  let s := calculateStats Sample.history in
  let s' := calculateStats Sample.historyReversed in
  totalRequests s = totalRequests s' /\
  Permutation (validAccuracies Sample.history) (validAccuracies Sample.historyReversed) /\
  (forall name,
      Permutation (entriesOf name Sample.history) (entriesOf name Sample.historyReversed) /\
      match lookup name (modelBreakdown s), lookup name (modelBreakdown s') with
      | Some d, Some d' =>
          Breakdown.count d = Breakdown.count d' /\
          Breakdown.accuracyCount d = Breakdown.accuracyCount d'
      | None, None => True
      | _, _ => False
      end) /\
  Permutation (map (fun t => (TopModel.name t, TopModel.count t)) (topModels s))
              (map (fun t => (TopModel.name t, TopModel.count t)) (topModels s')).
Proof.
  apply (counts_independent_of_order Sample.history Sample.historyReversed).
  change Sample.historyReversed with (rev Sample.history). apply Permutation_rev.
Defined.

(** C7, as stated, fails: the history with carbon 0.1, 0.2 and 0.3 kg totals
    0.6000000000000001 kg, and the same estimates in the opposite order total
    0.6 kg. *)
Lemma totals_depend_on_order :
  Permutation Sample.history Sample.historyReversed /\
  totalCarbon (calculateStats Sample.history) = 0.6000000000000001 /\
  totalCarbon (calculateStats Sample.historyReversed) = 0.6 /\
  calculateStats Sample.history <> calculateStats Sample.historyReversed.
Proof.
  split; [|split; [|split]].
  - change Sample.historyReversed with (rev Sample.history). apply Permutation_rev.
  - vm_compute. reflexivity.
  - vm_compute. reflexivity.
  - intros H. apply (f_equal totalCarbon) in H. vm_compute in H. discriminate H.
Qed.

End Statistics.

(** ** The handler as a whole *)

Section Handler.

Import ChatCarbon.

Variable env : Env.

(** The trace of a turn does not depend on the loop's variables. *)
Lemma iteration_turn (prompt : jsstring) (b : Best) (modelName : jsstring) :
  turn prompt modelName (snd (iteration env prompt b modelName)).
Proof.
  unfold turn, iteration.
  destruct (fetchEstimate env (mkPayload prompt modelName)) as [response|]; simpl.
  - destruct (Response.ok response); simpl.
    + destruct (Response.json response) as [result|]; simpl.
      * destruct (_ <? _)%float; simpl; eexists; eexists;
          (split; [reflexivity|]); simpl; now rewrite jsstring_eqb_refl.
      * eexists; eexists; (split; [reflexivity|]); simpl; now rewrite jsstring_eqb_refl.
    + destruct (Response.text response); simpl;
        eexists; eexists; (split; [reflexivity|]); simpl; now rewrite jsstring_eqb_refl.
  - eexists; eexists; (split; [reflexivity|]); simpl; now rewrite jsstring_eqb_refl.
Qed.

Lemma iteration_failed (prompt : jsstring) (b : Best) (modelName : jsstring) :
  candidate env prompt modelName = None ->
  fst (iteration env prompt b modelName) = b /\
  length (filter isConsoleError (snd (iteration env prompt b modelName))) = 1.
Proof.
  unfold candidate, iteration.
  destruct (fetchEstimate env (mkPayload prompt modelName)) as [response|]; simpl.
  - destruct (Response.ok response); simpl.
    + intros ->. split; reflexivity.
    + intros _. destruct (Response.text response); split; reflexivity.
  - intros _. split; reflexivity.
Qed.

Lemma forOf_turns (prompt : jsstring) (models : list jsstring) (b : Best) :
  exists blocks,
    snd (forOf env prompt models b) = concat blocks /\
    Forall2 (turn prompt) models blocks.
Proof.
  revert b. induction models as [|m models IH]; intros b; simpl.
  - exists []. split; [reflexivity | constructor].
  - pose proof (iteration_turn prompt b m) as Hturn.
    destruct (iteration env prompt b m) as [b1 t1].
    destruct (IH b1) as (blocks & Htrace & Hblocks).
    destruct (forOf env prompt models b1) as [b2 t2].
    exists (t1 :: blocks). simpl in *. split; [now rewrite Htrace | now constructor].
Qed.

Lemma forOf_failed (prompt : jsstring) (models : list jsstring) (b : Best) :
  (forall m, In m models -> candidate env prompt m = None) ->
  fst (forOf env prompt models b) = b /\
  length (filter isConsoleError (snd (forOf env prompt models b))) = length models.
Proof.
  revert b. induction models as [|m models IH]; intros b Hnone; simpl.
  - split; reflexivity.
  - destruct (iteration_failed prompt b m (Hnone m (or_introl eq_refl))) as (Hb & Hn).
    destruct (iteration env prompt b m) as [b1 t1]. simpl in Hb, Hn. subst b1.
    destruct (IH b (fun m' H => Hnone m' (or_intror H))) as (Hb' & Hn').
    destruct (forOf env prompt models b) as [b2 t2]. simpl in *.
    split; [exact Hb'|]. rewrite filter_app, length_app. lia.
Qed.

Lemma turn_fetches (prompt modelName : jsstring) (block : list event) :
  turn prompt modelName block ->
  filter isFetch block = [Fetch (mkPayload prompt modelName)].
Proof.
  intros (settled & rest & -> & _ & Hno). simpl. f_equal.
  change (filter isFetch (settled :: rest) = []).
  induction (settled :: rest) as [|ev l IH]; [reflexivity|].
  simpl in Hno. apply andb_prop in Hno. destruct Hno as [Hev Hl].
  simpl. destruct (isFetch ev); [discriminate | now apply IH].
Qed.

End Handler.

Section Handler_properties.

Import ChatCarbon.

Lemma concat_turns_fetches (prompt : jsstring) (models : list jsstring)
  (blocks : list (list event)) :
  Forall2 (turn prompt) models blocks ->
  filter isFetch (concat blocks) = map (fun m => Fetch (mkPayload prompt m)) models.
Proof.
  induction 1 as [|m block models blocks Hturn _ IH]; simpl.
  - reflexivity.
  - now rewrite filter_app, (turn_fetches _ _ _ Hturn), IH.
Qed.

(** When the loop keeps a winner, the handler stores it: the winner is added
    to the estimates handed to the dashboard, the rows of the round become the
    comparison shown, and the input, the error text and the loading flag are
    cleared. *)
Lemma handleSingleEstimate_stores_winner (env : Env) (st : State) (w : EstimateResult) :
  JSString.trim (input st) <> [] ->
  detectPromptType env (input st) = text ->
  availableModels st <> [] ->
  bestResult (fst (selectionLoop env (input st) (availableModels st))) = Some w ->
  let st' := fst (handleSingleEstimate env st) in
  allEstimates st' = allEstimates st ++ [w] /\
  comparisonResults st' =
    Rows (rows (fst (selectionLoop env (input st) (availableModels st)))) /\
  showComparison st' = true /\
  input st' = [] /\ error st' = [] /\ loading st' = false.
Proof.
  intros Hprompt Htext Hmodels Hbest. cbv zeta. unfold handleSingleEstimate.
  destruct (JSString.trim (input st)) as [|c rest] eqn:Htrim; [congruence|].
  cbn [JSString.truthy negb]. rewrite Htext.
  destruct (availableModels st) as [|m0 models] eqn:Hav; [congruence|].
  cbn [length Nat.eqb].
  destruct (selectionLoop env (input st) (m0 :: models)) as [b requests].
  cbn [fst] in Hbest. rewrite Hbest. cbn [fst].
  destruct (noChat (activeChatId st)); repeat split.
Qed.

(** C10. With an input that is empty or made of white space only, the handler
    returns at once: the state is left exactly as it was (no loading flag, no
    error text, no chat, no stored estimate) and nothing is done on the
    outside (no request is sent, nothing is logged). *)
Theorem blank_prompt_is_ignored (env : Env) (st : State) :
  forallb JSString.isWhiteSpace (input st) = true ->
  handleSingleEstimate env st = (st, []).
Proof.
  intros Hblank. unfold handleSingleEstimate.
  now rewrite (trim_whitespace _ Hblank).
Qed.

Lemma blank_prompt_is_ignored_witness :
  handleSingleEstimate (Sample.host Sample.threeAnswers) (setInput Sample.blank Sample.idle)
  = (setInput Sample.blank Sample.idle, []).
Proof.
  apply (blank_prompt_is_ignored (Sample.host Sample.threeAnswers)
           (setInput Sample.blank Sample.idle)).
  vm_compute. reflexivity.
Defined.

(** The trace of the loop, turn by turn, and the requests it holds. *)
Lemma selectionLoop_turns (env : Env) (prompt : jsstring) (models : list jsstring) :
  exists blocks,
    snd (selectionLoop env prompt models) = concat blocks /\
    Forall2 (turn prompt) models blocks.
Proof. unfold selectionLoop. apply forOf_turns. Qed.

Lemma selectionLoop_fetches (env : Env) (prompt : jsstring) (models : list jsstring) :
  filter isFetch (snd (selectionLoop env prompt models))
  = map (fun m => Fetch (mkPayload prompt m)) models.
Proof.
  destruct (selectionLoop_turns env prompt models) as (blocks & -> & Hblocks).
  now apply concat_turns_fetches.
Qed.

(** C5, as the code has it. The loop sends exactly one request per configured
    model, in the configured order and whatever the outcomes of the earlier
    requests are; the requests are made one after the other: the trace is the
    sequence of the models' turns, and in a turn the request is sent, then its
    settling is reported, before the turn of the next model begins. *)
Theorem requests_are_sequential (env : Env) (prompt : jsstring) (models : list jsstring) :
  let trace := snd (selectionLoop env prompt models) in
  (exists blocks, trace = concat blocks /\ Forall2 (turn prompt) models blocks) /\
  filter isFetch trace = map (fun m => Fetch (mkPayload prompt m)) models.
Proof.
  cbv zeta. split; [apply selectionLoop_turns | apply selectionLoop_fetches].
Qed.

(** C5, as stated, fails: with the three models of the white list, the request
    for the second model is sent after the status of the first model's
    response has been logged, so the requests are not dispatched together. *)
Lemma requests_are_not_concurrent :
  let trace := snd (selectionLoop (Sample.host Sample.threeAnswers) Sample.question
                      Sample.whitelist) in
  dispatchedTogether trace = false /\
  exists before after,
    trace = before ++ ConsoleLog (ResponseFrom Sample.gemini 200) :: after /\
    In (Fetch (mkPayload Sample.question Sample.mistral)) after.
Proof.
  cbv zeta. split; [vm_compute; reflexivity|].
  eexists [_; _], _. split.
  - vm_compute. reflexivity.
  - vm_compute. right. right. right. left. reflexivity.
Qed.

(** C4, as the code has it. When the prompt is a text prompt, some model is
    configured and every request fails, the handler completes and leaves the
    state as it was but for the loading flag, reset, and the error text, set to
    the message kept for this case, which differs from the empty text of a
    success and from the texts of the other refusals. Each of the N failures is
    reported once on the console, after one request per model; nothing else
    records them. *)
Theorem all_requests_failed (env : Env) (st : State) :
  JSString.trim (input st) <> [] ->
  detectPromptType env (input st) = text ->
  availableModels st <> [] ->
  (forall m, In m (availableModels st) -> candidate env (input st) m = None) ->
  fst (handleSingleEstimate env st) = setLoading false (setError noResultsMessage st) /\
  length (filter isConsoleError (snd (handleSingleEstimate env st)))
  = length (availableModels st) /\
  filter isFetch (snd (handleSingleEstimate env st))
  = map (fun m => Fetch (mkPayload (input st) m)) (availableModels st) /\
  noResultsMessage <> [] /\
  noResultsMessage <> noModelsMessage /\
  noResultsMessage <> imageMessage.
Proof.
  intros Hprompt Htext Hmodels Hfail.
  unfold handleSingleEstimate.
  destruct (JSString.trim (input st)) as [|c rest] eqn:Htrim; [congruence|].
  cbn [JSString.truthy negb]. rewrite Htext.
  destruct (availableModels st) as [|m0 models] eqn:Hav; [congruence|].
  cbn [length Nat.eqb].
  pose proof (selectionLoop_fetches env (input st) (m0 :: models)) as Hfetch.
  unfold selectionLoop in *.
  destruct (forOf_failed env (input st) (m0 :: models)
              {| bestModel := hd [] (m0 :: models); bestResult := None;
                 bestScore := infinity; rows := [] |} Hfail) as (Hb & Herrors).
  destruct (forOf env (input st) (m0 :: models) _) as [b requests].
  simpl in Hb, Herrors, Hfetch. subst b. cbn [bestResult fst snd].
  repeat split; try discriminate.
  - simpl. exact Herrors.
  - simpl. exact Hfetch.
Qed.

Lemma all_requests_failed_witness :
  fst (handleSingleEstimate (Sample.host Sample.failingAnswers) Sample.idle)
  = setLoading false (setError noResultsMessage Sample.idle) /\
  length (filter isConsoleError
            (snd (handleSingleEstimate (Sample.host Sample.failingAnswers) Sample.idle)))
  = length (availableModels Sample.idle) /\
  filter isFetch (snd (handleSingleEstimate (Sample.host Sample.failingAnswers) Sample.idle))
  = map (fun m => Fetch (mkPayload (input Sample.idle) m)) (availableModels Sample.idle) /\
  noResultsMessage <> [] /\
  noResultsMessage <> noModelsMessage /\
  noResultsMessage <> imageMessage.
Proof.
  apply (all_requests_failed (Sample.host Sample.failingAnswers) Sample.idle).
  - vm_compute. discriminate.
  - vm_compute. reflexivity.
  - vm_compute. discriminate.
  - intros m [<-|[<-|[<-|[]]]]; vm_compute; reflexivity.
Defined.

(** C4, as stated, fails: after a round in which all three requests fail, the
    state differs from the initial one by the error text alone; no state
    variable the handler writes holds three entries, and the rows collected by
    the loop are none. *)
Lemma no_failures_list :
  let st' := fst (handleSingleEstimate (Sample.host Sample.failingAnswers) Sample.idle) in
  st' = setError noResultsMessage Sample.idle /\
  comparisonResults st' = NoComparison /\
  chats st' = [] /\
  allEstimates st' = [] /\
  rows (fst (selectionLoop (Sample.host Sample.failingAnswers) Sample.question
               Sample.whitelist)) = [] /\
  length Sample.whitelist = 3.
Proof.
  cbv zeta. repeat split; vm_compute; reflexivity.
Qed.

End Handler_properties.

(** ** Accuracy as a percentage *)

Section Percentage.

Local Open Scope float_scope.

(** A number between [0] and [1] times [100] is between [0] and [100]. *)
Lemma mul_hundred_range (a : float) :
  (0 <=? a) = true -> (a <=? 1) = true ->
  (0 <=? a * 100) = true /\ (a * 100 <=? 100) = true.
Proof.
  rewrite !FloatAxioms.leb_spec, FloatAxioms.mul_spec, Prim2SF_hundred.
  destruct Prim2SF_one_zero as [-> ->].
  pose proof (FloatAxioms.Prim2SF_valid a) as Hvalid.
  destruct (Prim2SF a) as [s|s| |s m e].
  - intros _ _. destruct s; split; reflexivity.
  - destruct s; simpl; discriminate.
  - simpl. discriminate.
  - destruct s; [simpl; discriminate|]. intros _ Hle.
    simpl in Hvalid. unfold SF64mul, SFmul. cbn [xorb].
    destruct (Z_le_gt_dec e (-53)) as [He|He].
    + exact (mul_hundred_bounds m e Hvalid He).
    + (* the only such number with exponent above -53 is 1 itself *)
      unfold SFleb, SFcompare in Hle.
      destruct (Z.compare_spec e (-52)) as [->|Hlt|Hgt]; [|lia|discriminate].
      apply compare_cont_le in Hle.
      assert (Hm2 : (4503599627370496 <= Zpos m)%Z).
      { unfold bounded, canonical_mantissa, fexp, SpecFloat.emin, prec, emax in Hvalid.
        apply andb_prop in Hvalid. destruct Hvalid as [Hc _]. apply Z.eqb_eq in Hc.
        destruct (digits2_pos_bounds m) as [Hlo _].
        replace (Zpos (digits2_pos m)) with 53%Z in Hlo by lia.
        exact Hlo. }
      assert (Hm : Zpos m = 4503599627370496%Z) by (apply Z.le_antisymm; assumption).
      injection Hm as ->.
      split; vm_compute; reflexivity.
Qed.

(** C2, as the code has it. For an accuracy between 0 and 100, the value the
    handler stores for display (the accuracy itself above 1, a hundred times
    the accuracy otherwise) is between 0 and 100; the dashboard's
    [formatPercentage] prints the same value; and 75 and 0.75 both give 75. *)
Theorem accuracy_display_range (a : float) :
  (0 <=? a) = true -> (a <=? 100) = true ->
  (0 <=? ChatCarbon.accuracyDisplay a) = true /\
  (ChatCarbon.accuracyDisplay a <=? 100) = true /\
  (forall toFixed,
      Dashboard.formatPercentage toFixed a = toFixed (ChatCarbon.accuracyDisplay a) 1%nat) /\
  ChatCarbon.accuracyDisplay 75 = ChatCarbon.accuracyDisplay 0.75 /\
  ChatCarbon.accuracyDisplay 75 = 75.
Proof.
  intros H0 H100. unfold Dashboard.formatPercentage, ChatCarbon.accuracyDisplay.
  assert (Hfraction : (1 <? a) = false -> (a <=? 1) = true).
  { intros H1. apply num_not_ltb_leb; [reflexivity| |exact H1].
    now destruct (num_leb_not_nan _ _ H0). }
  split; [|split; [|split; [|split; vm_compute; reflexivity]]].
  - destruct (1 <? a) eqn:H1; [exact H0|].
    now apply mul_hundred_range; [|apply Hfraction].
  - destruct (1 <? a) eqn:H1; [exact H100|].
    now apply mul_hundred_range; [|apply Hfraction].
  - intros toFixed. now destruct (1 <? a).
Qed.

Lemma accuracy_display_range_witness :
  (0 <=? ChatCarbon.accuracyDisplay 0.75) = true /\
  (ChatCarbon.accuracyDisplay 0.75 <=? 100) = true /\
  (forall toFixed,
      Dashboard.formatPercentage toFixed 0.75
      = toFixed (ChatCarbon.accuracyDisplay 0.75) 1%nat) /\
  ChatCarbon.accuracyDisplay 75 = ChatCarbon.accuracyDisplay 0.75 /\
  ChatCarbon.accuracyDisplay 75 = 75.
Proof.
  apply (accuracy_display_range 0.75); vm_compute; reflexivity.
Defined.

(** C2, as stated, fails: nothing brings a value back into the range. An
    accuracy of 150 is displayed as 150, and one of -0.5 as -50. *)
Lemma accuracy_display_out_of_range :
  ChatCarbon.accuracyDisplay 150 = 150 /\
  (ChatCarbon.accuracyDisplay 150 <=? 100) = false /\
  ChatCarbon.accuracyDisplay (-0.5) = -50 /\
  (0 <=? ChatCarbon.accuracyDisplay (-0.5)) = false.
Proof. repeat split; vm_compute; reflexivity. Qed.

End Percentage.

(** * Further properties of the client *)

(** ** The outcomes of [handleSingleEstimate] *)

Section Handler_outcomes.

Import ChatCarbon.
Local Open Scope float_scope.

Lemma detectPromptType_image (env : Env) (prompt k : jsstring) :
  In k imageKeywords -> JSString.includes (toLowerCase env prompt) k = true ->
  detectPromptType env prompt = image.
Proof.
  intros Hin Hk. unfold detectPromptType.
  replace (existsb _ imageKeywords) with true; [reflexivity|].
  symmetry. apply existsb_exists. now exists k.
Qed.

(** The requests of a run of the handler: none for a blank or an image
    prompt, one per available model otherwise. *)
Lemma handleSingleEstimate_fetches (env : Env) (st : State) :
  filter isFetch (snd (handleSingleEstimate env st)) =
  if negb (JSString.truthy (JSString.trim (input st))) then []
  else match detectPromptType env (input st) with
       | image => []
       | text => map (fun m => Fetch (mkPayload (input st) m)) (availableModels st)
       end.
Proof.
  unfold handleSingleEstimate.
  destruct (negb (JSString.truthy (JSString.trim (input st)))); [reflexivity|].
  destruct (detectPromptType env (input st)); [reflexivity|].
  destruct (availableModels st) as [|m0 models] eqn:Hav; [reflexivity|].
  cbn [length Nat.eqb].
  pose proof (selectionLoop_fetches env (input st) (m0 :: models)) as Hfetch.
  destruct (selectionLoop env (input st) (m0 :: models)) as [b requests].
  cbn [snd] in Hfetch.
  destruct (bestResult b); cbn [snd filter isFetch]; [|exact Hfetch].
  rewrite filter_app. cbn [filter isFetch]. rewrite app_nil_r. exact Hfetch.
Qed.

(** The rows collected by the loop. *)
Lemma forOf_rows (env : Env) (prompt : jsstring) (models : list jsstring) (b : Best) :
  rows (fst (forOf env prompt models b)) = rows b ++ successfulRows env prompt models.
Proof.
  revert b. induction models as [|m models IH]; intros b.
  - simpl. now rewrite app_nil_r.
  - cbn [forOf]. pose proof (iteration_best env prompt b m) as Hb.
    destruct (iteration env prompt b m) as [b1 t1]. cbn [fst] in Hb.
    specialize (IH b1). destruct (forOf env prompt models b1) as [b2 t2].
    cbn [fst] in IH |- *. rewrite IH, Hb. unfold successfulRows. cbn [flat_map].
    destruct (candidate env prompt m) as [r|]; [|reflexivity].
    cbv zeta. fold (rowOf m r).
    destruct (score r <? bestScore b); cbn [rows]; now rewrite <- app_assoc.
Qed.

(** What a run that keeps a winner does to the chats. *)
Lemma handleSingleEstimate_chats (env : Env) (st : State) (w : EstimateResult) :
  JSString.trim (input st) <> [] ->
  detectPromptType env (input st) = text ->
  availableModels st <> [] ->
  bestResult (fst (selectionLoop env (input st) (availableModels st))) = Some w ->
  let st' := fst (handleSingleEstimate env st) in
  let message :=
    estimateMessage env (input st)
      (bestModel (fst (selectionLoop env (input st) (availableModels st)))) w in
  let newChat := {| Chat.id := Date_now_chat env;
                    Chat.title := JSString.slice0 30 (input st) ++ str "...";
                    Chat.messages := [] |} in
  (noChat (activeChatId st) = true /\
   activeChatId st' = Some (Date_now_chat env) /\
   chats st' = appendMessage (Date_now_chat env) message (chats st ++ [newChat])) \/
  (exists id, activeChatId st = Some id /\ noChat (activeChatId st) = false /\
   activeChatId st' = Some id /\
   chats st' = appendMessage id message (chats st)).
Proof.
  intros Hprompt Htext Hmodels Hbest. cbv zeta. unfold handleSingleEstimate.
  destruct (JSString.trim (input st)) as [|c rest] eqn:Htrim; [congruence|].
  cbn [JSString.truthy negb]. rewrite Htext.
  destruct (availableModels st) as [|m0 models] eqn:Hav; [congruence|].
  cbn [length Nat.eqb].
  destruct (selectionLoop env (input st) (m0 :: models)) as [b requests].
  cbn [fst] in Hbest |- *. rewrite Hbest. cbn [fst].
  destruct (noChat (activeChatId st)) eqn:Hno.
  - left. repeat split.
  - right. destruct (activeChatId st) as [id|] eqn:Hid; [|discriminate].
    exists id. repeat split. exact Hid.
Qed.

(** The failures a turn reports: one for a request that failed, none for an
    answer that was read. *)
Lemma iteration_errors (env : Env) (prompt : jsstring) (b : Best) (modelName : jsstring) :
  length (filter isConsoleError (snd (iteration env prompt b modelName)))
  = match candidate env prompt modelName with Some _ => 0%nat | None => 1%nat end.
Proof.
  unfold candidate, iteration.
  destruct (fetchEstimate env (mkPayload prompt modelName)) as [response|]; [|reflexivity].
  destruct (Response.ok response); cbn [negb].
  - destruct (Response.json response) as [result|]; [|reflexivity].
    cbv zeta. now destruct (_ <? _).
  - now destruct (Response.text response).
Qed.

Lemma forOf_errors (env : Env) (prompt : jsstring) (models : list jsstring) (b : Best) :
  length (filter isConsoleError (snd (forOf env prompt models b)))
  = length (filter (fun m => match candidate env prompt m with
                             | Some _ => false
                             | None => true
                             end) models).
Proof.
  revert b. induction models as [|m models IH]; intros b; [reflexivity|].
  cbn [forOf filter]. pose proof (iteration_errors env prompt b m) as Herr.
  destruct (iteration env prompt b m) as [b1 t1]. cbn [snd] in Herr.
  specialize (IH b1). destruct (forOf env prompt models b1) as [b2 t2].
  cbn [snd] in IH |- *. rewrite filter_app, length_app, Herr, IH.
  now destruct (candidate env prompt m).
Qed.

End Handler_outcomes.

Section Handler_extras.

Import ChatCarbon.
Local Open Scope float_scope.

(** X1. A prompt whose lower-case form contains one of the image keywords is
    refused: the handler sends no request and logs nothing, and leaves the
    state as it was but for the error text, set to the message of this case,
    and the loading flag, reset. *)
Theorem image_prompt_is_refused (env : Env) (st : State) (k : jsstring) :
  JSString.trim (input st) <> [] ->
  In k imageKeywords ->
  JSString.includes (toLowerCase env (input st)) k = true ->
  handleSingleEstimate env st = (setLoading false (setError imageMessage st), []).
Proof.
  intros Hprompt Hin Hk. unfold handleSingleEstimate.
  destruct (JSString.trim (input st)) as [|c rest] eqn:Htrim; [congruence|].
  cbn [JSString.truthy negb]. now rewrite (detectPromptType_image env _ k Hin Hk).
Qed.

Lemma image_prompt_is_refused_witness :
  handleSingleEstimate (Sample.host Sample.threeAnswers) (setInput Sample.drawing Sample.idle)
  = (setLoading false (setError imageMessage (setInput Sample.drawing Sample.idle)), []).
Proof.
  apply (image_prompt_is_refused (Sample.host Sample.threeAnswers)
           (setInput Sample.drawing Sample.idle) (str "draw")).
  - vm_compute. discriminate.
  - right. right. right. left. reflexivity.
  - vm_compute. reflexivity.
Defined.

(** X2. After a run on an input that is not blank the loading flag is off, and
    the run ended in one of two ways. Either an estimate was stored: the error
    text and the input are empty, the comparison is shown and the history of
    estimates has one more entry. Or nothing was stored: the error text is one
    of the three messages, none of them empty, and the input, the chats, the
    active chat, the comparison and the history are as they were. *)
Theorem handler_outcomes (env : Env) (st : State) :
  JSString.trim (input st) <> [] ->
  let st' := fst (handleSingleEstimate env st) in
  loading st' = false /\
  ((error st' = [] /\ input st' = [] /\ showComparison st' = true /\
    exists w, allEstimates st' = allEstimates st ++ [w]) \/
   (In (error st') [imageMessage; noModelsMessage; noResultsMessage] /\
    error st' <> [] /\
    input st' = input st /\ chats st' = chats st /\ activeChatId st' = activeChatId st /\
    comparisonResults st' = comparisonResults st /\
    showComparison st' = showComparison st /\
    allEstimates st' = allEstimates st)).
Proof.
  intros Hprompt. cbv zeta. unfold handleSingleEstimate.
  destruct (JSString.trim (input st)) as [|c rest] eqn:Htrim; [congruence|].
  cbn [JSString.truthy negb].
  destruct (detectPromptType env (input st)).
  - split; [reflexivity|]. right. cbn. repeat split; try discriminate. now left.
  - destruct (availableModels st) as [|m0 models] eqn:Hav; cbn [length Nat.eqb].
    + split; [reflexivity|]. right. cbn. repeat split; try discriminate. right. now left.
    + destruct (selectionLoop env (input st) (m0 :: models)) as [b requests].
      destruct (bestResult b) as [w|].
      * cbn [fst]. destruct (noChat (activeChatId st));
          (split; [reflexivity|]); left;
          (split; [reflexivity|split; [reflexivity|split; [reflexivity|]]]);
          exists w; reflexivity.
      * split; [reflexivity|]. right. cbn. repeat split; try discriminate.
        right. right. now left.
Qed.

Lemma handler_outcomes_witness :
  let st' := fst (handleSingleEstimate (Sample.host Sample.threeAnswers) Sample.idle) in
  loading st' = false /\
  ((error st' = [] /\ input st' = [] /\ showComparison st' = true /\
    exists w, allEstimates st' = allEstimates Sample.idle ++ [w]) \/
   (In (error st') [imageMessage; noModelsMessage; noResultsMessage] /\
    error st' <> [] /\
    input st' = input Sample.idle /\ chats st' = chats Sample.idle /\
    activeChatId st' = activeChatId Sample.idle /\
    comparisonResults st' = comparisonResults Sample.idle /\
    showComparison st' = showComparison Sample.idle /\
    allEstimates st' = allEstimates Sample.idle)).
Proof.
  apply (handler_outcomes (Sample.host Sample.threeAnswers) Sample.idle).
  vm_compute. discriminate.
Defined.

(** X3. Whatever the host answers, a run leaves the history of estimates as it
    was or adds one entry to it. It is left as it was only when the input is
    blank or an image prompt, or when no available model answered with a
    score below [Infinity]. The entry added is the answer of one of the
    available models to this prompt, and no available model answered with a
    score strictly below its score. *)
Theorem stored_estimate_is_never_beaten (env : Env) (st : State) :
  let st' := fst (handleSingleEstimate env st) in
  (allEstimates st' = allEstimates st /\
   (JSString.trim (input st) = [] \/
    detectPromptType env (input st) = image \/
    forall m r, In m (availableModels st) -> candidate env (input st) m = Some r ->
                (score r <? infinity) = false)) \/
  exists m w,
    In m (availableModels st) /\
    candidate env (input st) m = Some w /\
    allEstimates st' = allEstimates st ++ [w] /\
    forall m' r, In m' (availableModels st) -> candidate env (input st) m' = Some r ->
                 (score r <? score w) = false.
Proof.
  cbv zeta. unfold handleSingleEstimate.
  destruct (JSString.trim (input st)) as [|c rest] eqn:Htrim; cbn [JSString.truthy negb].
  { left. split; [reflexivity | now left]. }
  destruct (detectPromptType env (input st)).
  { left. split; [reflexivity | right; now left]. }
  destruct (availableModels st) as [|m0 models] eqn:Hav; cbn [length Nat.eqb].
  { left. split; [reflexivity | right; right; intros m r []]. }
  pose proof (best_so_far_selectionLoop env (input st) (m0 :: models)) as Hinv.
  destruct (selectionLoop env (input st) (m0 :: models)) as [b requests].
  cbn [fst] in Hinv. unfold best_so_far in Hinv.
  destruct (bestResult b) as [w|].
  2:{ left. split; [reflexivity | right; right; exact (proj2 Hinv)]. }
  destruct Hinv as (_ & _ & before & after & Hmodels & Hw & Hbefore & Hafter).
  right. exists (bestModel b), w. split; [|split; [exact Hw|split]].
  - rewrite Hmodels. apply in_or_app. right. now left.
  - cbn [fst]. destruct (noChat (activeChatId st)); reflexivity.
  - intros m' r Hin Hr. rewrite Hmodels in Hin.
    apply in_app_or in Hin. destruct Hin as [Hin|[<-|Hin]].
    + destruct (score r <? score w) eqn:Hlt; [|reflexivity].
      rewrite <- (Hbefore m' r Hin Hr). symmetry. now apply num_ltb_leb.
    + rewrite Hw in Hr. injection Hr as <-.
      destruct (score w <? score w) eqn:Hlt; [|reflexivity].
      rewrite <- (num_ltb_not_leb _ _ Hlt). symmetry. now apply num_ltb_leb.
    + now apply (Hafter m' r).
Qed.

(** X4. Every request the handler sends is a request for one of the available
    models, carrying the input as its prompt and the three flags the handler
    fixes; requests are sent only for an input that is not blank and is taken
    for a text prompt. *)
Theorem requests_are_for_available_models (env : Env) (st : State) (p : Payload.t) :
  In (Fetch p) (snd (handleSingleEstimate env st)) ->
  Payload.prompt p = input st /\
  In (Payload.model_name p) (availableModels st) /\
  Payload.evaluate_accuracy p = true /\
  Payload.auto_select_model p = true /\
  Payload.simulate p = false /\
  JSString.trim (input st) <> [] /\
  detectPromptType env (input st) = text.
Proof.
  intros Hin.
  assert (Hf : In (Fetch p) (filter isFetch (snd (handleSingleEstimate env st))))
    by (apply filter_In; split; [exact Hin | reflexivity]).
  rewrite handleSingleEstimate_fetches in Hf.
  destruct (JSString.trim (input st)) as [|c rest] eqn:Htrim; [contradiction|].
  cbn [JSString.truthy negb] in Hf.
  destruct (detectPromptType env (input st)); [contradiction|].
  apply in_map_iff in Hf. destruct Hf as (m & Hm & Hin').
  injection Hm as <-. repeat split; try assumption. discriminate.
Qed.

Lemma requests_are_for_available_models_witness :
  Payload.prompt (mkPayload Sample.question Sample.mistral) = input Sample.idle /\
  In (Payload.model_name (mkPayload Sample.question Sample.mistral))
     (availableModels Sample.idle) /\
  Payload.evaluate_accuracy (mkPayload Sample.question Sample.mistral) = true /\
  Payload.auto_select_model (mkPayload Sample.question Sample.mistral) = true /\
  Payload.simulate (mkPayload Sample.question Sample.mistral) = false /\
  JSString.trim (input Sample.idle) <> [] /\
  detectPromptType (Sample.host Sample.threeAnswers) (input Sample.idle) = text.
Proof.
  apply (requests_are_for_available_models (Sample.host Sample.threeAnswers) Sample.idle
           (mkPayload Sample.question Sample.mistral)).
  vm_compute. do 7 right. left. reflexivity.
Defined.

(** X5. The comparison the loop collects has one row per model whose request
    succeeded, in the order of the list, whatever the scores are: the model's
    name, the carbon figure read from its answer and its accuracy as a
    percentage. There are at most as many rows as models. *)
Theorem comparison_rows_list_successes (env : Env) (prompt : jsstring)
  (models : list jsstring) :
  rows (fst (selectionLoop env prompt models)) = successfulRows env prompt models /\
  map Comparison.model (successfulRows env prompt models)
  = filter (fun m => match candidate env prompt m with Some _ => true | None => false end)
      models /\
  length (successfulRows env prompt models) <= length models.
Proof.
  split; [|split].
  - unfold selectionLoop. now rewrite forOf_rows.
  - unfold successfulRows. induction models as [|m models IH]; [reflexivity|].
    cbn [flat_map filter]. destruct (candidate env prompt m); cbn; now rewrite IH.
  - unfold successfulRows. induction models as [|m models IH]; [apply le_n|].
    cbn [flat_map]. rewrite length_app. cbn [length].
    destruct (candidate env prompt m); cbn [length]; lia.
Qed.

(** X6. Every model of the list is accounted for once: a request that fails is
    reported once on the console and adds no row, a request that succeeds
    adds one row and reports nothing. The failures reported and the rows
    collected are together as many as the models. *)
Theorem every_model_is_accounted_for (env : Env) (prompt : jsstring)
  (models : list jsstring) :
  let out := selectionLoop env prompt models in
  length (filter isConsoleError (snd out))
  = length (filter (fun m => match candidate env prompt m with
                             | Some _ => false
                             | None => true
                             end) models) /\
  length (rows (fst out))
  = length (filter (fun m => match candidate env prompt m with
                             | Some _ => true
                             | None => false
                             end) models) /\
  (length (filter isConsoleError (snd out)) + length (rows (fst out)) = length models)%nat.
Proof.
  cbv zeta. unfold selectionLoop. rewrite forOf_errors, forOf_rows. cbn [rows app].
  assert (Hrows : length (successfulRows env prompt models)
                  = length (filter (fun m => match candidate env prompt m with
                                             | Some _ => true
                                             | None => false
                                             end) models)).
  { unfold successfulRows. induction models as [|m l IH]; [reflexivity|].
    cbn [flat_map filter]. rewrite length_app, IH.
    now destruct (candidate env prompt m). }
  split; [reflexivity|]. split; [exact Hrows|]. rewrite Hrows.
  clear. induction models as [|m l IH]; [reflexivity|].
  cbn [filter length]. destruct (candidate env prompt m); cbn [length]; lia.
Qed.

End Handler_extras.

Section Scores_in_range.

Import ChatCarbon.
Local Open Scope float_scope.

(** X7. For an answer whose carbon figure is a finite, non-negative number and
    whose accuracy lies between 0 and 100, the score is a finite number: it is
    not [NaN], and the sum does not overflow to [Infinity], however large the
    carbon figure is. *)
Theorem score_of_readings_in_range (result : EstimateResult) :
  readingsInRange result ->
  is_finite (score result) = true /\
  is_nan (score result) = false /\
  (score result <? infinity) = true.
Proof.
  intros Hr. pose proof (score_finite result Hr) as Hfin.
  split; [now apply SFfinite_is_finite|]. split.
  - apply num_is_nan_false. intros Hnan. rewrite Hnan in Hfin. exact Hfin.
  - now apply score_below_infinity.
Qed.

Lemma score_of_readings_in_range_witness :
  is_finite (score (Sample.estimateOf Sample.gemini 1.7976931348623157e308 0.5)) = true /\
  is_nan (score (Sample.estimateOf Sample.gemini 1.7976931348623157e308 0.5)) = false /\
  (score (Sample.estimateOf Sample.gemini 1.7976931348623157e308 0.5) <? infinity) = true.
Proof.
  apply (score_of_readings_in_range
           (Sample.estimateOf Sample.gemini 1.7976931348623157e308 0.5)).
  repeat split; vm_compute; reflexivity.
Defined.

(** X8. When the input is a text prompt and at least one available model answers
    with readings within range, the run stores an estimate: the error text is
    left empty and the history has one more entry, an answer whose score is at
    most the score of that model's answer. *)
Theorem answer_in_range_is_not_lost (env : Env) (st : State) (m : jsstring)
  (r : EstimateResult) :
  JSString.trim (input st) <> [] ->
  detectPromptType env (input st) = text ->
  In m (availableModels st) ->
  candidate env (input st) m = Some r ->
  readingsInRange r ->
  let st' := fst (handleSingleEstimate env st) in
  error st' = [] /\
  exists w, allEstimates st' = allEstimates st ++ [w] /\
            (score w <=? score r) = true.
Proof.
  intros Hprompt Htext Hin Hr Hrange.
  assert (Hmodels : availableModels st <> []) by (intros H; rewrite H in Hin; exact Hin).
  pose proof (score_below_infinity r Hrange) as Hfin.
  pose proof (best_so_far_selectionLoop env (input st) (availableModels st)) as Hinv.
  unfold best_so_far in Hinv.
  destruct (bestResult (fst (selectionLoop env (input st) (availableModels st))))
    as [w|] eqn:Hbest.
  - destruct (handleSingleEstimate_stores_winner env st w Hprompt Htext Hmodels Hbest)
      as (Hall & _ & _ & _ & Herr & _).
    cbv zeta. split; [exact Herr|]. exists w. split; [exact Hall|].
    destruct Hinv as (_ & Hw & before & after & Hsplit & Hcw & Hbefore & Hafter).
    pose proof (num_ltb_not_nan_l _ _ Hw) as Hnw.
    pose proof (num_ltb_not_nan_l _ _ Hfin) as Hnr.
    apply num_not_ltb_leb; [exact Hnr | exact Hnw |].
    rewrite Hsplit in Hin. apply in_app_or in Hin. destruct Hin as [Hin|[<-|Hin]].
    + destruct (score r <? score w) eqn:Hlt; [|reflexivity].
      rewrite <- (Hbefore m r Hin Hr). symmetry. now apply num_ltb_leb.
    + rewrite Hcw in Hr. injection Hr as <-.
      destruct (score w <? score w) eqn:Hlt; [|reflexivity].
      rewrite <- (num_ltb_not_leb _ _ Hlt). symmetry. now apply num_ltb_leb.
    + now apply (Hafter m r).
  - destruct Hinv as (_ & Hnone). rewrite (Hnone m r Hin Hr) in Hfin. discriminate.
Qed.

Lemma answer_in_range_is_not_lost_witness :
  let st' := fst (handleSingleEstimate (Sample.host Sample.tiedAnswers) Sample.idle) in
  error st' = [] /\
  exists w, allEstimates st' = allEstimates Sample.idle ++ [w] /\
            (score w <=? score (Sample.estimateOf Sample.qwen 0.000067 77)) = true.
Proof.
  apply (answer_in_range_is_not_lost (Sample.host Sample.tiedAnswers) Sample.idle
           Sample.qwen (Sample.estimateOf Sample.qwen 0.000067 77)).
  - vm_compute. discriminate.
  - vm_compute. reflexivity.
  - right. right. left. reflexivity.
  - vm_compute. reflexivity.
  - repeat split; vm_compute; reflexivity.
Defined.

End Scores_in_range.

(** ** The list of chats *)

Section Chat_list.

Import ChatCarbon.

Lemma find_appendMessage (id : Z) (message : Message.t) (l : list Chat.t) :
  find (fun c => Z.eqb (Chat.id c) id) (appendMessage id message l)
  = option_map (withMessage message) (find (fun c => Z.eqb (Chat.id c) id) l).
Proof.
  induction l as [|c l IH]; [reflexivity|].
  cbn [appendMessage map find]. fold (appendMessage id message l).
  destruct (Z.eqb (Chat.id c) id) eqn:Hc; cbn [Chat.id]; rewrite Hc.
  - reflexivity.
  - exact IH.
Qed.

Lemma find_by_id (id : Z) (l : list Chat.t) :
  (exists c, In c l /\ Chat.id c = id) ->
  exists c, find (fun c => Z.eqb (Chat.id c) id) l = Some c /\ In c l /\ Chat.id c = id.
Proof.
  intros (c & Hin & Hid). induction l as [|c' l IH]; [contradiction|].
  cbn [find]. destruct (Z.eqb (Chat.id c') id) eqn:Hc'.
  - exists c'. apply Z.eqb_eq in Hc'. repeat split; [now left | exact Hc'].
  - destruct Hin as [->|Hin]; [apply Z.eqb_neq in Hc'; contradiction|].
    destruct (IH Hin) as (c'' & Hfind & Hin'' & Hid'').
    exists c''. repeat split; [exact Hfind | now right | exact Hid''].
Qed.

Lemma appendMessage_ids (id : Z) (message : Message.t) (l : list Chat.t) :
  map Chat.id (appendMessage id message l) = map Chat.id l.
Proof.
  unfold appendMessage. rewrite map_map. apply map_ext.
  intros c. now destruct (Z.eqb (Chat.id c) id).
Qed.

Lemma id_in_chats (id : Z) (l : list Chat.t) :
  (exists c, In c l /\ Chat.id c = id) <-> In id (map Chat.id l).
Proof.
  rewrite in_map_iff. split; intros (c & H1 & H2); exists c; now split.
Qed.

(** The invariant depends on the identifiers of the chats alone. *)
Lemma activeChatExists_ids (st st' : State) :
  map Chat.id (chats st') = map Chat.id (chats st) ->
  activeChatId st' = activeChatId st ->
  activeChatExists st -> activeChatExists st'.
Proof.
  unfold activeChatExists. intros Hids ->.
  destruct (activeChatId st) as [id|]; [|trivial].
  now rewrite !id_in_chats, Hids.
Qed.

Lemma handleSingleEstimate_keeps_active_chat (env : Env) (st : State) :
  activeChatExists st -> activeChatExists (fst (handleSingleEstimate env st)).
Proof.
  intros Hinv.
  destruct (JSString.trim (input st)) as [|c0 rest] eqn:Htrim.
  { unfold handleSingleEstimate. rewrite Htrim. exact Hinv. }
  assert (Hprompt : JSString.trim (input st) <> []) by (rewrite Htrim; discriminate).
  destruct (detectPromptType env (input st)) eqn:Htype.
  { unfold handleSingleEstimate. rewrite Htrim, Htype. exact Hinv. }
  destruct (availableModels st) as [|m0 models] eqn:Hav.
  { unfold handleSingleEstimate. rewrite Htrim, Htype, Hav. exact Hinv. }
  assert (Hmodels : availableModels st <> []) by (rewrite Hav; discriminate).
  destruct (bestResult (fst (selectionLoop env (input st) (availableModels st))))
    as [w|] eqn:Hbest.
  - destruct (handleSingleEstimate_chats env st w Hprompt Htype Hmodels Hbest)
      as [(_ & Hid & Hchats)|(id & Hact & _ & Hid & Hchats)];
      unfold activeChatExists; rewrite Hid, id_in_chats, Hchats, appendMessage_ids.
    + rewrite map_app. apply in_or_app. right. now left.
    + unfold activeChatExists in Hinv. rewrite Hact in Hinv. now apply id_in_chats.
  - unfold handleSingleEstimate. rewrite Htrim, Htype, Hav. cbn [JSString.truthy negb length Nat.eqb].
    rewrite Hav in Hbest.
    destruct (selectionLoop env (input st) (m0 :: models)) as [b requests].
    cbn [fst] in Hbest. rewrite Hbest. exact Hinv.
Qed.

End Chat_list.

Section Chat_list_extras.

Import ChatCarbon.

(** X9. When the active identifier, if any, is carried by a chat of the list, a
    run that keeps a winner leaves an active chat whose last message is the
    estimate message of the winner; a chat is added only when there was no
    active identifier. *)
Theorem estimate_message_reaches_active_chat (env : Env) (st : State) (w : EstimateResult) :
  JSString.trim (input st) <> [] ->
  detectPromptType env (input st) = text ->
  availableModels st <> [] ->
  bestResult (fst (selectionLoop env (input st) (availableModels st))) = Some w ->
  activeChatExists st ->
  let st' := fst (handleSingleEstimate env st) in
  (exists c earlier,
     activeChat st' = Some c /\
     Chat.messages c =
       earlier ++ [estimateMessage env (input st)
                     (bestModel (fst (selectionLoop env (input st) (availableModels st)))) w]) /\
  length (chats st') = (length (chats st) + if noChat (activeChatId st) then 1 else 0)%nat.
Proof.
  intros Hprompt Htext Hmodels Hbest Hinv. cbv zeta.
  set (message := estimateMessage env (input st) _ w).
  destruct (handleSingleEstimate_chats env st w Hprompt Htext Hmodels Hbest)
    as [(Hno & Hid & Hchats)|(id & Hact & Hno & Hid & Hchats)];
    fold message in Hchats; unfold activeChat; rewrite Hid, Hchats, Hno; split.
  - rewrite find_appendMessage.
    destruct (find_by_id (Date_now_chat env)
                (chats st ++ [{| Chat.id := Date_now_chat env;
                                 Chat.title := JSString.slice0 30 (input st) ++ str "...";
                                 Chat.messages := [] |}])) as (c & -> & _ & _).
    { eexists. split; [apply in_or_app; right; left; reflexivity | reflexivity]. }
    exists (withMessage message c), (Chat.messages c). split; reflexivity.
  - unfold appendMessage. rewrite length_map, length_app. reflexivity.
  - rewrite find_appendMessage.
    unfold activeChatExists in Hinv. rewrite Hact in Hinv.
    destruct (find_by_id id (chats st) Hinv) as (c & -> & _ & _).
    exists (withMessage message c), (Chat.messages c). split; reflexivity.
  - unfold appendMessage. rewrite length_map. lia.
Qed.

Lemma estimate_message_reaches_active_chat_witness :
  let st' := fst (handleSingleEstimate (Sample.host Sample.threeAnswers) Sample.chatting) in
  (exists c earlier,
     activeChat st' = Some c /\
     Chat.messages c =
       earlier ++ [estimateMessage (Sample.host Sample.threeAnswers) (input Sample.chatting)
                     (bestModel (fst (selectionLoop (Sample.host Sample.threeAnswers)
                                        (input Sample.chatting)
                                        (availableModels Sample.chatting))))
                     (Sample.estimateOf Sample.gemini 0.000067 77)]) /\
  length (chats st')
  = (length (chats Sample.chatting) + if noChat (activeChatId Sample.chatting) then 1 else 0)%nat.
Proof.
  apply (estimate_message_reaches_active_chat (Sample.host Sample.threeAnswers)
           Sample.chatting (Sample.estimateOf Sample.gemini 0.000067 77)).
  - vm_compute. discriminate.
  - vm_compute. reflexivity.
  - vm_compute. discriminate.
  - vm_compute. reflexivity.
  - exists Sample.firstChat. split; [now left | reflexivity].
Defined.

(** X10. Every operation on the chats keeps the active identifier attached to a
    chat of the list: creating a chat, deleting one, renaming one, selecting
    one of the list, and running the single-estimate handler. *)
Theorem active_chat_is_kept (env : Env) (now id : Z) (answer : option jsstring)
  (st : State) :
  activeChatExists st ->
  activeChatExists (handleNewChat now st) /\
  activeChatExists (deleteChat id st) /\
  activeChatExists (renameChat answer id st) /\
  (forall chat, In chat (chats st) -> activeChatExists (selectChat chat st)) /\
  activeChatExists (fst (handleSingleEstimate env st)).
Proof.
  intros Hinv. split; [|split; [|split; [|split]]].
  - unfold activeChatExists, handleNewChat. cbn.
    eexists. split; [apply in_or_app; right; left; reflexivity | reflexivity].
  - unfold deleteChat, isActive, activeChatExists in *.
    destruct (activeChatId st) as [a|] eqn:Ha; cbn; [|rewrite Ha; exact I].
    destruct (Z.eqb id a) eqn:Hid; cbn; [exact I|]. rewrite Ha.
    destruct Hinv as (c & Hin & Hc). exists c. split; [|exact Hc].
    apply filter_In. split; [exact Hin|].
    apply Z.eqb_neq in Hid. apply negb_true_iff, Z.eqb_neq. congruence.
  - unfold renameChat. destruct answer as [name|]; [|exact Hinv].
    destruct (negb (JSString.truthy (JSString.trim name))); [exact Hinv|].
    apply (activeChatExists_ids st); [|reflexivity|exact Hinv].
    cbn. rewrite map_map. apply map_ext. intros c. now destruct (Z.eqb (Chat.id c) id).
  - intros chat Hin. unfold activeChatExists, selectChat. cbn. now exists chat.
  - now apply handleSingleEstimate_keeps_active_chat.
Qed.

Lemma active_chat_is_kept_witness :
  activeChatExists (handleNewChat 1700000000000 Sample.chatting) /\
  activeChatExists (deleteChat 1690000000000 Sample.chatting) /\
  activeChatExists (renameChat (Some (str "Searching")) 1690000000000 Sample.chatting) /\
  (forall chat, In chat (chats Sample.chatting) ->
                activeChatExists (selectChat chat Sample.chatting)) /\
  activeChatExists (fst (handleSingleEstimate (Sample.host Sample.threeAnswers) Sample.chatting)).
Proof.
  apply (active_chat_is_kept (Sample.host Sample.threeAnswers) 1700000000000 1690000000000
           (Some (str "Searching")) Sample.chatting).
  exists Sample.firstChat. split; [now left | reflexivity].
Defined.

(** X11. Deleting a chat removes every chat that carries the identifier and keeps
    the others, in their order. When the identifier was the active one there
    is no active chat afterwards; otherwise the active chat is the one it
    was. The history of estimates is not touched: the estimates made in a
    deleted chat still count on the dashboard. *)
Theorem deleteChat_removes_the_chat (id : Z) (st : State) :
  let st' := deleteChat id st in
  chats st' = filter (fun c => negb (Z.eqb (Chat.id c) id)) (chats st) /\
  (forall c, In c (chats st') <-> In c (chats st) /\ Chat.id c <> id) /\
  (isActive id st = true -> activeChatId st' = None /\ activeChat st' = None) /\
  (isActive id st = false ->
   activeChatId st' = activeChatId st /\ activeChat st' = activeChat st) /\
  allEstimates st' = allEstimates st.
Proof.
  cbv zeta. unfold deleteChat.
  split; [|split; [|split; [|split]]].
  - now destruct (isActive id st).
  - intros c. assert (Hchats : chats (if isActive id st
                                     then setActiveChatId None
                                            (setChats (filter (fun c => negb (Z.eqb (Chat.id c) id))
                                                         (chats st)) st)
                                     else setChats (filter (fun c => negb (Z.eqb (Chat.id c) id))
                                                      (chats st)) st)
                             = filter (fun c => negb (Z.eqb (Chat.id c) id)) (chats st))
      by now destruct (isActive id st).
    rewrite Hchats, filter_In, negb_true_iff, Z.eqb_neq. reflexivity.
  - intros ->. split; reflexivity.
  - intros Hact. rewrite Hact. split; [reflexivity|].
    unfold activeChat, isActive in *. cbn.
    destruct (activeChatId st) as [a|]; [|reflexivity].
    apply Z.eqb_neq in Hact.
    induction (chats st) as [|c l IH]; [reflexivity|].
    cbn [filter find]. destruct (Z.eqb (Chat.id c) id) eqn:Hc; cbn [negb].
    + apply Z.eqb_eq in Hc.
      replace (Z.eqb (Chat.id c) a) with false by (symmetry; apply Z.eqb_neq; congruence).
      exact IH.
    + cbn [find]. destruct (Z.eqb (Chat.id c) a); [reflexivity | exact IH].
  - now destruct (isActive id st).
Qed.

(** X12. Renaming changes titles only: the chats keep their identifiers, their
    messages and their order, and the active chat keeps its messages. A
    dismissed dialog or a blank answer changes nothing; any other answer
    becomes, as typed, the title of every chat that carries the identifier. *)
Theorem renameChat_changes_titles_only (answer : option jsstring) (id : Z) (st : State) :
  let st' := renameChat answer id st in
  map Chat.id (chats st') = map Chat.id (chats st) /\
  map Chat.messages (chats st') = map Chat.messages (chats st) /\
  option_map Chat.messages (activeChat st') = option_map Chat.messages (activeChat st) /\
  (answer = None -> st' = st) /\
  (forall name, answer = Some name -> forallb JSString.isWhiteSpace name = true -> st' = st) /\
  (forall name, answer = Some name -> JSString.trim name <> [] ->
     forall c, In c (chats st') ->
       (Chat.id c = id -> Chat.title c = name) /\
       (Chat.id c <> id -> In c (chats st))).
Proof.
  cbv zeta. unfold renameChat.
  destruct answer as [name|].
  2:{ split; [reflexivity|split; [reflexivity|split; [reflexivity|split; [reflexivity|split]]]];
      discriminate. }
  destruct (JSString.trim name) as [|c0 rest] eqn:Htrim; cbn [JSString.truthy negb].
  { split; [reflexivity|split; [reflexivity|split; [reflexivity|split; [reflexivity|split]]]].
    - reflexivity.
    - intros name' Hn Hne. injection Hn as <-. congruence. }
  set (rename := fun c => if Z.eqb (Chat.id c) id
                          then {| Chat.id := Chat.id c; Chat.title := name;
                                  Chat.messages := Chat.messages c |}
                          else c).
  assert (Hid : forall c, Chat.id (rename c) = Chat.id c)
    by (intros c; unfold rename; now destruct (Z.eqb (Chat.id c) id)).
  assert (Hmsg : forall c, Chat.messages (rename c) = Chat.messages c)
    by (intros c; unfold rename; now destruct (Z.eqb (Chat.id c) id)).
  split; [|split; [|split; [|split; [|split]]]].
  - cbn. rewrite map_map. now apply map_ext.
  - cbn. rewrite map_map. now apply map_ext.
  - unfold activeChat. cbn. destruct (activeChatId st) as [a|]; [|reflexivity].
    induction (chats st) as [|c l IH]; [reflexivity|].
    cbn [map find]. rewrite Hid. destruct (Z.eqb (Chat.id c) a); [|exact IH].
    cbn. now rewrite Hmsg.
  - discriminate.
  - intros name' Hn Hblank. injection Hn as <-.
    rewrite (trim_whitespace _ Hblank) in Htrim. discriminate.
  - intros name' Hn _ c Hin. injection Hn as <-. cbn in Hin.
    apply in_map_iff in Hin. destruct Hin as (c' & <- & Hin). unfold rename.
    destruct (Z.eqb (Chat.id c') id) eqn:Hc'; cbn [Chat.id Chat.title].
    + apply Z.eqb_eq in Hc'. split; [reflexivity | congruence].
    + split; [|intros _; exact Hin]. apply Z.eqb_neq in Hc'. congruence.
Qed.

(** X13. A new chat is added at the end of the list, empty and titled "New Chat",
    and the comparison is hidden. When no chat carries the identifier drawn
    from the clock yet, the new chat is the active chat. *)
Theorem handleNewChat_opens_an_empty_chat (now : Z) (st : State) :
  (forall c, In c (chats st) -> Chat.id c <> now) ->
  let st' := handleNewChat now st in
  let newChat := {| Chat.id := now; Chat.title := str "New Chat"; Chat.messages := [] |} in
  chats st' = chats st ++ [newChat] /\
  activeChat st' = Some newChat /\
  showComparison st' = false /\
  allEstimates st' = allEstimates st.
Proof.
  intros Hfresh. cbv zeta. unfold handleNewChat, activeChat. cbn.
  repeat split.
  induction (chats st) as [|c l IH]; cbn [app find Chat.id].
  - now rewrite Z.eqb_refl.
  - replace (Z.eqb (Chat.id c) now) with false
      by (symmetry; apply Z.eqb_neq, Hfresh; now left).
    apply IH. intros c' Hin. apply Hfresh. now right.
Qed.

Lemma handleNewChat_opens_an_empty_chat_witness :
  let st' := handleNewChat 1700000000000 Sample.chatting in
  let newChat := {| Chat.id := 1700000000000; Chat.title := str "New Chat";
                    Chat.messages := [] |} in
  chats st' = chats Sample.chatting ++ [newChat] /\
  activeChat st' = Some newChat /\
  showComparison st' = false /\
  allEstimates st' = allEstimates Sample.chatting.
Proof.
  apply (handleNewChat_opens_an_empty_chat 1700000000000 Sample.chatting).
  intros c [<-|[<-|[]]]; vm_compute; discriminate.
Defined.

End Chat_list_extras.

(** ** The models offered by the server *)

Section Models.

Import ChatCarbon.

Lemma whitelisted_In (m : jsstring) :
  existsb (JSString.eqb m) MODEL_WHITELIST = true <-> In m MODEL_WHITELIST.
Proof.
  rewrite existsb_exists. split.
  - intros (k & Hin & Hk). apply jsstring_eqb_eq in Hk. now subst.
  - intros Hin. exists m. split; [exact Hin | apply jsstring_eqb_refl].
Qed.

Lemma filterModels_In (entries : list (jsstring * modelConfig)) (kept : list jsstring) :
  filterModels entries = Some kept ->
  forall m, In m kept <-> In m MODEL_WHITELIST /\ In (m, Config true) entries.
Proof.
  revert kept. induction entries as [|[k config] entries IH]; intros kept; cbn [filterModels].
  - intros H m. injection H as <-. cbn. tauto.
  - destruct (existsb (JSString.eqb k) MODEL_WHITELIST) eqn:Hk.
    + apply whitelisted_In in Hk.
      destruct config as [|available]; [discriminate|].
      destruct (filterModels entries) as [kept'|]; [|discriminate].
      intros H m. injection H as <-. specialize (IH kept' eq_refl m).
      destruct available; cbn [In]; rewrite IH; split.
      * intros [<-|[H1 H2]]; [split; [exact Hk | now left] | split; [exact H1 | now right]].
      * intros [H1 [H2|H2]]; [left; congruence | right; now split].
      * intros [H1 H2]. split; [exact H1 | now right].
      * intros [H1 [H2|H2]]; [discriminate | now split].
    + intros H m. rewrite (IH kept H m). cbn [In]. split.
      * intros [H1 H2]. split; [exact H1 | now right].
      * intros [H1 [H2|H2]]; [|now split].
        injection H2 as -> _. apply whitelisted_In in H1. congruence.
Qed.

Lemma filterModels_NoDup (entries : list (jsstring * modelConfig)) (kept : list jsstring) :
  filterModels entries = Some kept -> NoDup (map fst entries) -> NoDup kept.
Proof.
  revert kept. induction entries as [|[k config] entries IH]; intros kept; cbn [filterModels].
  - intros H _. injection H as <-. constructor.
  - cbn [map fst]. intros H Hnd. inversion Hnd as [|? ? Hk Hnd']; subst.
    destruct (existsb (JSString.eqb k) MODEL_WHITELIST).
    + destruct config as [|available]; [discriminate|].
      destruct (filterModels entries) as [kept'|] eqn:Hkept; [|discriminate].
      injection H as <-. specialize (IH kept' eq_refl Hnd').
      destruct available; [|exact IH]. constructor; [|exact IH].
      intros Hin. apply (filterModels_In _ _ Hkept) in Hin. destruct Hin as [_ Hin].
      apply Hk. apply in_map_iff. now exists (k, Config true).
    + now apply IH.
Qed.

(** The models a load leaves available are models of the white list. *)
Lemma availableModels_whitelisted {J : Type} (response : option (ModelsData J))
  (st : State) (choice : ModelChoice J) (m : jsstring) :
  In m (availableModels (fst (fst (fetchAvailableModels response st choice)))) ->
  In m MODEL_WHITELIST.
Proof.
  unfold fetchAvailableModels.
  destruct response as [data|]; [|contradiction].
  destruct (models data) as [entries|]; [|contradiction].
  destruct (filterModels entries) as [kept|] eqn:Hkept; [|contradiction].
  cbn. intros Hin. now apply (filterModels_In _ _ Hkept).
Qed.

End Models.

Section Models_extras.

Import ChatCarbon.

(** X14. A load ends in one of two ways. When it fails (the request or the
    parsing is rejected, the body has no [models], or a model of the white
    list is configured as [null]) no model is available, the error text is
    the message of this case and the selection is left as it was. When it
    succeeds the error text is not touched, the status is stored, the models
    available are exactly the models of the white list that the server lists
    with a truthy [api_available], and the selection is the first three of
    them. *)
Theorem models_after_loading {J : Type} (response : option (ModelsData J))
  (st : State) (choice : ModelChoice J) :
  let out := fetchAvailableModels response st choice in
  let st' := fst (fst out) in
  let choice' := snd (fst out) in
  (snd out = true ->
   availableModels st' = [] /\ error st' = loadFailedMessage /\ choice' = choice) /\
  (snd out = false ->
   error st' = error st /\
   selectedModels choice' = firstn 3 (availableModels st') /\
   exists data entries,
     response = Some data /\ models data = Some entries /\
     apiStatus choice' = api_status data /\
     forall m, In m (availableModels st') <->
               In m MODEL_WHITELIST /\ In (m, Config true) entries) /\
  input st' = input st /\ chats st' = chats st /\ activeChatId st' = activeChatId st /\
  allEstimates st' = allEstimates st /\ loading st' = loading st.
Proof.
  cbv zeta. unfold fetchAvailableModels.
  destruct response as [data|]; [|cbn; repeat split; discriminate].
  destruct (models data) as [entries|] eqn:Hmodels; [|cbn; repeat split; discriminate].
  destruct (filterModels entries) as [kept|] eqn:Hkept; [|cbn; repeat split; discriminate].
  cbn. split; [discriminate|]. split; [|repeat split].
  intros _. split; [reflexivity|]. split; [reflexivity|].
  exists data, entries. split; [reflexivity|]. split; [exact Hmodels|].
  split; [reflexivity|]. now apply filterModels_In.
Qed.

(** X15. The names [Object.keys] lists are distinct, so at most the three models
    of the white list are available after a successful load, each once, and
    all of them are selected. *)
Theorem every_available_model_is_selected {J : Type} (data : ModelsData J)
  (entries : list (jsstring * modelConfig)) (st : State) (choice : ModelChoice J) :
  models data = Some entries ->
  NoDup (map fst entries) ->
  snd (fetchAvailableModels (Some data) st choice) = false ->
  let out := fetchAvailableModels (Some data) st choice in
  selectedModels (snd (fst out)) = availableModels (fst (fst out)) /\
  NoDup (availableModels (fst (fst out))) /\
  length (availableModels (fst (fst out))) <= 3.
Proof.
  intros Hmodels Hnd. cbv zeta. unfold fetchAvailableModels. rewrite Hmodels.
  destruct (filterModels entries) as [kept|] eqn:Hkept; [|discriminate].
  intros _. cbn [fst snd selectedModels availableModels setAvailableModels].
  pose proof (filterModels_NoDup _ _ Hkept Hnd) as Hkd.
  assert (Hlen : length kept <= 3).
  { change 3 with (length MODEL_WHITELIST). apply NoDup_incl_length; [exact Hkd|].
    intros m Hin. now apply (filterModels_In _ _ Hkept). }
  split; [|split; [exact Hkd | exact Hlen]].
  now apply firstn_all2.
Qed.

Lemma every_available_model_is_selected_witness :
  let out := fetchAvailableModels (Some Sample.configured) Sample.mounting
               Sample.initialChoice in
  selectedModels (snd (fst out)) = availableModels (fst (fst out)) /\
  NoDup (availableModels (fst (fst out))) /\
  length (availableModels (fst (fst out))) <= 3.
Proof.
  apply (every_available_model_is_selected Sample.configured
           [(Sample.gemini, Config true); (str "gpt-4o", Config true);
            (Sample.mistral, Config false); (Sample.qwen, Config true)]
           Sample.mounting Sample.initialChoice).
  - reflexivity.
  - repeat constructor; vm_compute; intuition discriminate.
  - reflexivity.
Defined.

(** X16. Whatever the server lists and whatever is typed afterwards, the
    single-estimate handler run on the state a load leaves only sends
    requests for models of the white list. *)
Theorem only_whitelisted_models_are_queried {J : Type} (response : option (ModelsData J))
  (st : State) (choice : ModelChoice J) (env : Env) (prompt : jsstring) (p : Payload.t) :
  let loaded := fst (fst (fetchAvailableModels response st choice)) in
  In (Fetch p) (snd (handleSingleEstimate env (setInput prompt loaded))) ->
  In (Payload.model_name p) MODEL_WHITELIST.
Proof.
  cbv zeta. intros Hin.
  assert (Hf : In (Fetch p)
                 (filter isFetch
                    (snd (handleSingleEstimate env
                            (setInput prompt
                               (fst (fst (fetchAvailableModels response st choice))))))))
    by (apply filter_In; split; [exact Hin | reflexivity]).
  rewrite handleSingleEstimate_fetches in Hf.
  destruct (negb _); [contradiction|].
  destruct (detectPromptType env _); [contradiction|].
  apply in_map_iff in Hf. destruct Hf as (m & Hm & Hin').
  injection Hm as <-. cbn [Payload.model_name mkPayload].
  now apply (availableModels_whitelisted response st choice).
Qed.

Lemma only_whitelisted_models_are_queried_witness :
  In (Payload.model_name (mkPayload Sample.question Sample.qwen)) MODEL_WHITELIST.
Proof.
  apply (only_whitelisted_models_are_queried (Some Sample.configured) Sample.mounting
           Sample.initialChoice (Sample.host Sample.threeAnswers) Sample.question
           (mkPayload Sample.question Sample.qwen)).
  vm_compute. do 7 right. left. reflexivity.
Defined.

(** X17. After a load that failed, a text prompt is answered with the message for
    the lack of models and no request is sent, whatever was available
    before. *)
Theorem failed_load_blocks_estimates {J : Type} (response : option (ModelsData J))
  (st : State) (choice : ModelChoice J) (env : Env) (prompt : jsstring) :
  snd (fetchAvailableModels response st choice) = true ->
  JSString.trim prompt <> [] ->
  detectPromptType env prompt = text ->
  let loaded := setInput prompt (fst (fst (fetchAvailableModels response st choice))) in
  handleSingleEstimate env loaded
  = (setLoading false (setError noModelsMessage loaded), []).
Proof.
  intros Hfailed Hprompt Htext. cbv zeta.
  assert (Hnone : availableModels (fst (fst (fetchAvailableModels response st choice))) = []).
  { revert Hfailed. unfold fetchAvailableModels.
    destruct response as [data|]; [|reflexivity].
    destruct (models data) as [entries|]; [|reflexivity].
    destruct (filterModels entries); [discriminate | reflexivity]. }
  unfold handleSingleEstimate. cbn [input setInput].
  destruct (JSString.trim prompt) as [|c rest]; [congruence|].
  cbn [JSString.truthy negb]. rewrite Htext.
  cbn [availableModels setInput]. rewrite Hnone. reflexivity.
Qed.

Lemma failed_load_blocks_estimates_witness :
  let loaded := setInput Sample.question
                  (fst (fst (fetchAvailableModels (@None (ModelsData (list jsstring)))
                               Sample.idle Sample.initialChoice))) in
  handleSingleEstimate (Sample.host Sample.threeAnswers) loaded
  = (setLoading false (setError noModelsMessage loaded), []).
Proof.
  apply (failed_load_blocks_estimates (@None (ModelsData (list jsstring))) Sample.idle
           Sample.initialChoice (Sample.host Sample.threeAnswers) Sample.question).
  - reflexivity.
  - vm_compute. discriminate.
  - vm_compute. reflexivity.
Defined.

End Models_extras.

(** ** The breakdown by model *)

Section Breakdown_sums.

Import Dashboard.

Lemma sumOver_app (g : Breakdown.t -> nat) (mb1 mb2 : breakdown) :
  sumOver g (mb1 ++ mb2) = sumOver g mb1 + sumOver g mb2.
Proof.
  induction mb1 as [|entry mb1 IH]; [reflexivity|].
  cbn [app sumOver fold_right]. fold (sumOver g (mb1 ++ mb2)). fold (sumOver g mb1). lia.
Qed.

Lemma sumOver_adjust (g : Breakdown.t -> nat) (k : jsstring)
  (f : Breakdown.t -> Breakdown.t) (mb : breakdown) (d : Breakdown.t) :
  lookup k mb = Some d ->
  sumOver g (adjust k f mb) + g d = sumOver g mb + g (f d).
Proof.
  induction mb as [|[k' d'] mb IH]; cbn [lookup adjust]; [discriminate|].
  destruct (JSString.eqb k k').
  - intros H. injection H as ->. cbn [sumOver fold_right snd]. lia.
  - intros H. specialize (IH H). cbn [sumOver fold_right snd].
    fold (sumOver g (adjust k f mb)). fold (sumOver g mb). lia.
Qed.

Lemma sumOver_define (g : Breakdown.t -> nat) (k : jsstring) (d : Breakdown.t)
  (mb : breakdown) :
  sumOver g (define k d mb) = g d + sumOver g mb.
Proof.
  destruct (define_split k d mb) as (mb1 & mb2 & -> & ->).
  rewrite !sumOver_app.
  change (sumOver g ((k, d) :: mb2)) with (g d + sumOver g mb2). lia.
Qed.

(** An estimate adds to the sum what it adds to the value of its model. *)
Lemma sumOver_addEstimate (g : Breakdown.t -> nat) (e : EstimateResult) (n : nat)
  (mb : breakdown) :
  inherited (modelNameOf e) = false ->
  (forall d, g (accumulate e d) = g d + n) -> g Breakdown.empty = 0 ->
  sumOver g (addEstimate mb e) = sumOver g mb + n.
Proof.
  intros Hown Hstep Hempty. unfold addEstimate. rewrite Hown.
  destruct (lookup (modelNameOf e) mb) as [d|] eqn:Hk.
  - pose proof (sumOver_adjust g _ (accumulate e) mb d Hk) as H.
    rewrite Hstep in H. lia.
  - assert (Hk' : lookup (modelNameOf e) (define (modelNameOf e) Breakdown.empty mb)
                  = Some Breakdown.empty)
      by (rewrite lookup_define, jsstring_eqb_refl by exact Hk; reflexivity).
    pose proof (sumOver_adjust g _ (accumulate e) _ _ Hk') as H.
    rewrite Hstep, sumOver_define in H. lia.
Qed.

(** The estimates under an inherited name leave the breakdown as it is. *)
Lemma fold_ownNamed (estimates : list EstimateResult) (mb : breakdown) :
  fold_left addEstimate estimates mb = fold_left addEstimate (ownNamed estimates) mb.
Proof.
  revert mb. induction estimates as [|e estimates IH]; intros mb; [reflexivity|].
  cbn [fold_left ownNamed filter]. fold (ownNamed estimates).
  destruct (inherited (modelNameOf e)) eqn:He; cbn [negb fold_left].
  - unfold addEstimate at 2. rewrite He. apply IH.
  - apply IH.
Qed.

Lemma ownNamed_own (estimates : list EstimateResult) (e : EstimateResult) :
  In e (ownNamed estimates) -> inherited (modelNameOf e) = false.
Proof.
  intros Hin. apply filter_In in Hin. destruct Hin as [_ He].
  now apply negb_true_iff in He.
Qed.

Lemma accumulate_count (e : EstimateResult) (d : Breakdown.t) :
  Breakdown.count (accumulate e d) = Breakdown.count d + 1.
Proof.
  unfold accumulate. destruct (entryAccuracy e) as [a|]; [|reflexivity].
  now destruct (accuracyValid (Some a)).
Qed.

Lemma accumulate_accuracyCount (e : EstimateResult) (d : Breakdown.t) :
  Breakdown.accuracyCount (accumulate e d)
  = Breakdown.accuracyCount d + length (validAccuracies [e]).
Proof.
  rewrite validAccuracies_single. unfold accumulate.
  destruct (entryAccuracy e) as [a|]; cbn [length Breakdown.accuracyCount]; [|lia].
  destruct (accuracyValid (Some a)); cbn [length Breakdown.accuracyCount]; lia.
Qed.

Lemma sumOver_fold (g : Breakdown.t -> nat) (w : EstimateResult -> nat)
  (estimates : list EstimateResult) (mb : breakdown) :
  (forall e, In e estimates -> inherited (modelNameOf e) = false) ->
  (forall e d, g (accumulate e d) = g d + w e) -> g Breakdown.empty = 0 ->
  sumOver g (fold_left addEstimate estimates mb)
  = sumOver g mb + list_sum (map w estimates).
Proof.
  intros Hown Hstep Hempty. revert mb.
  induction estimates as [|e estimates IH]; intros mb.
  - cbn [fold_left map]. change (list_sum []) with 0%nat. lia.
  - change (list_sum (map w (e :: estimates))) with (w e + list_sum (map w estimates)).
    cbn [fold_left].
    rewrite IH by (intros e' Hin; apply Hown; now right).
    rewrite (sumOver_addEstimate g e (w e)) by (auto; apply Hown; now left). lia.
Qed.

Lemma validAccuracies_sum (estimates : list EstimateResult) :
  list_sum (map (fun e => length (validAccuracies [e])) estimates)
  = length (validAccuracies estimates).
Proof.
  induction estimates as [|e estimates IH]; [reflexivity|].
  change (list_sum (map (fun e => length (validAccuracies [e])) (e :: estimates)))
    with (length (validAccuracies [e])
          + list_sum (map (fun e => length (validAccuracies [e])) estimates)).
  rewrite IH, (validAccuracies_cons e estimates), length_app. reflexivity.
Qed.

Lemma lookup_existsb (k : jsstring) (mb : breakdown) :
  existsb (JSString.eqb k) (map fst mb)
  = match lookup k mb with Some _ => true | None => false end.
Proof.
  induction mb as [|[k' d] mb IH]; [reflexivity|].
  cbn [map fst existsb lookup]. destruct (JSString.eqb k k'); [reflexivity | exact IH].
Qed.

Lemma existsb_nonIndex (n : jsstring) (l : list jsstring) :
  isIndex n = false ->
  existsb (JSString.eqb n) (filter (fun k => negb (isIndex k)) l)
  = existsb (JSString.eqb n) l.
Proof.
  intros Hn. induction l as [|x l IH]; [reflexivity|].
  cbn [filter existsb]. destruct (isIndex x) eqn:Hx; cbn [negb existsb].
  - rewrite IH. destruct (JSString.eqb n x) eqn:E; [|reflexivity].
    apply jsstring_eqb_eq in E. congruence.
  - now rewrite IH.
Qed.

Lemma nonIndex_keys_define (k : jsstring) (d : Breakdown.t) (mb : breakdown) :
  filter (fun n => negb (isIndex n)) (map fst (define k d mb))
  = if isIndex k
    then filter (fun n => negb (isIndex n)) (map fst mb)
    else filter (fun n => negb (isIndex n)) (map fst mb) ++ [k].
Proof.
  destruct (define_split k d mb) as (mb1 & mb2 & Hmb & Hdef).
  destruct (isIndex k) eqn:Hk.
  - rewrite Hdef, Hmb, !map_app, !filter_app. cbn [map fst filter]. now rewrite Hk.
  - unfold define. unfold isIndex in Hk.
    destruct (arrayIndex k) eqn:Ha; [discriminate|].
    rewrite map_app, filter_app. cbn [map fst filter]. unfold isIndex. now rewrite Ha.
Qed.

(** The names that do not denote an array index are kept in the order of
    their first occurrence. *)
Lemma keys_fold (estimates : list EstimateResult) (mb : breakdown) :
  (forall e, In e estimates -> inherited (modelNameOf e) = false) ->
  filter (fun n => negb (isIndex n)) (map fst (fold_left addEstimate estimates mb))
  = fold_left (fun seen n => if existsb (JSString.eqb n) seen then seen else seen ++ [n])
      (filter (fun n => negb (isIndex n)) (map modelNameOf estimates))
      (filter (fun n => negb (isIndex n)) (map fst mb)).
Proof.
  revert mb. induction estimates as [|e estimates IH]; intros mb Hown; [reflexivity|].
  cbn [fold_left map filter].
  rewrite IH by (intros e' Hin; apply Hown; now right).
  assert (He : inherited (modelNameOf e) = false) by (apply Hown; now left).
  unfold addEstimate at 1. rewrite He, keys_adjust.
  destruct (isIndex (modelNameOf e)) eqn:Hi; cbn [negb fold_left].
  - f_equal. destruct (lookup (modelNameOf e) mb); [reflexivity|].
    now rewrite nonIndex_keys_define, Hi.
  - f_equal. rewrite existsb_nonIndex, lookup_existsb by exact Hi.
    destruct (lookup (modelNameOf e) mb); [reflexivity|].
    now rewrite nonIndex_keys_define, Hi.
Qed.

Lemma defineIndex_In (i : N) (k : jsstring) (d : Breakdown.t) (mb : breakdown) (x : jsstring) :
  In x (map fst (defineIndex i k d mb)) -> x = k \/ In x (map fst mb).
Proof.
  induction mb as [|[k' d'] mb IH]; cbn [defineIndex map fst In].
  - intros [<-|[]]. now left.
  - destruct (arrayIndex k') as [j|]; [destruct (i <? j)%N|]; cbn [map fst In].
    + intros [<-|[<-|H]]; auto.
    + intros [<-|H]; [auto|]. destruct (IH H); auto.
    + intros [<-|[<-|H]]; auto.
Qed.

Lemma enumerationOrder_snoc (l : list jsstring) (k : jsstring) :
  isIndex k = false -> enumerationOrder l -> enumerationOrder (l ++ [k]).
Proof.
  intros Hk (Heq & Hsorted). unfold enumerationOrder.
  rewrite !filter_app. cbn [filter]. rewrite Hk. cbn [negb].
  rewrite app_nil_r. split; [|exact Hsorted].
  rewrite app_assoc, <- Heq. reflexivity.
Qed.

Lemma enumerationOrder_defineIndex (i : N) (k : jsstring) (d : Breakdown.t)
  (mb : breakdown) :
  arrayIndex k = Some i ->
  enumerationOrder (map fst mb) -> enumerationOrder (map fst (defineIndex i k d mb)).
Proof.
  intros Hk.
  assert (Hik : isIndex k = true) by (unfold isIndex; now rewrite Hk).
  assert (Hiv : indexOf k = i) by (unfold indexOf; now rewrite Hk).
  induction mb as [|[k' d'] mb IH]; cbn [defineIndex map fst].
  - intros _. unfold enumerationOrder. cbn [filter]. rewrite Hik. cbn [negb app].
    split; [reflexivity|]. constructor; constructor.
  - intros (Heq & Hsorted). cbn [filter] in Heq, Hsorted.
    destruct (arrayIndex k') as [j|] eqn:Hk'.
    + assert (Hik' : isIndex k' = true) by (unfold isIndex; now rewrite Hk').
      assert (Hiv' : indexOf k' = j) by (unfold indexOf; now rewrite Hk').
      rewrite Hik' in Heq, Hsorted. cbn [negb app] in Heq.
      injection Heq as Heq.
      destruct (StronglySorted_inv Hsorted) as [Hs Hall].
      destruct (i <? j)%N eqn:Hij.
      * apply N.ltb_lt in Hij. unfold enumerationOrder. cbn [map fst filter].
        rewrite Hik, Hik'. cbn [negb app]. split; [now rewrite <- Heq|].
        constructor; [exact Hsorted|]. constructor; [unfold index_le; lia|].
        apply Forall_impl with (P := index_le k'); [|exact Hall].
        unfold index_le. intros x Hx. lia.
      * apply N.ltb_ge in Hij.
        destruct (IH (conj Heq Hs)) as (Heq' & Hs').
        unfold enumerationOrder. cbn [map fst filter]. rewrite Hik'. cbn [negb app].
        split; [now rewrite <- Heq'|]. constructor; [exact Hs'|].
        apply Forall_forall. intros x Hx. apply filter_In in Hx. destruct Hx as [Hx Hix].
        apply defineIndex_In in Hx. destruct Hx as [->|Hx].
        -- unfold index_le. lia.
        -- rewrite Forall_forall in Hall. apply Hall. apply filter_In. now split.
    + assert (Hik' : isIndex k' = false) by (unfold isIndex; now rewrite Hk').
      rewrite Hik' in Heq, Hsorted. cbn [negb] in Heq.
      assert (Hnone : filter isIndex (map fst mb) = []).
      { destruct (filter isIndex (map fst mb)) as [|x l] eqn:Hf; [reflexivity|].
        cbn [app] in Heq. injection Heq as Hx _.
        assert (Hin : In x (filter isIndex (map fst mb))) by (rewrite Hf; now left).
        apply filter_In in Hin. destruct Hin as [_ Hix]. congruence. }
      unfold enumerationOrder. cbn [map fst filter]. rewrite Hik, Hik', Hnone.
      cbn [negb app]. rewrite Hnone in Heq. cbn [app] in Heq.
      split; [now rewrite <- Heq|]. constructor; constructor.
Qed.

Lemma enumerationOrder_addEstimate (mb : breakdown) (e : EstimateResult) :
  enumerationOrder (map fst mb) -> enumerationOrder (map fst (addEstimate mb e)).
Proof.
  intros Hord. unfold addEstimate.
  destruct (inherited (modelNameOf e)); [exact Hord|]. rewrite keys_adjust.
  destruct (lookup (modelNameOf e) mb); [exact Hord|].
  unfold define. destruct (arrayIndex (modelNameOf e)) as [i|] eqn:Hi.
  - now apply enumerationOrder_defineIndex.
  - rewrite map_app. cbn [map fst]. apply enumerationOrder_snoc; [|exact Hord].
    unfold isIndex. now rewrite Hi.
Qed.

Lemma enumerationOrder_fold (estimates : list EstimateResult) (mb : breakdown) :
  enumerationOrder (map fst mb) ->
  enumerationOrder (map fst (fold_left addEstimate estimates mb)).
Proof.
  revert mb. induction estimates as [|e estimates IH]; intros mb Hord; [exact Hord|].
  cbn [fold_left]. now apply IH, enumerationOrder_addEstimate.
Qed.

Lemma insertByCount_hasCount (c : nat) (x : TopModel.t) (l : list TopModel.t) :
  filter (hasCount c) (insertByCount x l) = filter (hasCount c) (x :: l).
Proof.
  induction l as [|y l IH]; [reflexivity|].
  cbn [insertByCount]. destruct (TopModel.count x <? TopModel.count y)%nat eqn:Hlt;
    [|reflexivity].
  apply Nat.ltb_lt in Hlt. cbn [filter] in IH |- *. rewrite IH. unfold hasCount.
  destruct (Nat.eqb (TopModel.count x) c) eqn:Hx; [|reflexivity].
  destruct (Nat.eqb (TopModel.count y) c) eqn:Hy; [|reflexivity].
  apply Nat.eqb_eq in Hx. apply Nat.eqb_eq in Hy. lia.
Qed.

Lemma sortByCount_hasCount (c : nat) (l : list TopModel.t) :
  filter (hasCount c) (sortByCount l) = filter (hasCount c) l.
Proof.
  induction l as [|x l IH]; [reflexivity|].
  cbn [sortByCount fold_right]. fold (sortByCount l).
  rewrite insertByCount_hasCount. cbn [filter]. now rewrite IH.
Qed.

End Breakdown_sums.

Section Breakdown_extras.

Import Dashboard.
Local Open Scope float_scope.

(** X18. The request counts of the models add up to the number of estimates
    whose model name is not a name that a plain object inherits from
    [Object.prototype], and their counts of valid accuracies to the number of
    valid accuracies of those estimates: each of them is counted under exactly
    one model, and the estimates under an inherited name (such as
    "constructor") are counted under none. The sum is the total number of
    requests when no estimate carries such a name, and never exceeds it. *)
Theorem breakdown_counts_add_up (estimates : list EstimateResult) :
  let s := calculateStats estimates in
  sumOver Breakdown.count (modelBreakdown s) = length (ownNamed estimates) /\
  sumOver Breakdown.accuracyCount (modelBreakdown s)
  = length (validAccuracies (ownNamed estimates)) /\
  list_sum (map TopModel.count (topModels s)) = length (ownNamed estimates) /\
  (length (ownNamed estimates) <= totalRequests s)%nat /\
  ((forall e, In e estimates -> inherited (modelNameOf e) = false) ->
   sumOver Breakdown.count (modelBreakdown s) = totalRequests s).
Proof.
  cbv zeta. unfold calculateStats. cbn [modelBreakdown totalRequests topModels].
  rewrite (fold_ownNamed estimates []).
  assert (Hcount : sumOver Breakdown.count (fold_left addEstimate (ownNamed estimates) [])
                   = length (ownNamed estimates)).
  { rewrite (sumOver_fold Breakdown.count (fun _ => 1%nat) (ownNamed estimates) []
               (ownNamed_own estimates) accumulate_count eq_refl).
    assert (Hones : forall l : list EstimateResult,
               list_sum (map (fun _ : EstimateResult => 1%nat) l) = length l).
    { clear. induction l as [|e l IH]; [reflexivity|].
      change (list_sum (map (fun _ => 1%nat) (e :: l)))
        with (1 + list_sum (map (fun _ : EstimateResult => 1%nat) l))%nat.
      cbn [length]. now rewrite IH. }
    rewrite Hones. reflexivity. }
  split; [exact Hcount|]. split; [|split; [|split]].
  - rewrite (sumOver_fold Breakdown.accuracyCount (fun e => length (validAccuracies [e]))
               (ownNamed estimates) [] (ownNamed_own estimates)
               accumulate_accuracyCount eq_refl).
    rewrite validAccuracies_sum. reflexivity.
  - rewrite <- Hcount.
    assert (Hperm : Permutation
                      (map TopModel.count
                         (sortByCount
                            (map toTopModel (fold_left addEstimate (ownNamed estimates) []))))
                      (map TopModel.count
                         (map toTopModel (fold_left addEstimate (ownNamed estimates) []))))
      by apply Permutation_map, sortByCount_perm.
    assert (Hsum : forall l l' : list nat, Permutation l l' -> list_sum l = list_sum l').
    { clear. induction 1; simpl; lia. }
    rewrite (Hsum _ _ Hperm). clear.
    induction (fold_left addEstimate (ownNamed estimates) []) as [|[k d] mb IH];
      [reflexivity|].
    change (list_sum (map TopModel.count (map toTopModel ((k, d) :: mb))))
      with (Breakdown.count d + list_sum (map TopModel.count (map toTopModel mb)))%nat.
    change (sumOver Breakdown.count ((k, d) :: mb))
      with (Breakdown.count d + sumOver Breakdown.count mb)%nat.
    now rewrite IH.
  - unfold ownNamed. apply filter_length_le.
  - intros Hown. rewrite Hcount. f_equal. unfold ownNamed.
    clear Hcount. induction estimates as [|e l IH]; [reflexivity|].
    cbn [filter]. rewrite (Hown e) by now left. cbn [negb]. f_equal.
    apply IH. intros e' Hin. apply Hown. now right.
Qed.

(** X19. Each model shown on the dashboard carries the figures the dashboard
    computes for the history restricted to the estimates of that model: its
    request count is their number, which is at least one, its carbon per
    request is their total carbon over their number, and its average accuracy
    is their average accuracy. *)
Theorem model_card_is_its_own_dashboard (estimates : list EstimateResult) (t : TopModel.t) :
  In t (topModels (calculateStats estimates)) ->
  let own := calculateStats (entriesOf (TopModel.name t) estimates) in
  (1 <= totalRequests own)%nat /\
  TopModel.count t = totalRequests own /\
  TopModel.carbonPerRequest t = totalCarbon own / JSNumber.of_nat (totalRequests own) /\
  TopModel.accuracyAvg t = averageAccuracy own.
Proof.
  intros Hin. cbv zeta.
  apply (Permutation_in _ (sortByCount_perm _)) in Hin.
  apply in_map_iff in Hin. destruct Hin as ([k d] & <- & Hin).
  destruct (breakdown_entry k d estimates Hin) as (Hne & ->).
  cbn [toTopModel TopModel.name TopModel.count TopModel.carbonPerRequest TopModel.accuracyAvg].
  destruct (tally_fields (entriesOf k estimates)) as (Hc & Hac & Hta & Htc & _).
  rewrite Hc, Hac, Hta, Htc.
  unfold calculateStats. cbn [totalRequests totalCarbon averageAccuracy].
  repeat split.
  destruct (entriesOf k estimates); [congruence | cbn [length]; lia].
Qed.

Lemma model_card_is_its_own_dashboard_witness :
  let t := {| TopModel.name := Sample.gemini; TopModel.count := 3;
              TopModel.carbonPerRequest := 0.6000000000000001 / 3;
              TopModel.accuracyAvg := 225 / 3 |} in
  let own := calculateStats (entriesOf (TopModel.name t) Sample.history) in
  (1 <= totalRequests own)%nat /\
  TopModel.count t = totalRequests own /\
  TopModel.carbonPerRequest t = totalCarbon own / JSNumber.of_nat (totalRequests own) /\
  TopModel.accuracyAvg t = averageAccuracy own.
Proof.
  apply (model_card_is_its_own_dashboard Sample.history
           {| TopModel.name := Sample.gemini; TopModel.count := 3;
              TopModel.carbonPerRequest := 0.6000000000000001 / 3;
              TopModel.accuracyAvg := 225 / 3 |}).
  left. vm_compute. reflexivity.
Defined.

(** X20. The breakdown lists once every model name of the history that is
    not a name inherited from [Object.prototype], and no other name; an
    estimate that names no model counts under "unknown". The names are in
    the order in which the object enumerates them: those that denote an array
    index first, by increasing index, then the others in the order of their
    first occurrence in the history. *)
Theorem breakdown_lists_models_once (estimates : list EstimateResult) :
  let names := map fst (modelBreakdown (calculateStats estimates)) in
  NoDup names /\
  (forall k, In k names <->
             inherited k = false /\ exists e, In e estimates /\ modelNameOf e = k) /\
  enumerationOrder names /\
  filter (fun k => negb (isIndex k)) names
  = firstSeen (filter (fun k => negb (isIndex k)) (map modelNameOf (ownNamed estimates))) /\
  (forall e, In e estimates ->
             str_or (model_name e) (model e) = None -> In (str "unknown") names).
Proof.
  cbv zeta. unfold calculateStats. cbn [modelBreakdown].
  assert (Hmem : forall k, In k (map fst (fold_left addEstimate estimates []))
                           <-> inherited k = false /\
                               exists e, In e estimates /\ modelNameOf e = k).
  { intros k. split.
    - intros Hin. apply in_map_iff in Hin. destruct Hin as ([k' d] & <- & Hin).
      split; [now apply (breakdown_entry_own k' d estimates)|].
      destruct (breakdown_entry k' d estimates Hin) as (Hne & _). cbn [fst].
      destruct (entriesOf k' estimates) as [|e l] eqn:He; [congruence|].
      assert (Hin' : In e (entriesOf k' estimates)) by (rewrite He; now left).
      apply filter_In in Hin'. destruct Hin' as [Hin' Hk].
      exists e. split; [exact Hin' | now apply jsstring_eqb_eq].
    - intros (Hown & e & Hin & <-).
      pose proof (lookup_modelBreakdown (modelNameOf e) estimates) as Hl.
      rewrite Hown in Hl.
      destruct (entriesOf (modelNameOf e) estimates) as [|e' l] eqn:He.
      + assert (Hin' : In e (entriesOf (modelNameOf e) estimates))
          by (apply filter_In; split; [exact Hin | apply jsstring_eqb_refl]).
        rewrite He in Hin'. contradiction.
      + apply lookup_Some_In in Hl. apply in_map_iff.
        now exists (modelNameOf e, tally (e' :: l)). }
  split; [apply keys_modelBreakdown|]. split; [exact Hmem|]. split; [|split].
  - apply enumerationOrder_fold. split; [reflexivity | constructor].
  - rewrite (fold_ownNamed estimates []).
    apply (keys_fold (ownNamed estimates) []). apply ownNamed_own.
  - intros e Hin Hnone. apply Hmem. split.
    + vm_compute. reflexivity.
    + exists e. split; [exact Hin|]. unfold modelNameOf. now rewrite Hnone.
Qed.

Lemma tied_names (estimates : list EstimateResult) (c : nat) (mb : breakdown) :
  (forall k d, In (k, d) mb -> Breakdown.count d = length (entriesOf k estimates)) ->
  map TopModel.name (filter (hasCount c) (map toTopModel mb))
  = filter (fun k => Nat.eqb (length (entriesOf k estimates)) c) (map fst mb).
Proof.
  induction mb as [|[k d] mb IH]; intros Hcount; [reflexivity|].
  cbn [map filter fst]. unfold hasCount at 1.
  cbn [toTopModel TopModel.count].
  rewrite (Hcount k d) by now left.
  rewrite <- IH by (intros k' d' Hin; apply Hcount; now right).
  destruct (Nat.eqb (length (entriesOf k estimates)) c); reflexivity.
Qed.

(** X21. The sort of the top models is stable: models with equal request
    counts are shown in the order in which [Object.entries] lists them in
    the breakdown (names that denote an array index first, by increasing
    index, then the others by first occurrence in the history). For every
    count, the top models with that count are the entries of the breakdown
    with that count, in the same order, and their names are the names of the
    breakdown that have that many estimates in the history, in the order of
    the breakdown. For one estimate each of models named "b", "10", "2" and
    "constructor", the top models are "2", "10" and "b". *)
Theorem ties_keep_enumeration_order (estimates : list EstimateResult) (c : nat) :
  let s := calculateStats estimates in
  filter (hasCount c) (topModels s)
  = filter (hasCount c) (map toTopModel (modelBreakdown s)) /\
  map TopModel.name (filter (hasCount c) (topModels s))
  = filter (fun k => Nat.eqb (length (entriesOf k estimates)) c)
      (map fst (modelBreakdown s)) /\
  map TopModel.name (topModels (calculateStats Sample.mixedNames))
  = [str "2"; str "10"; str "b"].
Proof.
  cbv zeta. unfold calculateStats. cbn [topModels modelBreakdown].
  split; [apply sortByCount_hasCount|]. split; [|vm_compute; reflexivity].
  rewrite sortByCount_hasCount. apply tied_names.
  intros k d Hin. destruct (breakdown_entry k d estimates Hin) as (_ & ->).
  now destruct (tally_fields (entriesOf k estimates)) as (-> & _).
Qed.

End Breakdown_extras.

(** ** From the handler to the dashboard *)

Section Handler_to_dashboard.

Import ChatCarbon.

Lemma entriesOf_single (k : jsstring) (e : EstimateResult) :
  entriesOf k [e] = if JSString.eqb (Dashboard.modelNameOf e) k then [e] else [].
Proof. reflexivity. Qed.

(** X22. After a run that keeps a winner, a dashboard given the new history
    counts one request more than the history had entries. The winner is
    counted under the model name its answer carries: unless that name is one
    that a plain object inherits from [Object.prototype], that model has one
    request more than it had entries in the old history; with such a name
    the breakdown is left as it was. Every other model has the value it
    had. *)
Theorem dashboard_counts_the_stored_estimate (env : Env) (st : State) (w : EstimateResult) :
  JSString.trim (input st) <> [] ->
  detectPromptType env (input st) = text ->
  availableModels st <> [] ->
  bestResult (fst (selectionLoop env (input st) (availableModels st))) = Some w ->
  let s' := Dashboard.Dashboard (allEstimates (fst (handleSingleEstimate env st))) in
  let old := Dashboard.calculateStats (allEstimates st) in
  Dashboard.totalRequests s' = S (length (allEstimates st)) /\
  (Dashboard.inherited (Dashboard.modelNameOf w) = false ->
   exists d,
     Dashboard.lookup (Dashboard.modelNameOf w) (Dashboard.modelBreakdown s') = Some d /\
     Breakdown.count d
     = S (length (entriesOf (Dashboard.modelNameOf w) (allEstimates st)))) /\
  (Dashboard.inherited (Dashboard.modelNameOf w) = true ->
   Dashboard.modelBreakdown s' = Dashboard.modelBreakdown old) /\
  (forall k, k <> Dashboard.modelNameOf w ->
             Dashboard.lookup k (Dashboard.modelBreakdown s')
             = Dashboard.lookup k (Dashboard.modelBreakdown old)).
Proof.
  intros Hprompt Htext Hmodels Hbest. cbv zeta.
  destruct (handleSingleEstimate_stores_winner env st w Hprompt Htext Hmodels Hbest)
    as (-> & _).
  unfold Dashboard.Dashboard, Dashboard.onEstimates.
  replace (0 <? length (allEstimates st ++ [w]))%nat with true
    by (symmetry; apply Nat.ltb_lt; rewrite length_app; cbn [length]; lia).
  unfold Dashboard.calculateStats.
  cbn [Dashboard.totalRequests Dashboard.modelBreakdown].
  split; [rewrite length_app; cbn [length]; lia|]. split; [|split].
  - intros Hown.
    rewrite lookup_modelBreakdown, Hown, entriesOf_app, entriesOf_single, jsstring_eqb_refl.
    destruct (entriesOf (Dashboard.modelNameOf w) (allEstimates st) ++ [w])
      as [|e l] eqn:He.
    + apply (f_equal (@length _)) in He. rewrite length_app in He. cbn [length] in He. lia.
    + eexists. split; [reflexivity|]. rewrite <- He.
      destruct (tally_fields (entriesOf (Dashboard.modelNameOf w) (allEstimates st) ++ [w]))
        as (-> & _).
      rewrite length_app. cbn [length]. lia.
  - intros Hinh. rewrite fold_left_app. cbn [fold_left].
    unfold Dashboard.addEstimate at 1. now rewrite Hinh.
  - intros k Hk. rewrite !lookup_modelBreakdown, entriesOf_app, entriesOf_single.
    replace (JSString.eqb (Dashboard.modelNameOf w) k) with false
      by (symmetry; apply jsstring_eqb_neq; congruence).
    now rewrite app_nil_r.
Qed.

Lemma dashboard_counts_the_stored_estimate_witness :
  let s' := Dashboard.Dashboard
              (allEstimates (fst (handleSingleEstimate (Sample.host Sample.threeAnswers)
                                    Sample.idle))) in
  let old := Dashboard.calculateStats (allEstimates Sample.idle) in
  Dashboard.totalRequests s' = S (length (allEstimates Sample.idle)) /\
  (Dashboard.inherited
     (Dashboard.modelNameOf (Sample.estimateOf Sample.gemini 0.000067 77)) = false ->
   exists d,
     Dashboard.lookup (Dashboard.modelNameOf (Sample.estimateOf Sample.gemini 0.000067 77))
       (Dashboard.modelBreakdown s') = Some d /\
     Breakdown.count d
     = S (length (entriesOf (Dashboard.modelNameOf (Sample.estimateOf Sample.gemini 0.000067 77))
                    (allEstimates Sample.idle)))) /\
  (Dashboard.inherited
     (Dashboard.modelNameOf (Sample.estimateOf Sample.gemini 0.000067 77)) = true ->
   Dashboard.modelBreakdown s' = Dashboard.modelBreakdown old) /\
  (forall k, k <> Dashboard.modelNameOf (Sample.estimateOf Sample.gemini 0.000067 77) ->
             Dashboard.lookup k (Dashboard.modelBreakdown s')
             = Dashboard.lookup k (Dashboard.modelBreakdown old)).
Proof.
  apply (dashboard_counts_the_stored_estimate (Sample.host Sample.threeAnswers) Sample.idle
           (Sample.estimateOf Sample.gemini 0.000067 77)).
  - vm_compute. discriminate.
  - vm_compute. reflexivity.
  - vm_compute. discriminate.
  - vm_compute. reflexivity.
Defined.

End Handler_to_dashboard.

(** ** The colour of a carbon figure *)

Section Colours.

Import ChatCarbon.
Local Open Scope float_scope.

Lemma num_nan_ltb (a b : float) : is_nan a = true -> (a <? b) = false.
Proof.
  intros Hnan. rewrite FloatAxioms.ltb_spec.
  destruct (Prim2SF a) as [s|s| |s m e] eqn:Ha; [| |reflexivity|];
    rewrite num_is_nan_false in Hnan by (rewrite Ha; discriminate); discriminate.
Qed.

Ltac colour_order Hab :=
  first
    [ match goal with
      | Ha : (?a <? ?t) = false, Hb : (?b <? ?t) = true |- _ =>
          rewrite (num_leb_ltb_trans a b t Hab Hb) in Ha; discriminate
      end
    | match goal with
      | |- exists i j, _ =>
          first [ exists 0%nat, 0%nat; repeat split; lia
                | exists 0%nat, 1%nat; repeat split; lia
                | exists 0%nat, 2%nat; repeat split; lia
                | exists 0%nat, 3%nat; repeat split; lia
                | exists 0%nat, 4%nat; repeat split; lia
                | exists 1%nat, 1%nat; repeat split; lia
                | exists 1%nat, 2%nat; repeat split; lia
                | exists 1%nat, 3%nat; repeat split; lia
                | exists 1%nat, 4%nat; repeat split; lia
                | exists 2%nat, 2%nat; repeat split; lia
                | exists 2%nat, 3%nat; repeat split; lia
                | exists 2%nat, 4%nat; repeat split; lia
                | exists 3%nat, 3%nat; repeat split; lia
                | exists 3%nat, 4%nat; repeat split; lia
                | exists 4%nat, 4%nat; repeat split; lia ]
      end ].

(** X23. The colour follows the carbon figure: of two figures the larger one
    never gets a colour that comes earlier in the palette, which runs from
    green to orange. A figure that is not a number is shown in the last
    colour. *)
Theorem colour_follows_carbon (a b : float) :
  (a <=? b) = true ->
  (exists i j,
     nth_error palette i = Some (getCarbonColor a) /\
     nth_error palette j = Some (getCarbonColor b) /\
     (i <= j)%nat) /\
  (forall kg, is_nan kg = true -> getCarbonColor kg = str "#FF6F00").
Proof.
  intros Hab. split.
  2:{ intros kg Hnan. unfold getCarbonColor. now rewrite !(num_nan_ltb kg) by exact Hnan. }
  unfold getCarbonColor.
  destruct (a <? 0.000001) eqn:A1; [|destruct (a <? 0.00001) eqn:A2;
    [|destruct (a <? 0.0001) eqn:A3; [|destruct (a <? 0.001) eqn:A4]]];
  (destruct (b <? 0.000001) eqn:B1; [|destruct (b <? 0.00001) eqn:B2;
    [|destruct (b <? 0.0001) eqn:B3; [|destruct (b <? 0.001) eqn:B4]]]);
  colour_order Hab.
Qed.

Lemma colour_follows_carbon_witness :
  (exists i j,
     nth_error palette i = Some (getCarbonColor 0.000067) /\
     nth_error palette j = Some (getCarbonColor 0.0042) /\
     (i <= j)%nat) /\
  (forall kg, is_nan kg = true -> getCarbonColor kg = str "#FF6F00").
Proof.
  apply (colour_follows_carbon 0.000067 0.0042). vm_compute. reflexivity.
Defined.

End Colours.

(** ** The detection of image prompts *)

Section Prompt_type.

Import ChatCarbon.

Lemma startsWith_spec (s k : jsstring) :
  JSString.startsWith s k = true <-> exists post, s = k ++ post.
Proof.
  revert s. induction k as [|y k IH]; intros s.
  - destruct s; cbn; split; try reflexivity; intros _; eexists; reflexivity.
  - destruct s as [|x s]; cbn [JSString.startsWith].
    + split; [discriminate | intros (post & H); discriminate].
    + rewrite andb_true_iff, N.eqb_eq, IH. split.
      * intros (-> & post & ->). now exists post.
      * intros (post & H). injection H as -> ->. split; [reflexivity | now exists post].
Qed.

(** [includes] finds the contiguous occurrences. *)
Lemma includes_spec (s k : jsstring) :
  JSString.includes s k = true <-> exists pre post, s = pre ++ k ++ post.
Proof.
  induction s as [|x s IH].
  - cbn [JSString.includes]. rewrite orb_false_r, startsWith_spec. split.
    + intros (post & H). now exists [], post.
    + intros (pre & post & H). destruct pre; [now exists post|discriminate].
  - cbn [JSString.includes]. rewrite orb_true_iff, startsWith_spec, IH. split.
    + intros [(post & H)|(pre & post & H)].
      * now exists [], post.
      * exists (x :: pre), post. now rewrite H.
    + intros (pre & post & H). destruct pre as [|x' pre].
      * left. now exists post.
      * right. injection H as -> ->. now exists pre, post.
Qed.

Lemma includes_trans (s k k' : jsstring) :
  JSString.includes s k = true -> JSString.includes k k' = true ->
  JSString.includes s k' = true.
Proof.
  rewrite !includes_spec. intros (pre & post & ->) (pre' & post' & ->).
  exists (pre ++ pre'), (post' ++ post). now rewrite <- !app_assoc.
Qed.

(** X24. Whether a prompt is taken for an image prompt is decided by six of the
    ten keywords: the prompt is an image prompt exactly when its lower-case
    form contains "image", "picture", "photo", "draw", "show me" or
    "visualize", anywhere, also inside a longer word. The four longer
    phrases of the list never change the answer. *)
Theorem image_prompts_are_decided_by_six_keywords (env : Env) (prompt : jsstring) :
  detectPromptType env prompt = image <->
  exists k, In k decisiveKeywords /\ JSString.includes (toLowerCase env prompt) k = true.
Proof.
  unfold detectPromptType.
  destruct (existsb (fun k => JSString.includes (toLowerCase env prompt) k) imageKeywords)
    eqn:Hany.
  - split; [intros _|reflexivity].
    apply existsb_exists in Hany. destruct Hany as (k & Hin & Hk).
    assert (Hshort : exists k', In k' decisiveKeywords /\ JSString.includes k k' = true).
    { unfold imageKeywords in Hin. cbn [In] in Hin.
      destruct Hin as [<-|[<-|[<-|[<-|[<-|[<-|[<-|[<-|[<-|[<-|[]]]]]]]]]]].
      - exists (str "image"). split; [now left | vm_compute; reflexivity].
      - exists (str "picture"). split; [right; now left | vm_compute; reflexivity].
      - exists (str "photo"). split; [do 2 right; now left | vm_compute; reflexivity].
      - exists (str "draw"). split; [do 3 right; now left | vm_compute; reflexivity].
      - exists (str "image"). split; [now left | vm_compute; reflexivity].
      - exists (str "show me"). split; [do 4 right; now left | vm_compute; reflexivity].
      - exists (str "visualize"). split; [do 5 right; now left | vm_compute; reflexivity].
      - exists (str "picture"). split; [right; now left | vm_compute; reflexivity].
      - exists (str "photo"). split; [do 2 right; now left | vm_compute; reflexivity].
      - exists (str "draw"). split; [do 3 right; now left | vm_compute; reflexivity]. }
    destruct Hshort as (k' & Hin' & Hk').
    exists k'. split; [exact Hin' | now apply (includes_trans _ k)].
  - split; [discriminate|]. intros (k & Hin & Hk).
    assert (Hany' : existsb (fun k => JSString.includes (toLowerCase env prompt) k)
                      imageKeywords = true).
    { apply existsb_exists. exists k. split; [|exact Hk].
      unfold decisiveKeywords in Hin. cbn [In] in Hin. unfold imageKeywords. cbn [In].
      destruct Hin as [<-|[<-|[<-|[<-|[<-|[<-|[]]]]]]]; tauto. }
    congruence.
Qed.

End Prompt_type.
